(** * webAccessConnector 1.1: a shallow embedding and its verified properties

    The development follows [src/webAccessConnector-1.1.js].  The
    definitions come first:

    - [JS]: the fragment of the JavaScript run time the connector relies on
      (numbers, strings, loosely typed values, property access);
    - [Parser]: the static method [webAccessConnector.parseQueryUrl];
    - [Query]: [query._queryResponseProcessor];
    - [Request]: the [webAccessConnector.webAccessRequest] orchestrator,
      driven by the answers of the transport;
    - [Metadata]: [metadata.getAttributesForObject];
    - [Record_]: [record._prepareSaveData] and the operations built on it,
      over a store of objects;
    - [Text]: the text of a value, [Number::toString] included, and [+];
    - [Steps]: the steps a request can take on an answer, and the request
      of [query.runQuery];
    - [Schema]: [metadata.getModules], [metadata.getObject] and
      [metadata.getObjectsForModule], and hierarchies without a root;
    - [Saved]: what the operations that save hand over;
    - [Urls]: what [parseQueryUrl] keeps of a query string, and
      [encodeURIComponent];
    - [Transport]: [webAccessConnector.ajax.call] with [ajax.onAjaxSuccess]
      and [ajax.onAjaxError], for any [JSON.parse], and the two actions
      [action.windowlessAction] and [action.attachDetachAction]; where the source cuts
      a string by code units, a surrogate left on its own is held as its
      three octets.

    The properties follow, a module for each of the above: [ParserProps],
    [QueryProps], [RequestProps], [MetadataProps], [RecordProps],
    [StepsProps], [SchemaProps], [SavedProps], [UrlsProps] and
    [TransportProps].

    Strings are sequences of bytes holding the UTF-8 form of the JavaScript
    string; every separator the connector searches for is ASCII, so
    positions found by [indexOf] and consumed by [substring] agree with the
    source on every input.

    Three built-ins are embedded on a part of their inputs, and the
    theorems that depend on them say so: [toLowerCase] and [<] on titles
    written in ASCII ([ascii_titled]), [JSON.stringify] on objects
    without a method [toJSON] ([has_toJSON], [no_toJSON]).  A comparison
    with [==] that throws, on a value without a primitive form
    ([raises]), throws in the embedding too ([eq_num], [eq_str]); a
    status code is a number and is compared as it is. *)

From Stdlib Require Import ZArith NArith String Ascii List Bool Lia.
From Stdlib Require Import Floats.SpecFloat.
From stdpp Require Import base option list sorting gmap strings pretty.

Set Warnings "-register-all".

Local Open Scope string_scope.
Local Open Scope list_scope.

(* ===================================================================== *)
(** * The JavaScript fragment used by the connector *)
(* ===================================================================== *)

Module JS.

(** ** Numbers: IEEE 754 binary64 *)

Definition number : Type := spec_float.
Definition prec : Z := 53.
Definition emax : Z := 1024.

Definition NaN : number := S754_nan.
Definition of_Z (z : Z) : number := binary_normalize prec emax z 0 false.
Definition of_nat (n : nat) : number := of_Z (Z.of_nat n).

(** [==] and [===] on two numbers: NaN differs from itself, the two zeros
    are equal. *)
Definition num_eqb (a b : number) : bool := SFeqb a b.

Definition is_NaN (n : number) : bool :=
  match n with S754_nan => true | _ => false end.

(** The double nearest to [(-1)^neg * m * 10^e], ties to even. *)
Definition of_decimal (neg : bool) (m : Z) (e : Z) : number :=
  match m with
  | Zpos p =>
      if (0 <=? e)%Z
      then binary_round prec emax neg (Z.to_pos (Zpos p * 10 ^ e)) 0
      else
        let '(q, e', l) :=
          SFdiv_core_binary prec emax (Zpos p) 0 (10 ^ (- e)) 0 in
        binary_round_aux prec emax neg q e' l
  | _ => S754_zero neg
  end.

(** ** Characters and strings *)

Definition code (c : ascii) : N := N_of_ascii c.
Definition chr (n : N) : ascii := ascii_of_N n.

Definition is_empty (s : string) : bool :=
  match s with EmptyString => true | _ => false end.

Fixpoint strip_prefix (p s : string) : option string :=
  match p, s with
  | EmptyString, _ => Some s
  | String a p', String b s' =>
      if Ascii.eqb a b then strip_prefix p' s' else None
  | String _ _, EmptyString => None
  end.

(** [s.split(c)] for a one-character separator: never the empty array. *)
Fixpoint split (c : ascii) (s : string) : list string :=
  match s with
  | EmptyString => [EmptyString]
  | String a s' =>
      if Ascii.eqb a c then EmptyString :: split c s'
      else match split c s' with
           | piece :: pieces => String a piece :: pieces
           | [] => [String a EmptyString]
           end
  end.

(** [parts.join(c)] on an array of strings. *)
Fixpoint join (c : ascii) (parts : list string) : string :=
  match parts with
  | [] => EmptyString
  | [p] => p
  | p :: rest => p +:+ String c (join c rest)
  end.

(** [s.indexOf(c)]: [None] stands for -1. *)
Fixpoint indexOf (c : ascii) (s : string) : option nat :=
  match s with
  | EmptyString => None
  | String a s' =>
      if Ascii.eqb a c then Some 0 else S <$> indexOf c s'
  end.

Fixpoint drop_chars (n : nat) (s : string) : string :=
  match n, s with
  | 0, _ => s
  | S n', String _ s' => drop_chars n' s'
  | S _, EmptyString => EmptyString
  end.

Fixpoint take_chars (n : nat) (s : string) : string :=
  match n, s with
  | 0, _ => EmptyString
  | S n', String a s' => String a (take_chars n' s')
  | S _, EmptyString => EmptyString
  end.

(** [s.indexOf(c, from)]. *)
Definition indexOf_from (c : ascii) (from : nat) (s : string) : option nat :=
  if (from <=? String.length s)%nat
  then (λ k, from + k) <$> indexOf c (drop_chars from s)
  else None.

(** [s.substring(0, e)] where [e] is the result of an [indexOf]: a negative
    bound is taken as 0. *)
Definition substring_to (e : option nat) (s : string) : string :=
  match e with
  | Some k => take_chars k s
  | None => EmptyString
  end.

(** [s.toLowerCase()]; letters outside ASCII are left as they are. *)
Definition lower_char (c : ascii) : ascii :=
  let n := code c in
  if ((65 <=? n) && (n <=? 90))%N then chr (n + 32) else c.

Fixpoint toLowerCase (s : string) : string :=
  match s with
  | EmptyString => EmptyString
  | String a s' => String (lower_char a) (toLowerCase s')
  end.

(** [a < b] on strings: lexicographic on the octets, which for strings
    written in ASCII are the code units [<] compares. *)
Fixpoint str_ltb (a b : string) : bool :=
  match a, b with
  | _, EmptyString => false
  | EmptyString, String _ _ => true
  | String x a', String y b' =>
      if (code x <? code y)%N then true
      else if (code y <? code x)%N then false
      else str_ltb a' b'
  end.

(** ** White space (StrWhiteSpaceChar), in UTF-8 *)

Definition is_ascii_space (c : ascii) : bool :=
  let n := code c in
  ((9 <=? n) && (n <=? 13) || (n =? 32))%N.

(** Second and third byte of the three-byte white space characters. *)
Definition is_space3 (a b c : ascii) : bool :=
  let '(x, y, z) := (code a, code b, code c) in
  ((x =? 225) && (y =? 154) && (z =? 128)            (* U+1680 *)
   || (x =? 226) && (y =? 128)
      && ((128 <=? z) && (z <=? 138)                  (* U+2000 .. U+200A *)
          || (z =? 168) || (z =? 169) || (z =? 175))  (* U+2028 U+2029 U+202F *)
   || (x =? 226) && (y =? 129) && (z =? 159)          (* U+205F *)
   || (x =? 227) && (y =? 128) && (z =? 128)          (* U+3000 *)
   || (x =? 239) && (y =? 187) && (z =? 191))%N.      (* U+FEFF *)

Fixpoint trim_left (s : string) : string :=
  match s with
  | EmptyString => EmptyString
  | String a s1 =>
      if is_ascii_space a then trim_left s1
      else match s1 with
           | String b s2 =>
               if ((code a =? 194) && (code b =? 160))%N    (* U+00A0 *)
               then trim_left s2
               else match s2 with
                    | String c s3 =>
                        if is_space3 a b c then trim_left s3 else s
                    | EmptyString => s
                    end
           | EmptyString => s
           end
  end.

Fixpoint trim_right (s : string) : string :=
  match s with
  | EmptyString => EmptyString
  | String a s' =>
      if is_empty (trim_left s) then EmptyString
      else String a (trim_right s')
  end.

Definition trim (s : string) : string := trim_right (trim_left s).

(** ** Numeric literals: [Number(s)] and [parseFloat(s)] *)

Definition digit_of (radix : N) (c : ascii) : option Z :=
  let n := code c in
  let d :=
    if ((48 <=? n) && (n <=? 57))%N then Some (n - 48)%N
    else if ((97 <=? n) && (n <=? 102))%N then Some (n - 87)%N
    else if ((65 <=? n) && (n <=? 70))%N then Some (n - 55)%N
    else None in
  match d with
  | Some v => if (v <? radix)%N then Some (Z.of_N v) else None
  | None => None
  end.

(** The longest run of decimal digits at the head of [s]: the value they
    add to [acc], how many there are, and what follows. *)
Fixpoint scan_digits (s : string) (acc : Z) (cnt : nat) : Z * nat * string :=
  match s with
  | String c s' =>
      match digit_of 10 c with
      | Some d => scan_digits s' (10 * acc + d)%Z (S cnt)
      | None => (acc, cnt, s)
      end
  | EmptyString => (acc, cnt, s)
  end.

(** A whole string of digits in the given radix, at least one. *)
Fixpoint all_digits (radix : N) (s : string) (acc : Z) : option Z :=
  match s with
  | String c EmptyString =>
      (λ d, Z.of_N radix * acc + d)%Z <$> digit_of radix c
  | String c s' =>
      match digit_of radix c with
      | Some d => all_digits radix s' (Z.of_N radix * acc + d)%Z
      | None => None
      end
  | EmptyString => None
  end.

Definition scan_sign (s : string) : bool * string :=
  match s with
  | String "+" r => (false, r)
  | String "-" r => (true, r)
  | _ => (false, s)
  end.

(** An optional ExponentPart; when it is absent or incomplete nothing is
    consumed. *)
Definition scan_exponent (s : string) : Z * string :=
  match s with
  | String c s1 =>
      if (Ascii.eqb c "e" || Ascii.eqb c "E")%char
      then
        let '(neg, s2) := scan_sign s1 in
        let '(v, n, rest) := scan_digits s2 0 0 in
        match n with
        | 0 => (0%Z, s)
        | S _ => ((if neg then - v else v)%Z, rest)
        end
      else (0%Z, s)
  | EmptyString => (0%Z, s)
  end.

(** StrUnsignedDecimalLiteral without Infinity: mantissa, decimal exponent,
    rest. *)
Definition scan_unsigned (s : string) : option (Z * Z * string) :=
  let '(i, ni, s1) := scan_digits s 0 0 in
  let '(m, nf, s2) :=
    match s1 with
    | String "." r => scan_digits r i 0
    | _ => (i, 0, s1)
    end in
  match (ni + nf)%nat with
  | 0 => None
  | S _ =>
      let '(e, s3) := scan_exponent s2 in
      Some (m, (e - Z.of_nat nf)%Z, s3)
  end.

(** The longest prefix of [s] that is a StrDecimalLiteral. *)
Definition scan_StrDecimalLiteral (s : string) : option (number * string) :=
  let '(neg, s1) := scan_sign s in
  match strip_prefix "Infinity" s1 with
  | Some r => Some (S754_infinity neg, r)
  | None =>
      match scan_unsigned s1 with
      | Some (m, e, r) => Some (of_decimal neg m e, r)
      | None => None
      end
  end.

Definition scan_NonDecimalIntegerLiteral (s : string) : option Z :=
  match s with
  | String "0" (String c r) =>
      if (Ascii.eqb c "x" || Ascii.eqb c "X")%char then all_digits 16 r 0
      else if (Ascii.eqb c "o" || Ascii.eqb c "O")%char then all_digits 8 r 0
      else if (Ascii.eqb c "b" || Ascii.eqb c "B")%char then all_digits 2 r 0
      else None
  | _ => None
  end.

(** [Number(s)] for a string [s] (StringToNumber). *)
Definition StringToNumber (s : string) : number :=
  let t := trim s in
  if is_empty t then S754_zero false
  else
    match scan_NonDecimalIntegerLiteral t with
    | Some z => of_Z z
    | None =>
        match scan_StrDecimalLiteral t with
        | Some (n, EmptyString) => n
        | _ => NaN
        end
    end.

(** [parseFloat(s)] for a string [s]. *)
Definition parseFloat (s : string) : number :=
  match scan_StrDecimalLiteral (trim_left s) with
  | Some (n, _) => n
  | None => NaN
  end.

(** ** [decodeURIComponent] *)

(** Percent-decoding.  [pending] counts the continuation octets still owed
    to the current UTF-8 sequence and [lo..hi] is the range allowed for the
    next one; [None] is the URIError the built-in throws. *)
Fixpoint decode (pending : nat) (lo hi : N) (s : string) : option string :=
  match s with
  | EmptyString =>
      match pending with 0 => Some EmptyString | S _ => None end
  | String "%" (String h1 (String h2 rest)) =>
      match digit_of 16 h1, digit_of 16 h2 with
      | Some d1, Some d2 =>
          let b := Z.to_N (16 * d1 + d2) in
          match pending with
          | S k =>
              if ((lo <=? b) && (b <=? hi))%N
              then String (chr b) <$> decode k 128 191 rest
              else None
          | 0 =>
              if (b <? 128)%N then String (chr b) <$> decode 0 128 191 rest
              else if ((194 <=? b) && (b <=? 223))%N
                   then String (chr b) <$> decode 1 128 191 rest
              else if (b =? 224)%N
                   then String (chr b) <$> decode 2 160 191 rest
              else if (b =? 237)%N
                   then String (chr b) <$> decode 2 128 159 rest
              else if ((225 <=? b) && (b <=? 239))%N
                   then String (chr b) <$> decode 2 128 191 rest
              else if (b =? 240)%N
                   then String (chr b) <$> decode 3 144 191 rest
              else if ((241 <=? b) && (b <=? 243))%N
                   then String (chr b) <$> decode 3 128 191 rest
              else if (b =? 244)%N
                   then String (chr b) <$> decode 3 128 143 rest
              else None
          end
      | _, _ => None
      end
  | String a rest =>
      match pending with
      | S _ => None
      | 0 =>
          if Ascii.eqb a "%" then None
          else String a <$> decode 0 128 191 rest
      end
  end.

Definition decodeURIComponent (s : string) : option string :=
  decode 0 128 191 s.

(** ** Values

    What [JSON.parse] builds, plus [undefined].  An object is the list of
    its own properties; arrays and objects met in two different places of
    a response are two different objects. *)

Inductive value : Type :=
  | Undefined
  | Null
  | Bool (b : bool)
  | Num (n : number)
  | Str (s : string)
  | Arr (elems : list value)
  | Obj (props : list (string * value)).

(** [o[k]] on the property list of [o]. *)
Fixpoint assoc {A : Type} (k : string) (props : list (string * A)) : option A :=
  match props with
  | [] => None
  | (k', v) :: rest => if String.eqb k k' then Some v else assoc k rest
  end.

(** [o[k] = v] on the property list of [o]. *)
Fixpoint assign {A : Type} (k : string) (v : A) (props : list (string * A))
  : list (string * A) :=
  match props with
  | [] => [(k, v)]
  | (k', v') :: rest =>
      if String.eqb k k' then (k, v) :: rest else (k', v') :: assign k v rest
  end.

(** Length in UTF-16 code units of a string held in UTF-8: one per
    character, two for the characters that take four bytes. *)
Fixpoint utf16_length (s : string) : nat :=
  match s with
  | EmptyString => 0
  | String a s' =>
      let n := code a in
      (if ((128 <=? n) && (n <? 192))%N then 0
       else if (240 <=? n)%N then 2 else 1) + utf16_length s'
  end.

(** [v.k] and [v[k]] for a property name [k] that is not an array index;
    [None] is the TypeError raised on [undefined] and [null]. *)
Definition get (k : string) (v : value) : option value :=
  match v with
  | Undefined | Null => None
  | Obj props => Some (default Undefined (assoc k props))
  | Arr elems =>
      Some (if String.eqb k "length" then Num (of_nat (length elems))
            else Undefined)
  | Str s =>
      Some (if String.eqb k "length" then Num (of_nat (utf16_length s))
            else Undefined)
  | Bool _ | Num _ => Some Undefined
  end.

(** ToBoolean. *)
Definition truthy (v : value) : bool :=
  match v with
  | Undefined | Null => false
  | Bool b => b
  | Num (S754_zero _) | Num S754_nan => false
  | Num _ => true
  | Str s => negb (is_empty s)
  | Arr _ | Obj _ => true
  end.

(** ToNumber.  An array goes through its string form: the empty array
    gives the empty string, a one-element array the string of its element
    and a longer one a string with a comma in it. *)
Fixpoint ToNumber (v : value) : number :=
  match v with
  | Undefined => NaN
  | Null => S754_zero false
  | Bool b => if b then of_Z 1 else S754_zero false
  | Num n => n
  | Str s => StringToNumber s
  | Arr [] => S754_zero false
  | Arr [x] =>
      match x with
      | Undefined | Null => S754_zero false
      | Bool _ | Obj _ => NaN
      | _ => ToNumber x
      end
  | Arr (_ :: _ :: _) => NaN
  | Obj _ => NaN
  end.

(** ToPrimitive throws a TypeError: [v] is an object with a property
    [toString] of its own, which hides [Object.prototype.toString] and,
    parsed from JSON, cannot be called; or [v] is an array that holds
    such an object, at any depth, which [Array.prototype.join] comes
    upon.  A property [valueOf] of its own changes nothing: on the way to
    a primitive value [Object.prototype.toString] is still there. *)
Fixpoint raises (v : value) : bool :=
  match v with
  | Obj props =>
      match assoc "toString" props with
      | Some _ => true
      | None => false
      end
  | Arr elems => existsb raises elems
  | _ => false
  end.

(** What [v == n] gives for a number [n], when the comparison gives
    something: [raises v] tells when it throws instead.  [v == false] is
    [v == 0]. *)
Definition loose_eq_num (v : value) (n : number) : bool :=
  match v with
  | Undefined | Null => false
  | _ => num_eqb (ToNumber v) n
  end.

(** [v == n] for a number [n]; [None] is the TypeError. *)
Definition eq_num (v : value) (n : number) : option bool :=
  if raises v then None else Some (loose_eq_num v n).

(** Number::toString on the integers every digit of which is significant;
    the other finite numbers print with a fraction or an exponent, or with
    rounded digits. *)
Definition NumberToString (n : number) : option string :=
  match n with
  | S754_nan => Some "NaN"
  | S754_infinity s => Some (if s then "-Infinity" else "Infinity")
  | S754_zero _ => Some "0"
  | S754_finite s m e =>
      let abs :=
        if (0 <=? e)%Z then Some (Zpos m * 2 ^ e)%Z
        else if (Zpos m mod 2 ^ (- e) =? 0)%Z then Some (Zpos m / 2 ^ (- e))%Z
        else None in
      match abs with
      | Some z =>
          if (z <? 2 ^ 53)%Z
          then Some ((if s then "-" else "") +:+ pretty z)
          else None
      | None => None
      end
  end.

(** ToString, [None] where [NumberToString] has no answer. *)
Fixpoint ToString (v : value) : option string :=
  match v with
  | Undefined => Some "undefined"
  | Null => Some "null"
  | Bool b => Some (if b then "true" else "false")
  | Num n => NumberToString n
  | Str s => Some s
  | Arr elems =>
      let element x :=
        match x with
        | Undefined | Null => Some ""
        | _ => ToString x
        end in
      join "," <$> mapM element elems
  | Obj _ => Some "[object Object]"
  end.

(** What [v == t] gives for a string [t], when the comparison gives
    something: [raises v] tells when it throws instead.  Exact for every
    [t] that is not the rendering of a fractional number or of one beyond
    2^53; the source compares with [""], ["True"] and ["1"] only. *)
Definition loose_eq_str (v : value) (t : string) : bool :=
  match v with
  | Undefined | Null => false
  | Bool _ | Num _ => num_eqb (ToNumber v) (StringToNumber t)
  | Str s => String.eqb s t
  | Arr _ | Obj _ =>
      match ToString v with
      | Some s => String.eqb s t
      | None => false
      end
  end.

(** [v == t] for a string [t]; [None] is the TypeError. *)
Definition eq_str (v : value) (t : string) : option bool :=
  if raises v then None else Some (loose_eq_str v t).

(** [a === b], as [Array.prototype.indexOf] compares.  The two operands
    always come from two different places of the parsed responses, so two
    arrays or two objects are never the same object. *)
Definition strict_eq (a b : value) : bool :=
  match a, b with
  | Undefined, Undefined | Null, Null => true
  | Bool x, Bool y => Bool.eqb x y
  | Num x, Num y => num_eqb x y
  | Str x, Str y => String.eqb x y
  | _, _ => false
  end.

(** Two numbers that [==] holds of: zeros, or the same number. *)
Definition same_number (a b : number) : Prop :=
  match a, b with
  | S754_zero _, S754_zero _ => True
  | S754_infinity s1, S754_infinity s2 => s1 = s2
  | S754_finite s1 m1 e1, S754_finite s2 m2 e2 => s1 = s2 ∧ m1 = m2 ∧ e1 = e2
  | _, _ => False
  end.

(** [names.indexOf(v) == -1]. *)
Definition not_indexed (names : list value) (v : value) : bool :=
  forallb (λ n, negb (strict_eq n v)) names.

(** How many natural numbers lie below [n]. *)
Definition count_below (n : number) : option nat :=
  match n with
  | S754_finite false m e =>
      Some (Z.to_nat (if (0 <=? e)%Z then Zpos m * 2 ^ e
                      else (Zpos m + 2 ^ (- e) - 1) / 2 ^ (- e)))
  | S754_infinity false => None
  | _ => Some 0
  end.

(** The items visited by [for (i = 0; i < v.length; i++) { item = v[i] ... }]
    up to and including the first [undefined] one, on which each loop body
    of the source throws before it does anything else.  [None] is the
    TypeError raised by [v.length] itself, or by [i < v.length] when the
    length has no primitive value. *)
Definition loop_items (v : value) : option (list value) :=
  match v with
  | Undefined | Null => None
  | Arr elems => Some elems
  | Bool _ | Num _ => Some []
  | Str s => Some (if is_empty s then [] else [Str (take_chars 1 s)])
  | Obj props =>
      let len := default Undefined (assoc "length" props) in
      let limit :=
        match count_below (ToNumber len) with
        | Some k => Nat.min k (S (length props))
        | None => S (length props)
        end in
      let fix visit (fuel i : nat) : list value :=
        match fuel with
        | 0 => []
        | S fuel' =>
            match assoc (pretty i) props with
            | Some Undefined | None => [Undefined]
            | Some x => x :: visit fuel' (S i)
            end
        end in
      if raises len then None else Some (visit limit 0)
  end.

End JS.

(* ===================================================================== *)
(** * [webAccessConnector.parseQueryUrl] *)
(* ===================================================================== *)

Module Parser.
Import JS.

(** The object the function returns: [webAccessUrl] is set on some paths
    only, [queryData] is an object used as a map. *)
Record returnObject : Type := {
  webAccessUrl : option string;
  queryData : gmap string value
}.

(** The three ways a call ends: [decodeURIComponent] throws, the function
    returns [undefined], or it returns its object. *)
Inductive outcome : Type :=
  | URIError
  | NoResult
  | Result (r : returnObject).

(** [queryString.split("&")], the detection of the Web Access url and the
    removal of everything up to the question mark from [pairs[0]]. *)
Definition pairs_of (queryString : string) : option string * list string :=
  let pairs := split "&" queryString in
  let first := hd "" pairs in
  match indexOf "?" first with
  | Some qMarkPos =>
      let url :=
        if String.eqb (toLowerCase (take_chars 4 queryString)) "http"
        then (* full url *)
          let parts := split "/" first in
          Some (join "/" (take 4 parts))
        else if String.eqb (take_chars 1 queryString) "/"
        then (* relative url *)
          Some (substring_to (indexOf_from "/" 1 queryString) queryString)
        else None in
      (url, drop_chars (S qMarkPos) first :: tl pairs)
  | None => (None, pairs)
  end.

(** [isNaN(x) ? decodeURIComponent(x) : parseFloat(x)] for [x = pair[1]],
    which is [undefined] when the pair holds no equals sign. *)
Definition value_of (piece : option string) : option value :=
  match piece with
  | None => Some (Str "undefined")
  | Some p =>
      if is_NaN (StringToNumber p)
      then Str <$> decodeURIComponent p
      else Some (Num (parseFloat p))
  end.

(** One turn of the loop over [pairs]: the name and the value to store. *)
Definition parse_pair (raw : string) : option (string * value) :=
  let pair := split "=" raw in
  name ← decodeURIComponent (default "" (pair !! 0));
  value ← value_of (pair !! 1);
  Some (name, value).

(** [obj[name] = value] on a plain object: the name [__proto__] reaches the
    prototype setter, which ignores strings and numbers. *)
Definition store (name : string) (v : value) (obj : gmap string value)
  : gmap string value :=
  if String.eqb name "__proto__" then obj else <[name := v]> obj.

Fixpoint parse_pairs (pairs : list string) (obj : gmap string value)
  : option (gmap string value) :=
  match pairs with
  | [] => Some obj
  | raw :: rest =>
      match parse_pair raw with
      | Some (name, v) => parse_pairs rest (store name v obj)
      | None => None
      end
  end.

(** [obj.k], when it is truthy. *)
Definition present (k : string) (obj : gmap string value) : option value :=
  match obj !! k with
  | Some v => if truthy v then Some v else None
  | None => None
  end.

(** [if (obj.k) { queryData.k = obj.k }]. *)
Definition copy (k : string) (obj qd : gmap string value) : gmap string value :=
  match present k obj with
  | Some v => <[k := v]> qd
  | None => qd
  end.

(** The loop over [c0], [c1], ...; it stops at the first missing one, a
    turn at most for each key of [obj]. *)
Fixpoint copy_criteria (fuel i : nat) (obj qd : gmap string value)
  : gmap string value :=
  match fuel with
  | 0 => qd
  | S fuel' =>
      let cn := "c" +:+ pretty i in
      match present cn obj with
      | Some v => copy_criteria fuel' (S i) obj (<[cn := v]> qd)
      | None => qd
      end
  end.

(** Extraction of the relevant parameters. *)
Definition extract (obj : gmap string value) : option (gmap string value) :=
  match present "class_name" obj with
  | None => None
  | Some class_name =>
      let qd : gmap string value := {[ "class_name" := class_name ]} in
      let qd :=
        match present "query" obj, present "attributes" obj with
        | Some q, None => <["query" := q]> qd
        | _, _ => qd
        end in
      let qd := copy "attributes" obj qd in
      let qd := copy "page_size" obj qd in
      let qd := copy "sort_by" obj qd in
      let qd :=
        match present "cns" obj with
        | Some cns =>
            copy_criteria (S (size obj)) 0 obj (<["cns" := cns]> qd)
        | None => qd
        end in
      Some qd
  end.

Definition parseQueryUrl (queryString : string) : outcome :=
  let '(url, pairs) := pairs_of queryString in
  match parse_pairs pairs ∅ with
  | None => URIError
  | Some obj =>
      match extract obj with
      | None => NoResult
      | Some qd => Result {| webAccessUrl := url; queryData := qd |}
      end
  end.

(** ** Two readings of how a pair is cut

    The text of a pair before its first equals sign, and the text between
    its first and its second one (to the end when there is no second). *)
Definition before_eq (raw : string) : string :=
  match indexOf "=" raw with
  | Some k => take_chars k raw
  | None => raw
  end.

Definition after_first_eq (raw : string) : option string :=
  match indexOf "=" raw with
  | Some k => Some (drop_chars (S k) raw)
  | None => None
  end.

Definition between_eqs (raw : string) : option string :=
  before_eq <$> after_first_eq raw.

(** The pair as the specification words it: cut at the first equals sign
    only, name and value percent-decoded, the value turned into a number
    exactly when it reads as a finite one. *)
Definition spec_parse_pair (raw : string) : option (string * value) :=
  name ← decodeURIComponent (before_eq raw);
  match after_first_eq raw with
  | None => Some (name, Str "undefined")
  | Some text =>
      decoded ← decodeURIComponent text;
      match StringToNumber decoded with
      | S754_nan | S754_infinity _ => Some (name, Str decoded)
      | n => Some (name, Num n)
      end
  end.

(** The pair as the source cuts it: everything after a second equals sign
    is dropped, and the test for a number is made on the text as it
    stands in the url. *)
Definition cut_parse_pair (raw : string) : option (string * value) :=
  name ← decodeURIComponent (before_eq raw);
  value ← value_of (between_eqs raw);
  Some (name, value).

(** ** What is read from a query string, piece by piece

    The words of C8 as the source has it, to compare [parseQueryUrl]
    with. *)

(** What follows the first question mark of [s]. *)
Fixpoint after_question (s : string) : option string :=
  match s with
  | EmptyString => None
  | String a s' => if Ascii.eqb a "?" then Some s' else after_question s'
  end.

(** The text cut at the ampersands, the first piece without everything
    up to its first question mark. *)
Definition pieces (queryString : string) : list string :=
  match split "&" queryString with
  | first :: rest => default first (after_question first) :: rest
  | [] => []
  end.

(** The piece says that [name] is [v]: the name is the decoded text before
    the first equals sign; the value comes from the text between the
    first and the second one, the number [parseFloat] reads from it when
    [Number] of the text as it stands is not NaN, and the decoded text
    otherwise; a piece without equals sign says ["undefined"]. *)
Definition says (piece name : string) (v : value) : Prop :=
  decodeURIComponent (before_eq piece) = Some name
  ∧ match between_eqs piece with
    | None => v = Str "undefined"
    | Some text =>
        if is_NaN (StringToNumber text)
        then ∃ decoded, decodeURIComponent text = Some decoded
                        ∧ v = Str decoded
        else v = Num (parseFloat text)
    end.

(** A piece with an escape [decodeURIComponent] refuses, in its name or
    in a value that is not read as a number. *)
Definition malformed (piece : string) : Prop :=
  decodeURIComponent (before_eq piece) = None
  ∨ ∃ text, between_eqs piece = Some text
            ∧ is_NaN (StringToNumber text) = true
            ∧ decodeURIComponent text = None.

(** What the last of the pairs named [name] says. *)
Fixpoint last_named (name : string) (stored : list (string * value))
  : option value :=
  match stored with
  | [] => None
  | (n, v) :: rest =>
      match last_named name rest with
      | Some w => Some w
      | None => if String.eqb n name then Some v else None
      end
  end.

End Parser.

(* ===================================================================== *)
(** * [query._queryResponseProcessor] *)
(* ===================================================================== *)

Module Query.
Import JS.

(** [x.k = v].  The source assigns to objects only: a property put on a
    string, a number or a boolean is dropped, and no array is ever
    written to. *)
Definition put (k : string) (v : value) (x : value) : value :=
  match x with
  | Obj props => Obj (assign k v props)
  | _ => x
  end.

(** The response processor of [runQuery]; it changes [responseData] in
    place, so the embedding returns the object as it is afterwards.
    [None] is a TypeError, before anything is written. *)
Definition _queryResponseProcessor (responseData response : value)
  : option value :=
  pageCount ← get "pageCount" responseData;
  single ← eq_num pageCount (of_Z 1);
  (* fix the objectCount that is always 0 when pageCount is 1. *)
  if single : bool
  then
    objects ← get "objects" responseData;
    len ← get "length" objects;
    Some (put "objectCount" len responseData)
  else Some responseData.

End Query.

(* ===================================================================== *)
(** * [webAccessConnector.webAccessRequest] *)
(* ===================================================================== *)

Module Request.
Import JS.
Export Query.

Inductive requestType : Type := GET | POST.

Record connectionInfo : Type := {
  webAccessUrl : string;
  loginOnDemand : bool;
  loginUser : string;
  loginPass : string;
  loginOnDemandAutoLogOff : bool
}.

(** The parameters of a request.  [onLoad] and [onError] tell whether the
    caller supplied the handler; what the handler receives is recorded in
    the trace. *)
Record parameters : Type := {
  connection : connectionInfo;
  commandPath : string;
  verb : requestType;
  requestData : value;
  onLoad : bool;
  onError : bool;
  responseProcessor : option (value → value → option value);
  requireJSON : bool
}.

(** The private variables of one request. *)
Record state : Type := {
  m_loginAttempted : bool;
  m_autoLogOff : bool;
  m_loggedOn : bool;
  m_loggedOff : bool;
  m_result : value;
  m_resultIsSuccess : bool
}.

Definition initial : state :=
  {| m_loginAttempted := false; m_autoLogOff := false; m_loggedOn := false;
     m_loggedOff := false; m_result := Null; m_resultIsSuccess := false |}.

Definition set_logOn (st : state) : state :=
  {| m_loginAttempted := true; m_autoLogOff := m_autoLogOff st;
     m_loggedOn := true; m_loggedOff := m_loggedOff st;
     m_result := m_result st; m_resultIsSuccess := m_resultIsSuccess st |}.

Definition set_loggedOff (st : state) : state :=
  {| m_loginAttempted := m_loginAttempted st; m_autoLogOff := m_autoLogOff st;
     m_loggedOn := m_loggedOn st; m_loggedOff := true;
     m_result := m_result st; m_resultIsSuccess := m_resultIsSuccess st |}.

Definition set_autoLogOff (st : state) : state :=
  {| m_loginAttempted := m_loginAttempted st; m_autoLogOff := true;
     m_loggedOn := m_loggedOn st; m_loggedOff := m_loggedOff st;
     m_result := m_result st; m_resultIsSuccess := m_resultIsSuccess st |}.

Definition set_result (r : value) (st : state) : state :=
  {| m_loginAttempted := m_loginAttempted st; m_autoLogOff := m_autoLogOff st;
     m_loggedOn := m_loggedOn st; m_loggedOff := m_loggedOff st;
     m_result := r; m_resultIsSuccess := m_resultIsSuccess st |}.

Definition set_success (r : value) (st : state) : state :=
  {| m_loginAttempted := m_loginAttempted st; m_autoLogOff := m_autoLogOff st;
     m_loggedOn := m_loggedOn st; m_loggedOff := m_loggedOff st;
     m_result := r; m_resultIsSuccess := true |}.

(** The function that hands an exchange to [webAccessConnector.ajax.call]. *)
Inductive caller : Type := ByGo | ByLogOn | ByLogOff.

(** What a request does that can be seen from outside: an exchange handed
    to the transport, one of the caller's handlers invoked with the
    result, or an exception that escapes a callback. *)
Inductive event : Type :=
  | Ajax (by_ : caller) (url : string) (type : requestType) (data : value)
         (json : bool)
  | OnLoad (result : value)
  | OnError (result : value)
  | TypeError.

(** The callbacks a pending exchange was given. *)
Inductive onLoadCallback : Type :=
  | cb_m_onLoad | cb_m_loginOnDemandOnLoad | cb_m_logOffDone.
Inductive onErrorCallback : Type :=
  | cb_m_onError | cb_m_logOffDone_onError.

Record exchange : Type := {
  load_callback : onLoadCallback;
  error_callback : onErrorCallback
}.

(** What the transport answers: [onLoad(responseData, response)] or
    [onError(statusCode, errorText)]. *)
Inductive reply : Type :=
  | Loaded (responseData response : value)
  | Failed (statusCode errorText : value).

(** A function of the request returns the new private state, the events
    it caused and the exchange it left pending, if any. *)
Definition step : Type := state * list event * option exchange.

Section webAccessRequest.
Variable p : parameters.

Definition go (st : state) : step :=
  let url := webAccessUrl (connection p) +:+ commandPath p in
  (st,
   [Ajax ByGo url (verb p) (requestData p) (requireJSON p)],
   Some {| load_callback := cb_m_onLoad; error_callback := cb_m_onError |}).

Definition logOn (onDemand : bool) (st : state) : step :=
  let st := set_logOn st in
  let formData :=
    Obj [("Ecom_User_ID", Str (loginUser (connection p)));
         ("Ecom_User_Password", Str (loginPass (connection p)))] in
  let onLoad := if onDemand then cb_m_loginOnDemandOnLoad else cb_m_onLoad in
  let loginUrl := webAccessUrl (connection p) +:+ "/wd/Logon/Logon.rails" in
  (st,
   [Ajax ByLogOn loginUrl POST formData true],
   Some {| load_callback := onLoad; error_callback := cb_m_onError |}).

Definition logOff (onDemand : bool) (st : state) : step :=
  let st := set_loggedOff st in
  let logOffUrl := webAccessUrl (connection p) +:+ "/wd/Logon/Logoff.rails" in
  let onLoad := if onDemand then cb_m_logOffDone else cb_m_onLoad in
  let onError := if onDemand then cb_m_logOffDone_onError else cb_m_onError in
  (st,
   [Ajax ByLogOff logOffUrl POST Null false],
   Some {| load_callback := onLoad; error_callback := onError |}).

Definition m_returnLoad (st : state) : step :=
  match m_result st with
  | Undefined | Null => (st, [TypeError], None)
  | r =>
      let r := put "loggedOn" (Bool (m_loggedOn st)) r in
      let r := put "loggedOff" (Bool (m_loggedOff st)) r in
      (set_result r st, if onLoad p then [OnLoad r] else [], None)
  end.

Definition m_returnError (st : state) : step :=
  (st, if onError p then [OnError (m_result st)] else [], None).

Definition m_onLoad (responseData response : value) (st : state) : step :=
  let processed :=
    match responseProcessor p with
    | Some f => f responseData response
    | None => Some responseData
    end in
  match processed with
  | None => (st, [TypeError], None)
  | Some responseData =>
      match get "status" response with
      | None => (st, [TypeError], None)
      | Some status =>
          let st :=
            set_success
              (Obj [("data", responseData); ("response", response);
                    ("statusCode", status)]) st in
          if m_autoLogOff st then logOff true st else m_returnLoad st
      end
  end.

(** [statusCode] is the status of a response, or 403: a number. *)
Definition m_onError (statusCode errorText : value) (st : state) : step :=
  let report errorText :=
    let st :=
      set_result (Obj [("statusCode", statusCode); ("errorText", errorText)])
                 st in
    if m_autoLogOff st then logOff true st else m_returnError st in
  if loose_eq_num statusCode (of_Z 403) && negb (m_loginAttempted st)
  then
    if loginOnDemand (connection p) then logOn true st
    else report (Str "Not Logged In")
  else report errorText.

Definition m_loginOnDemandOnLoad (responseData response : value) (st : state)
  : step :=
  match get "result" responseData with
  | None => (st, [TypeError], None)
  | Some result =>
      match eq_num result (S754_zero false) with
      | None => (st, [TypeError], None)
      | Some true =>
          match get "message" responseData with
          | None => (st, [TypeError], None)
          | Some message => m_onError (Num (of_Z 403)) message st
          end
      | Some false =>
          (* logged in, repeat the call *)
          let st :=
            if loginOnDemandAutoLogOff (connection p)
            then set_autoLogOff st else st in
          go st
      end
  end.

Definition m_logOffDone (st : state) : step :=
  if m_resultIsSuccess st then m_returnLoad st else m_returnError st.

(** The transport answers the pending exchange [x]. *)
Definition answer (x : exchange) (r : reply) (st : state) : step :=
  match r with
  | Loaded responseData response =>
      match load_callback x with
      | cb_m_onLoad => m_onLoad responseData response st
      | cb_m_loginOnDemandOnLoad => m_loginOnDemandOnLoad responseData response st
      | cb_m_logOffDone => m_logOffDone st
      end
  | Failed statusCode errorText =>
      match error_callback x with
      | cb_m_onError => m_onError statusCode errorText st
      | cb_m_logOffDone_onError => m_logOffDone st
      end
  end.

(** The life of a request from a step on: each pending exchange takes the
    next answer of the transport; when the answers run out the exchange
    in flight never completes. *)
Fixpoint run (replies : list reply) (s : step) : state * list event :=
  let '(st, events, pending) := s in
  match pending, replies with
  | Some x, r :: replies' =>
      let '(st', events') := run replies' (answer x r st) in
      (st', events ++ events')
  | _, _ => (st, events)
  end.

(** [request.go()], [request.logOn()] and [request.logOff()] on a new
    request, with the answers the transport will give. *)
Definition request_go (replies : list reply) : list event :=
  (run replies (go initial)).2.

Definition request_logOn (replies : list reply) : list event :=
  (run replies (logOn false initial)).2.

Definition request_logOff (replies : list reply) : list event :=
  (run replies (logOff false initial)).2.

(** The events of the rest of a request's life, from a step on. *)
Definition rest_of (replies : list reply) (s : step) : list event :=
  (run replies (s.1.1, [], s.2)).2.

End webAccessRequest.

(** The callbacks [go] hands over. *)
Definition go_exchange : exchange :=
  {| load_callback := cb_m_onLoad; error_callback := cb_m_onError |}.

(** The log off exchange of a request. *)
Definition logOff_exchange (p : parameters) : event :=
  Ajax ByLogOff (webAccessUrl (connection p) +:+ "/wd/Logon/Logoff.rails")
       POST Null false.

(** What [m_result] holds: nothing yet, or an object. *)
Definition is_object (v : value) : Prop := ∃ props, v = Obj props.

Definition settled (v : value) : Prop := v = Null ∨ is_object v.

(** ** Sample runs *)

Definition sample_connection (onDemand autoLogOff : bool) : connectionInfo :=
  {| webAccessUrl := "http://server/ServiceDesk.WebAccess";
     loginOnDemand := onDemand;
     loginUser := "sa";
     loginPass := "secret";
     loginOnDemandAutoLogOff := autoLogOff |}.

(** [record.openRecord] with both handlers. *)
Definition sample_parameters (onDemand autoLogOff : bool) : parameters :=
  {| connection := sample_connection onDemand autoLogOff;
     commandPath := "/object/open.rails";
     verb := GET;
     requestData := Obj [("class_name", Str "Incident"); ("key", Str "42")];
     onLoad := true;
     onError := true;
     responseProcessor := None;
     requireJSON := true |}.

Definition sample_response : value := Obj [("status", Num (of_Z 200))].

Definition forbidden : reply :=
  Failed (Num (of_Z 403)) (Str "Forbidden (403)").
Definition server_error : reply :=
  Failed (Num (of_Z 500)) (Str "Internal Server Error (500)").
Definition login_accepted : reply :=
  Loaded (Obj [("result", Bool true)]) sample_response.
Definition record_opened : reply :=
  Loaded (Obj [("name", Str "Printer on fire")]) sample_response.
Definition logged_off : reply := Loaded (Str "") sample_response.

(** ** Counting the exchanges of a trace *)

Definition is_login (e : event) : bool :=
  match e with Ajax ByLogOn _ _ _ _ => true | _ => false end.

Definition is_call (e : event) : bool :=
  match e with Ajax ByGo _ _ _ _ => true | _ => false end.

Fixpoint count (f : event → bool) (events : list event) : nat :=
  match events with
  | [] => 0
  | e :: events' => (if f e then 1 else 0) + count f events'
  end.

(** Login exchanges, and exchanges of the call itself: the first of
    these is the original call, every other one a replay. *)
Definition logins (events : list event) : nat := count is_login events.
Definition calls (events : list event) : nat := count is_call events.

End Request.

(* ===================================================================== *)
(** * [metadata.getAttributesForObject] *)
(* ===================================================================== *)

Module Metadata.
Import JS.
Export Request.

(** The parameters of [getAttributesForObject]. *)
Record parameters : Type := {
  objectGuid : value;
  onLoad : bool;
  onError : bool
}.

(** What the traversal does that can be seen from outside: a call of
    [self.query.runQuery], a handler of the caller invoked with a result,
    or an exception that escapes a callback. *)
Inductive event : Type :=
  | RunQuery (queryData : value)
  | Load (result : value)
  | Error (result : value)
  | Threw.

(** What a request hands back first, if anything. *)
Inductive delivery : Type :=
  | ToOnLoad (result : value)
  | ToOnError (result : value)
  | Exception
  | Pending.

Fixpoint delivered (events : list Request.event) : delivery :=
  match events with
  | [] => Pending
  | Request.OnLoad r :: _ => ToOnLoad r
  | Request.OnError r :: _ => ToOnError r
  | Request.TypeError :: _ => Exception
  | Request.Ajax _ _ _ _ _ :: rest => delivered rest
  end.

(** The descriptor built from a row whose [attributes] object is at hand;
    [None] is a TypeError. *)
Definition attribute_of (item attributes : value) : option value :=
  guid ← get "value" item;
  name ← get "Name" attributes;
  title ← get "name" item;
  type ← get "DataType" attributes;
  relatedClass ← get "RelatedClassType.Guid" attributes;
  isName ← get "IsName" attributes;
  isName ← eq_str isName "True";
  pKeyNumber ← get "PKeyNumber" attributes;
  isPrimaryKey ← eq_str pKeyNumber "1";
  Some (Obj [("guid", guid); ("name", name); ("title", title);
             ("type", type); ("relatedClass", relatedClass);
             ("isName", Bool isName);
             ("isPrimaryKey", Bool isPrimaryKey)]).

(** The loop over the rows of one response: the two arrays and
    [parentObjectGuid] as they are after it; [None] is a TypeError. *)
Fixpoint rows (items : list value)
    (attributesArray attributeNames : list value) (parentObjectGuid : value)
  : option (list value * list value * value) :=
  match items with
  | [] => Some (attributesArray, attributeNames, parentObjectGuid)
  | item :: items' =>
      attributes ← get "attributes" item;
      name ← get "Name" attributes;
      '(attributesArray, attributeNames) ←
        (if not_indexed attributeNames name
         then
           attribute ← attribute_of item attributes;
           Some (attributesArray ++ [attribute], attributeNames ++ [name])
         else Some (attributesArray, attributeNames));
      parent ← get "Class.SuperClassType.Guid" attributes;
      rows items' attributesArray attributeNames parent
  end.

(** The key the comparison function orders by: [a.title.toLowerCase()],
    which throws unless the title is a string.  Keys are lowered and
    compared as [toLowerCase] and [str_ltb] do: as the source does for
    titles written in ASCII. *)
Definition title_key (a : value) : option string :=
  match get "title" a with
  | Some (Str s) => Some (toLowerCase s)
  | _ => None
  end.

(** [a] may stay before [b]: the comparison function does not return 1. *)
Definition title_le (a b : value) : Prop :=
  match title_key a, title_key b with
  | Some x, Some y => str_ltb y x = false
  | _, _ => True
  end.

#[global] Instance title_le_dec a b : Decision (title_le a b).
Proof.
  unfold title_le.
  destruct (title_key a), (title_key b); try (left; exact I).
  apply bool_eq_dec.
Defined.

(** [a] put into a sorted array, in front of the first element it may
    stay before. *)
Fixpoint insert_by_title (a : value) (sorted : list value) : list value :=
  match sorted with
  | [] => [a]
  | b :: rest =>
      if decide (title_le a b) then a :: sorted
      else b :: insert_by_title a rest
  end.

(** [array.sort(byTitle)]: the comparison function runs on every element
    as soon as there are two of them.  The sort is stable: of two
    elements the comparison function returns 0 for, the one that came
    first stays first. *)
Definition sort_by_title (array : list value) : option (list value) :=
  match array with
  | [] | [_] => Some array
  | _ =>
      if forallb (λ a, bool_decide (is_Some (title_key a))) array
      then Some (foldr insert_by_title [] array)
      else None
  end.

Section getAttributesForObject.
Variable connection : connectionInfo.
Variable parameters : parameters.

(** [self.query.runQuery], with the answers the transport gives to the
    request it creates.  [getAttributesOnLoad] is always supplied. *)
Definition runQuery (queryData : value) (replies : list reply) : delivery :=
  delivered
    (request_go
       {| Request.connection := connection;
          commandPath := "/query/list.rails";
          verb := GET;
          requestData := queryData;
          Request.onLoad := true;
          Request.onError := onError parameters;
          responseProcessor := Some _queryResponseProcessor;
          requireJSON := true |}
       replies).

Definition queryData_for (objectGuid : value) : value :=
  Obj [("class_name", Str "Metadata.AttributeType");
       ("attributes",
        Str "DataType,Name,RelatedClassType.Guid,IsName,PKeyNumber,Class.SuperClassType.Guid");
       ("cns", Str "Class.Guid-e-0");
       ("c0", objectGuid);
       ("page_size", Num (of_Z 999))].

(** [getAttributesOnLoad], given what [getAttributes] does next. *)
Definition getAttributesOnLoad
    (getAttributes : list value → list value → value → list event)
    (attributesArray attributeNames : list value) (result : value)
  : list event :=
  let looped :=
    data ← get "data" result;
    objects ← get "objects" data;
    items ← loop_items objects;
    rows items attributesArray attributeNames (Str "") in
  match looped with
  | None => [Threw]
  | Some (attributesArray, attributeNames, parentObjectGuid) =>
      match eq_str parentObjectGuid "" with
      | None => [Threw]
      | Some false =>
          getAttributes attributesArray attributeNames parentObjectGuid
      | Some true =>
          match sort_by_title attributesArray with
          | None => [Threw]
          | Some sorted =>
              let result :=
                put "data" (Obj [("attributes", Arr sorted)]) result in
              if onLoad parameters then [Load result] else [Threw]
          end
      end
  end.

(** [getAttributes]: each call of [runQuery] takes the next list of
    transport answers of [script]; when the script is used up the query
    in flight never completes. *)
Fixpoint getAttributes (script : list (list reply))
    (attributesArray attributeNames : list value) (objectGuid : value)
  : list event :=
  RunQuery (queryData_for objectGuid) ::
  match script with
  | [] => []
  | replies :: script' =>
      match runQuery (queryData_for objectGuid) replies with
      | ToOnLoad result =>
          getAttributesOnLoad (getAttributes script')
                              attributesArray attributeNames result
      | ToOnError result => [Error result]
      | Exception => [Threw]
      | Pending => []
      end
  end.

Definition getAttributesForObject (script : list (list reply)) : list event :=
  getAttributes script [] [] (objectGuid parameters).

(** ** The inheritance chain behind a traversal *)

(** The rows of a delivered result. *)
Definition items_in (result : value) : option (list value) :=
  data ← get "data" result;
  objects ← get "objects" data;
  loop_items objects.

(** The parent class guid a list of rows reports: the one on its last
    row, the empty string when there is no row. *)
Definition parent_after (items : list value) : option value :=
  match last items with
  | None => Some (Str "")
  | Some item =>
      attributes ← get "attributes" item;
      get "Class.SuperClassType.Guid" attributes
  end.

(** What the class [objectGuid] reports when it is queried. *)
Definition report (objectGuid : value) (replies : list reply)
  : option (list value * value) :=
  match runQuery (queryData_for objectGuid) replies with
  | ToOnLoad result =>
      items ← items_in result;
      parent ← parent_after items;
      Some (items, parent)
  | _ => None
  end.

(** The rows met from [objectGuid] upwards, most derived class first. *)
Fixpoint visited (script : list (list reply)) (objectGuid : value)
  : list value :=
  match script with
  | [] => []
  | replies :: script' =>
      match report objectGuid replies with
      | Some (items, parent) =>
          items ++
          match eq_str parent "" with
          | Some false => visited script' parent
          | _ => []
          end
      | None => []
      end
  end.

(** A row as the service sends it: an object whose [attributes] is an
    object with an [IsName] and a [PKeyNumber] that can be compared, and
    whose [name], the title, is a string. *)
Definition row_ok (item : value) : bool :=
  match get "attributes" item, get "name" item with
  | Some (Obj props), Some (Str _) =>
      negb (raises (default Undefined (assoc "IsName" props)))
      && negb (raises (default Undefined (assoc "PKeyNumber" props)))
  | _, _ => false
  end.

(** [script] answers the queries of an inheritance chain that starts at
    [objectGuid]: one answer per class, with rows as the service sends
    them and a parent class guid that can be compared with the empty
    string; each class but the last reports a parent class guid, the
    last one, the root, reports none. *)
Fixpoint is_chain (script : list (list reply)) (objectGuid : value) : bool :=
  match script with
  | [] => false
  | replies :: script' =>
      match report objectGuid replies with
      | Some (items, parent) =>
          forallb row_ok items &&
          match script', eq_str parent "" with
          | [], Some root => root
          | _ :: _, Some root => negb root && is_chain script' parent
          | _, None => false
          end
      | None => false
      end
  end.

End getAttributesForObject.

(** ** Names *)

(** The name of a descriptor and the name of a row. *)
Definition name_of (attribute : value) : value :=
  default Undefined (get "name" attribute).

Definition row_name (item : value) : option value :=
  attributes ← get "attributes" item;
  get "Name" attributes.

Definition is_query (e : event) : bool :=
  match e with RunQuery _ => true | _ => false end.

(** ** What the loop has accumulated *)

(** The descriptor [a] was built from the first row of [seen] that bears
    its name. *)
Definition from_first (seen : list value) (a : value) : Prop :=
  ∃ before item after attributes,
    seen = before ++ item :: after
    ∧ get "attributes" item = Some attributes
    ∧ attribute_of item attributes = Some a
    ∧ row_name item = Some (name_of a)
    ∧ ∀ earlier n, earlier ∈ before → row_name earlier = Some n →
                   strict_eq n (name_of a) = false.

Definition distinct (array : list value) : Prop :=
  ∀ i j a b, i ≠ j → array !! i = Some a → array !! j = Some b →
             strict_eq (name_of a) (name_of b) = false.

(** What holds of the two arrays once the rows [seen] have been visited. *)
Record accumulated (seen array names : list value) : Prop := {
  acc_names : names = name_of <$> array;
  acc_first : ∀ a, a ∈ array → from_first seen a;
  acc_distinct : distinct array;
  acc_indexed : ∀ item n v, item ∈ seen → row_name item = Some n →
                            strict_eq n v = true → not_indexed names v = false;
  acc_retained : ∀ before item after n,
    seen = before ++ item :: after →
    row_name item = Some n →
    (∀ earlier m, earlier ∈ before → row_name earlier = Some m →
                  strict_eq m n = false) →
    ∃ a attributes,
      a ∈ array ∧ get "attributes" item = Some attributes
      ∧ attribute_of item attributes = Some a
}.

(** The parent class guid left by the loop. *)
Definition parent_from (parent : value) (items : list value) : option value :=
  match last items with
  | None => Some parent
  | Some item =>
      attributes ← get "attributes" item;
      get "Class.SuperClassType.Guid" attributes
  end.

(** A descriptor the comparison function can read. *)
Definition titled (a : value) : Prop := is_Some (title_key a).


(** ** A sample hierarchy: a class and its base class *)

Definition sample_row (guid title name parent : string) : value :=
  Obj [("value", Str guid); ("name", Str title);
       ("attributes",
        Obj [("Name", Str name); ("DataType", Str "String");
             ("RelatedClassType.Guid", Str ""); ("IsName", Str "False");
             ("PKeyNumber", Str "0");
             ("Class.SuperClassType.Guid", Str parent)])].

Definition sample_answer (items : list value) : list reply :=
  [Loaded (Obj [("pageCount", Num (of_Z 1)); ("objectCount", Num (of_Z 0));
                ("objects", Arr items)])
          sample_response].

Definition sample_script : list (list reply) :=
  [sample_answer [sample_row "a1" "Title" "Title" "g0";
                  sample_row "a2" "Severity" "Severity" "g0"];
   sample_answer [sample_row "b1" "Title of the process" "Title" "";
                  sample_row "b2" "Creation Date" "CreationDate" ""]].

Definition sample_request : parameters :=
  {| objectGuid := Str "g1"; onLoad := true; onError := true |}.

Definition sample_loaded : value :=
  Eval vm_compute in
    match last (getAttributesForObject (sample_connection false false)
                                       sample_request sample_script) with
    | Some (Load result) => result
    | _ => Undefined
    end.

End Metadata.

(* ===================================================================== *)
(** * [record._prepareSaveData] and the operations that save *)
(* ===================================================================== *)

Module Record_.
Import JS.

(** The caller's [attributeValues] is an object it goes on holding, so
    objects live in a store and variables hold references to them. *)
Definition loc : Type := positive.

Inductive ref_value : Type :=
  | RUndefined
  | RNull
  | RBool (b : bool)
  | RNum (n : number)
  | RStr (s : string)
  | RFunction
  | Ref (l : loc).

(** An object is its own properties; an array also has its elements. *)
Inductive object : Type :=
  | Object (props : list (string * ref_value))
  | Array (elems : list ref_value) (props : list (string * ref_value)).

Definition ref_truthy (v : ref_value) : bool :=
  match v with
  | RUndefined | RNull => false
  | RBool b => b
  | RNum (S754_zero _) | RNum S754_nan => false
  | RNum _ => true
  | RStr s => negb (is_empty s)
  | RFunction | Ref _ => true
  end.

(** [JSON.stringify(v)], for objects none of which has a method [toJSON]
    ([has_toJSON] below), which the built-in would call.  The outer
    [None] is the TypeError raised on a
    cyclic structure, the inner one the [undefined] returned for a value
    that has no JSON form; the text is given by the tree it denotes.
    A property without JSON form is left out, an array element without
    one is written [null].  [stack] holds the objects being written; a
    chain of distinct objects is never longer than the store, which
    bounds [fuel]. *)
Fixpoint stringify (fuel : nat) (stack : list loc) (h : gmap loc object)
    (v : ref_value) : option (option value) :=
  match v with
  | RUndefined | RFunction => Some None
  | RNull => Some (Some Null)
  | RBool b => Some (Some (Bool b))
  | RNum (S754_finite s m e) => Some (Some (Num (S754_finite s m e)))
  | RNum (S754_zero _) => Some (Some (Num (S754_zero false)))
  | RNum _ => Some (Some Null)
  | RStr s => Some (Some (Str s))
  | Ref l =>
      match fuel with
      | 0 => None
      | S fuel' =>
          if bool_decide (l ∈ stack) then None
          else
            let member v := stringify fuel' (l :: stack) h v in
            match h !! l with
            | None => None
            | Some (Object props) =>
                texts ← mapM (λ kv, pair kv.1 <$> member kv.2) props;
                Some (Some (Obj (omap (λ kt, pair kt.1 <$> kt.2) texts)))
            | Some (Array elems _) =>
                texts ← mapM member elems;
                Some (Some (Arr (default Null <$> texts)))
            end
      end
  end.

(** The object has a method [toJSON]. *)
Definition has_toJSON (o : object) : bool :=
  match assoc "toJSON"
              (match o with Object props | Array _ props => props end) with
  | Some RFunction => true
  | _ => false
  end.

(** A location not in use. *)
Definition alloc (o : object) (h : gmap loc object) : loc * gmap loc object :=
  let l := fresh (dom h) in (l, <[l := o]> h).

(** [f] on each element in turn, the store handed on from one to the
    next. *)
Definition thread {A B : Type}
    (f : A → gmap loc object → B * gmap loc object)
  : list A → gmap loc object → list B * gmap loc object :=
  fix go (l : list A) (h : gmap loc object) :=
    match l with
    | [] => ([], h)
    | a :: l' =>
        let '(b, h) := f a h in
        let '(bs, h) := go l' h in
        (b :: bs, h)
    end.

(** [JSON.parse(text)]: every array and object of the text is a new
    object of the store. *)
Fixpoint parse (j : value) (h : gmap loc object) : ref_value * gmap loc object :=
  match j with
  | Undefined => (RUndefined, h)
  | Null => (RNull, h)
  | Bool b => (RBool b, h)
  | Num n => (RNum n, h)
  | Str s => (RStr s, h)
  | Arr elems =>
      let '(vs, h) := thread parse elems h in
      let '(l, h) := alloc (Array vs []) h in
      (Ref l, h)
  | Obj props =>
      let property (kj : string * value) h :=
        let '(v, h) := parse kj.2 h in ((kj.1, v), h) in
      let '(kvs, h) := thread property props h in
      let '(l, h) := alloc (Object kvs) h in
      (Ref l, h)
  end.

(** [x.k = v] for a name [k] that is not an array index: a property of
    the object [x] refers to; dropped when [x] is a string, a number or a
    boolean.  On [null] and [undefined] the assignment throws, which
    [_prepareSaveData] sees to. *)
Definition write (x : ref_value) (k : string) (v : ref_value)
    (h : gmap loc object) : gmap loc object :=
  match x with
  | Ref l =>
      match h !! l with
      | Some (Object props) => <[l := Object (assign k v props)]> h
      | Some (Array elems props) => <[l := Array elems (assign k v props)]> h
      | None => h
      end
  | _ => h
  end.

(** [record._prepareSaveData]: the value returned, [None] when
    [JSON.stringify] or [JSON.parse] throws, or when the copy is [null],
    which no property can be set on; and the store afterwards. *)
Definition _prepareSaveData (className isNew attributeValues : ref_value)
    (h : gmap loc object) : option ref_value * gmap loc object :=
  let '(l, h) := alloc (Object []) h in
  let copied :=
    if ref_truthy attributeValues
    then
      match stringify (S (size h)) [] h attributeValues with
      | Some (Some text) => Some (parse text h)
      | _ => None
      end
    else Some (Ref l, h) in
  match copied with
  | None => (None, h)
  | Some (RNull, h) | Some (RUndefined, h) => (None, h)
  | Some (createData, h) =>
      let h := write createData "class_name" className h in
      let h := write createData "is_new" isNew h in
      (Some createData, h)
  end.

(** The parameters of the operations that save. *)
Record parameters : Type := {
  className : ref_value;
  key : ref_value;
  attributeValues : ref_value;
  lifecycleName : ref_value;
  templateName : ref_value;
  processClassName : ref_value;
  processKey : ref_value;
  actionName : ref_value;
  collectionClassName : ref_value
}.

(** How an operation ends: with an exception, or with [record._save]
    handing [saveData] over to a request, which only reads it. *)
Inductive outcome : Type :=
  | Throws
  | Saves (saveData : ref_value).

Definition _save (saveData : ref_value) (h : gmap loc object)
  : outcome * gmap loc object :=
  (Saves saveData, h).

(** [if (c) { x.k = v }]. *)
Definition write_if (c : ref_value) (x : ref_value) (k : string)
    (v : ref_value) (h : gmap loc object) : gmap loc object :=
  if ref_truthy c then write x k v h else h.

Definition createRecord (p : parameters) (h : gmap loc object)
  : outcome * gmap loc object :=
  match _prepareSaveData (className p) (RBool true) (attributeValues p) h with
  | (None, h) => (Throws, h)
  | (Some createData, h) => _save createData h
  end.

Definition createProcessRecord (p : parameters) (h : gmap loc object)
  : outcome * gmap loc object :=
  match _prepareSaveData (className p) (RBool true) (attributeValues p) h with
  | (None, h) => (Throws, h)
  | (Some createData, h) =>
      let h := write_if (lifecycleName p) createData "lifecycle_name"
                        (lifecycleName p) h in
      let h := write_if (templateName p) createData "object_template_name"
                        (templateName p) h in
      _save createData h
  end.

Definition updateRecord (p : parameters) (h : gmap loc object)
  : outcome * gmap loc object :=
  match _prepareSaveData (className p) (RBool false) (attributeValues p) h with
  | (None, h) => (Throws, h)
  | (Some updateData, h) =>
      let h := write updateData "key" (key p) h in
      _save updateData h
  end.

Definition collectionAction (p : parameters) (h : gmap loc object)
  : outcome * gmap loc object :=
  match _prepareSaveData (collectionClassName p) (RBool true)
                         (attributeValues p) h with
  | (None, h) => (Throws, h)
  | (Some actionData, h) =>
      let h := write actionData "parent_class_name" (processClassName p) h in
      let h := write actionData "parent_key" (processKey p) h in
      let h := write actionData "parent_function_name" (actionName p) h in
      _save actionData h
  end.

Definition updateAction (p : parameters) (h : gmap loc object)
  : outcome * gmap loc object :=
  match _prepareSaveData (className p) (RBool false) (attributeValues p) h with
  | (None, h) => (Throws, h)
  | (Some actionData, h) =>
      let h := write actionData "key" (key p) h in
      let h := write actionData "function_name" (actionName p) h in
      _save actionData h
  end.

(** ** The operations together, and a sample store *)

(** The five operations that save. *)
Definition operations
  : list (parameters → gmap loc object → outcome * gmap loc object) :=
  [createRecord; createProcessRecord; updateRecord; collectionAction;
   updateAction].

(** A value that is not an object of the store [h]. *)
Definition new_for (h : gmap loc object) (x : ref_value) : Prop :=
  ∀ l, x = Ref l → h !! l = None.

(** A caller's object with a nested array. *)
Definition sample_store : gmap loc object :=
  <[1%positive := Object [("Title", RStr "Printer on fire");
                          ("Notes", Ref 2%positive)]]>
    (<[2%positive := Array [RStr "first"; RUndefined] []]> ∅).

Definition sample_save : parameters :=
  {| className := RStr "IncidentManagement.Incident";
     key := RStr "42";
     attributeValues := Ref 1%positive;
     lifecycleName := RStr "Incident";
     templateName := RUndefined;
     processClassName := RStr "IncidentManagement.Incident";
     processKey := RStr "42";
     actionName := RStr "Add Note";
     collectionClassName := RStr "IncidentManagement.Note" |}.

End Record_.

(* ===================================================================== *)
(** * Numbers and values as text *)
(* ===================================================================== *)

Module Text.
Import JS.

(** ** Number::toString *)












(** ** ToString on a value, after ToPrimitive *)




End Text.

(* ===================================================================== *)
(** * The steps of a request, one by one *)
(* ===================================================================== *)

Module Steps.
Import JS.
Export Request.

Definition is_logoff (e : event) : bool :=
  match e with Ajax ByLogOff _ _ _ _ => true | _ => false end.

Definition is_exchange (e : event) : bool :=
  match e with Ajax _ _ _ _ _ => true | _ => false end.

(** A handler of the caller is invoked. *)
Definition is_handler (e : event) : bool :=
  match e with OnLoad _ | OnError _ => true | _ => false end.

Definition logoffs (events : list event) : nat := count is_logoff events.

(** The exchanges [go] and [logOn] hand over. *)
Definition call_exchange (p : parameters) : event :=
  Ajax ByGo (webAccessUrl (connection p) +:+ commandPath p) (verb p)
       (requestData p) (requireJSON p).

Definition login_exchange (p : parameters) : event :=
  Ajax ByLogOn (webAccessUrl (connection p) +:+ "/wd/Logon/Logon.rails") POST
       (Obj [("Ecom_User_ID", Str (loginUser (connection p)));
             ("Ecom_User_Password", Str (loginPass (connection p)))]) true.

(** What the response processor leaves of a response. *)
Definition processed_by (p : parameters) (responseData response : value)
  : option value :=
  match responseProcessor p with
  | Some f => f responseData response
  | None => Some responseData
  end.

(** The callbacks [logOff] hands over on demand. *)
Definition logOff_callbacks (x : exchange) : Prop :=
  load_callback x = cb_m_logOffDone
  ∧ error_callback x = cb_m_logOffDone_onError.

(** Two states that differ in the captured result at most. *)
Definition same_flags (a b : state) : Prop :=
  m_loginAttempted a = m_loginAttempted b
  ∧ m_autoLogOff a = m_autoLogOff b
  ∧ m_loggedOn a = m_loggedOn b
  ∧ m_loggedOff a = m_loggedOff b
  ∧ (settled (m_result a) → settled (m_result b)).

(** What an answer of the transport can make a request do, whatever the
    callbacks pending and whatever the answer:
    - throw;
    - log on, on demand, when no login was attempted yet;
    - repeat the call, after a login on demand;
    - log off, on demand, when the automatic log off is armed;
    - hand the captured result to [onLoad] or to [onError]. *)
Inductive transition (p : parameters) (x : exchange) (st : state)
  : step → Prop :=
  | does_throw : transition p x st (st, [TypeError], None)
  | does_logOn :
      m_loginAttempted st = false →
      loginOnDemand (connection p) = true →
      ¬ logOff_callbacks x →
      transition p x st (logOn p true st)
  | does_go st1 :
      load_callback x = cb_m_loginOnDemandOnLoad →
      st1 = st
      ∨ (st1 = set_autoLogOff st ∧ loginOnDemandAutoLogOff (connection p) = true) →
      transition p x st (go p st1)
  | does_logOff st1 :
      same_flags st st1 →
      m_autoLogOff st = true →
      ¬ logOff_callbacks x →
      transition p x st (logOff p true st1)
  | does_returnLoad st1 :
      same_flags st st1 →
      transition p x st (m_returnLoad p st1)
  | does_returnError st1 :
      same_flags st st1 →
      transition p x st (m_returnError p st1).

(** Exchanges first, then one event at most that is not an exchange. *)
Definition exchanges_then_end (events : list event) : Prop :=
  ∃ exchanges ending,
    events = exchanges ++ ending
    ∧ Forall (λ e, is_exchange e = true) exchanges
    ∧ (length ending ≤ 1)%nat
    ∧ Forall (λ e, is_exchange e = false) ending.

(** ** [query.runQuery] *)

(** The request [query.runQuery] creates. *)
Definition runQuery_request (connection : connectionInfo) (queryData : value)
    (onLoad onError : bool) : parameters :=
  {| Request.connection := connection;
     commandPath := "/query/list.rails";
     verb := GET;
     requestData := queryData;
     Request.onLoad := onLoad;
     Request.onError := onError;
     responseProcessor := Some _queryResponseProcessor;
     requireJSON := true |}.

End Steps.

(* ===================================================================== *)
(** * [metadata.getModules], [metadata._getObjects], and hierarchies
    without a root *)
(* ===================================================================== *)

Module Schema.
Import JS Text.
Export Steps Metadata.

(** [self.query.runQuery] with a handler of the connector's own as
    [onLoad] and the caller's [onError]. *)
Definition query (connection : connectionInfo) (onError : bool)
    (queryData : value) (replies : list reply) : delivery :=
  delivered (request_go (runQuery_request connection queryData true onError)
                        replies).

(** ** [getModules] *)

Definition modules_queryData : value :=
  Obj [("class_name", Str "Metadata.Module");
       ("attributes", Str "Name,DatabasePrefix,IsClone,IsExternal");
       ("page_size", Num (of_Z 999))].

(** The descriptor built from a row; [None] is a TypeError. *)
Definition module_of (item : value) : option value :=
  guid ← get "value" item;
  attributes ← get "attributes" item;
  name ← get "Name" attributes;
  title ← get "name" item;
  databasePrefix ← get "DatabasePrefix" attributes;
  isExternal ← get "IsExternal" attributes;
  isClone ← get "IsClone" attributes;
  Some (Obj [("guid", guid); ("name", name); ("title", title);
             ("databasePrefix", databasePrefix);
             ("isExternal", isExternal); ("isClone", isClone)]).

Definition getModulesOnLoad (onLoad : bool) (result : value) : list event :=
  if negb onLoad then []
  else
    let looped :=
      data ← get "data" result;
      objects ← get "objects" data;
      items ← loop_items objects;
      mapM module_of items in
    match looped with
    | None => [Threw]
    | Some modulesArray =>
        match sort_by_title modulesArray with
        | None => [Threw]
        | Some sorted =>
            [Load (put "data" (Obj [("modules", Arr sorted)]) result)]
        end
    end.

(** [getModules], with the answers the transport gives to its query. *)
Definition getModules (connection : connectionInfo) (onLoad onError : bool)
    (replies : list reply) : list event :=
  RunQuery modules_queryData ::
  match query connection onError modules_queryData replies with
  | ToOnLoad result => getModulesOnLoad onLoad result
  | ToOnError result => [Error result]
  | Exception => [Threw]
  | Pending => []
  end.

(** ** [_getObjects], [getObjectsForModule] and [getObject] *)







(** ** What a descriptor holds *)

(** The descriptor [d] of a module holds what the row [item] holds. *)
Definition describes_module (item d : value) : Prop :=
  ∃ attributes,
    get "attributes" item = Some attributes
    ∧ get "guid" d = get "value" item
    ∧ get "name" d = get "Name" attributes
    ∧ get "title" d = get "name" item
    ∧ get "databasePrefix" d = get "DatabasePrefix" attributes
    ∧ get "isExternal" d = get "IsExternal" attributes
    ∧ get "isClone" d = get "IsClone" attributes.


(** ** Titles in ASCII *)

Fixpoint is_ascii (s : string) : bool :=
  match s with
  | EmptyString => true
  | String a s' => (code a <? 128)%N && is_ascii s'
  end.

(** A descriptor whose title is a string of ASCII characters: on these
    [toLowerCase] and [str_ltb] are the source's [toLowerCase()] and [<]. *)
Definition ascii_titled (a : value) : Prop :=
  match get "title" a with
  | Some (Str s) => is_ascii s = true
  | _ => False
  end.

(** ** What a trace is made of *)

Definition is_outcome (e : event) : bool := negb (is_query e).

(** Queries first, then at most one outcome. *)
Definition queries_then_outcome (trace : list event) (most : nat) : Prop :=
  ∃ queries ending,
    trace = queries ++ ending
    ∧ Forall (λ e, is_query e = true) queries
    ∧ (1 ≤ length queries ≤ most)%nat
    ∧ (length ending ≤ 1)%nat
    ∧ Forall (λ e, is_outcome e = true) ending.

(** ** Hierarchies without a root *)

Section Endless.
Variable connection : connectionInfo.
Variable parameters : parameters.


End Endless.


Definition sample_modules : list reply :=
  let row guid title name :=
    Obj [("value", Str guid); ("name", Str title);
         ("attributes",
          Obj [("Name", Str name); ("DatabasePrefix", Str "im");
               ("IsClone", Str "False"); ("IsExternal", Str "False")])] in
  [Loaded (Obj [("pageCount", Num (of_Z 1)); ("objectCount", Num (of_Z 0));
                ("objects", Arr [row "m2" "incident Management" "IncidentManagement";
                                 row "m1" "Change Management" "ChangeManagement"])])
          sample_response].




Definition sample_modules_loaded : value :=
  Eval vm_compute in
    match last (getModules (sample_connection false false) true true
                           sample_modules) with
    | Some (Load result) => result
    | _ => Undefined
    end.

End Schema.

(* ===================================================================== *)
(** * What the operations that save hand over *)
(* ===================================================================== *)

Module Saved.
Import JS.
Export Record_.

Definition props_of (o : object) : list (string * ref_value) :=
  match o with
  | Object props => props
  | Array _ props => props
  end.

(** [o] after [o.k = v]. *)
Definition with_prop (k : string) (v : ref_value) (o : object) : object :=
  match o with
  | Object props => Object (assign k v props)
  | Array elems props => Array elems (assign k v props)
  end.

(** The property [k] of the object an operation hands over. *)
Definition sent (r : outcome * gmap loc object) (k : string)
  : option ref_value :=
  match r.1 with
  | Saves (Ref l) => o ← r.2 !! l; assoc k (props_of o)
  | _ => None
  end.

(** The properties each operation sets, in the order of [operations]. *)
Definition tags (p : parameters) : list (list (string * ref_value)) :=
  [ [("class_name", className p); ("is_new", RBool true)];
    [("class_name", className p); ("is_new", RBool true)]
      ++ (if ref_truthy (lifecycleName p)
          then [("lifecycle_name", lifecycleName p)] else [])
      ++ (if ref_truthy (templateName p)
          then [("object_template_name", templateName p)] else []);
    [("class_name", className p); ("is_new", RBool false); ("key", key p)];
    [("class_name", collectionClassName p); ("is_new", RBool true);
     ("parent_class_name", processClassName p);
     ("parent_key", processKey p);
     ("parent_function_name", actionName p)];
    [("class_name", className p); ("is_new", RBool false); ("key", key p);
     ("function_name", actionName p)] ].

(** A value that is not an object. *)
Definition is_primitive (v : ref_value) : bool :=
  match v with
  | Ref _ => false
  | _ => true
  end.

(** What [JSON.parse(JSON.stringify(..))] makes of a property that holds
    a primitive value: [None] when the property is left out.  An object
    is copied in its turn, which is not described here. *)
Definition copied (v : ref_value) : option ref_value :=
  match v with
  | RUndefined | RFunction => None
  | RNull => Some RNull
  | RBool b => Some (RBool b)
  | RNum (S754_finite s m e) => Some (RNum (S754_finite s m e))
  | RNum (S754_zero _) => Some (RNum (S754_zero false))
  | RNum _ => Some RNull
  | RStr s => Some (RStr s)
  | Ref _ => None
  end.

(** The JSON form of a primitive value, [None] when it has none. *)
Definition text_of (v : ref_value) : option value :=
  match v with
  | RUndefined | RFunction => None
  | RNull => Some Null
  | RBool b => Some (Bool b)
  | RNum (S754_finite s m e) => Some (Num (S754_finite s m e))
  | RNum (S754_zero _) => Some (Num (S754_zero false))
  | RNum _ => Some Null
  | RStr s => Some (Str s)
  | Ref _ => None
  end.

Definition copied_props (props : list (string * ref_value))
  : list (string * ref_value) :=
  omap (λ kv, pair kv.1 <$> copied kv.2) props.

(** No object of the store has a method [toJSON]. *)
Definition no_toJSON (h : gmap loc object) : Prop :=
  map_Forall (λ _ o, has_toJSON o = false) h.

(** An object that holds itself. *)
Definition holds_itself (h : gmap loc object) (l : loc) : Prop :=
  match h !! l with
  | Some (Object props) => ∃ k, (k, Ref l) ∈ props
  | Some (Array elems _) => Ref l ∈ elems
  | None => False
  end.

(** A caller's object with an undefined property, a handler and numbers
    that have no JSON form. *)
Definition sample_flat : gmap loc object :=
  <[1%positive := Object [("Title", RStr "Printer on fire");
                          ("class_name", RStr "Other.Class");
                          ("Owner", RUndefined);
                          ("onChange", RFunction);
                          ("Severity", RNum (of_Z 2));
                          ("Cost", RNum NaN)]]> ∅.

(** An object whose [self] is the object. *)
Definition sample_knot : gmap loc object :=
  <[1%positive := Object [("Title", RStr "Printer on fire");
                          ("self", Ref 1%positive)]]> ∅.

End Saved.

(* ===================================================================== *)
(** * Query strings: what is read from them *)
(* ===================================================================== *)

Module Urls.
Import JS.
Export Parser.

(** The names [parseQueryUrl] looks for, the criteria apart. *)
Definition fixed_names : list string :=
  ["class_name"; "query"; "attributes"; "page_size"; "sort_by"; "cns"].

(** The name of the criterion number [i]. *)
Definition criterion (i : nat) : string := "c" +:+ pretty i.

Fixpoint only_digits (s : string) : bool :=
  match s with
  | EmptyString => true
  | String a s' => ((48 <=? code a) && (code a <=? 57))%N && only_digits s'
  end.

(** Each entry of [qd] is a truthy entry of [obj]. *)
Definition selected (obj qd : gmap string value) : Prop :=
  ∀ k v, qd !! k = Some v → present k obj = Some v.

(** The names of [qd] are fixed names and the criteria below [n], all
    of which are there. *)
Definition names_below (n : nat) (qd : gmap string value) : Prop :=
  (∀ k, is_Some (qd !! k) → k ∈ fixed_names ∨ ∃ j, (j < n)%nat ∧ k = criterion j)
  ∧ ∀ j, (j < n)%nat → is_Some (qd !! criterion j).

(** ** [encodeURIComponent], and the text [ajax.call] makes of a property *)

(** The characters [encodeURIComponent] leaves as they are: letters,
    digits and [-_.!~*'()]. *)
Definition is_unreserved (a : ascii) : bool :=
  let n := code a in
  ((48 <=? n) && (n <=? 57) || (65 <=? n) && (n <=? 90)
   || (97 <=? n) && (n <=? 122)
   || (n =? 45) || (n =? 95) || (n =? 46) || (n =? 33) || (n =? 126)
   || (n =? 42) || (n =? 39) || (n =? 40) || (n =? 41))%N.

Definition hex_digit (n : N) : ascii :=
  if (n <? 10)%N then chr (48 + n) else chr (55 + n).

(** An octet as [%XX]. *)
Definition escape (a : ascii) : string :=
  String "%" (String (hex_digit (code a / 16))
                     (String (hex_digit (code a mod 16)) EmptyString)).

Fixpoint encode (s : string) : string :=
  match s with
  | EmptyString => EmptyString
  | String a s' =>
      (if is_unreserved a then String a EmptyString else escape a)
      +:+ encode s'
  end.

(** A surrogate on its own, which a string holds as the three octets
    [ED A0..BF 80..BF]. *)
Fixpoint has_surrogate (s : string) : bool :=
  match s with
  | String a (String b _ as s') =>
      ((code a =? 237) && (160 <=? code b))%N || has_surrogate s'
  | _ => false
  end.

(** [encodeURIComponent(s)]: the octets of the UTF-8 form of [s], escaped
    unless unreserved; [None] is the URIError thrown on a surrogate that
    is on its own. *)
Definition encodeURIComponent (s : string) : option string :=
  if has_surrogate s then None else Some (encode s).

(** The text the loop of [ajax.call] pushes for a property whose value is
    a string: [encodeURIComponent(i) + "=" + encodeURIComponent(data[i])]. *)
Definition part (name value : string) : option string :=
  n ← encodeURIComponent name;
  v ← encodeURIComponent value;
  Some (n +:+ "=" +:+ v).

(** [parts.join("&")] for an object that holds strings, given by its
    properties in the order of enumeration. *)
Definition form (data : list (string * string)) : option string :=
  join "&" <$> mapM (λ kv, part kv.1 kv.2) data.

(** Well-formed UTF-8, as [decodeURIComponent] checks it. *)
Fixpoint utf8 (pending : nat) (lo hi : N) (s : string) : bool :=
  match s with
  | EmptyString => match pending with 0 => true | S _ => false end
  | String a rest =>
      let b := code a in
      match pending with
      | S k => ((lo <=? b) && (b <=? hi))%N && utf8 k 128 191 rest
      | 0 =>
          if (b <? 128)%N then utf8 0 128 191 rest
          else if ((194 <=? b) && (b <=? 223))%N then utf8 1 128 191 rest
          else if (b =? 224)%N then utf8 2 160 191 rest
          else if (b =? 237)%N then utf8 2 128 159 rest
          else if ((225 <=? b) && (b <=? 239))%N then utf8 2 128 191 rest
          else if (b =? 240)%N then utf8 3 144 191 rest
          else if ((241 <=? b) && (b <=? 243))%N then utf8 3 128 191 rest
          else if (b =? 244)%N then utf8 3 128 143 rest
          else false
      end
  end.

Definition is_utf8 (s : string) : bool := utf8 0 128 191 s.

(** What [parseQueryUrl] reads back for a value written by [ajax.call]:
    the number its text reads as, if any, else the value. *)
Definition read_back (text : string) : value :=
  if is_NaN (StringToNumber (encode text)) then Str text
  else Num (parseFloat (encode text)).

(** A query url whose criteria stop at the first one that is missing. *)
Definition sample_url : string :=
  "/wd/query/list.rails?class_name=Incident&query=Mine&attributes=Title&cns=Title-c-0&c0=fire&c1=7&c3=late".

Definition sample_pairs : gmap string value :=
  Eval vm_compute in default ∅ (parse_pairs (pairs_of sample_url).2 ∅).

Definition sample_parsed : returnObject :=
  Eval vm_compute in
    match parseQueryUrl sample_url with
    | Result r => r
    | _ => {| webAccessUrl := None; queryData := ∅ |}
    end.

End Urls.

(* ===================================================================== *)
(** * The answers of the transport: [ajax.call] and its helpers *)
(* ===================================================================== *)

Module Transport.
Import JS.
Export Steps.

(** ** Searching a string *)

(** [s.indexOf(p)] for a pattern [p] that is not empty: [None] stands
    for -1. *)
Fixpoint find (p s : string) : option nat :=
  match strip_prefix p s with
  | Some _ => Some 0
  | None =>
      match s with
      | EmptyString => None
      | String _ s' => S <$> find p s'
      end
  end.

(** [s.indexOf(p, from)]. *)
Definition find_from (p : string) (from : nat) (s : string) : option nat :=
  if (from <=? String.length s)%nat
  then (λ k, from + k) <$> find p (drop_chars from s)
  else None.

(** [s.lastIndexOf(p)]. *)
Fixpoint find_last (p s : string) : option nat :=
  match s with
  | EmptyString => None
  | String _ s' =>
      match find_last p s' with
      | Some k => Some (S k)
      | None =>
          match strip_prefix p s with
          | Some _ => Some 0
          | None => None
          end
      end
  end.

Definition is_continuation (a : ascii) : bool :=
  ((128 <=? code a) && (code a <? 192))%N.

(** A string cut in front of its last character, which starts at the
    last octet that is not a continuation octet; [None] when no
    character starts in the string. *)
Fixpoint last_char (s : string) : option (string * string) :=
  match s with
  | EmptyString => None
  | String a s' =>
      match last_char s' with
      | Some (before, c) => Some (String a before, c)
      | None =>
          if is_continuation a then None else Some (EmptyString, String a s')
      end
  end.

(** The high surrogate of a character written with four octets, as the
    three octets that stand for a surrogate on its own. *)
Definition high_surrogate (c : string) : string :=
  match c with
  | String b0 (String b1 (String b2 (String b3 EmptyString))) =>
      let cp :=
        ((code b0 mod 8) * 262144 + (code b1 mod 64) * 4096
         + (code b2 mod 64) * 64 + code b3 mod 64)%N in
      let hi := (55296 + (cp - 65536) / 1024)%N in
      String (chr 237)
        (String (chr (128 + (hi / 64) mod 64))
                (String (chr (128 + hi mod 64)) EmptyString))
  | _ => EmptyString
  end.

(** The string without its last UTF-16 code unit: without its last
    character, of which the high surrogate stays when it takes two code
    units. *)
Definition drop_last_unit (s : string) : string :=
  match last_char s with
  | Some (before, String b0 _ as c) =>
      if (240 <=? code b0)%N then before +:+ high_surrogate c else before
  | _ => EmptyString
  end.

(** [s.slice(from, to)] where [to] is the result of a search, -1 when
    it is [None], and [from] a position found by a search or within the
    ASCII text that [s] starts with. *)
Definition slice (from : nat) (to : option nat) (s : string) : string :=
  match to with
  | Some e => drop_chars from (take_chars e s)
  | None => drop_chars from (drop_last_unit s)
  end.

(** ** The response *)

(** What the connector reads of the XMLHttpRequest: [requestUrl] is the
    header [X-RequestUrl], [None] when the response has none. *)
Record response : Type := {
  status : N;
  statusText : string;
  responseText : string;
  requestUrl : option string
}.

(** The response as the callbacks of a request see it. *)
Definition as_value (x : response) : value :=
  Obj [("status", Num (of_Z (Z.of_N (status x))));
       ("statusText", Str (statusText x));
       ("responseText", Str (responseText x))].

Section ajax.
(** [JSON.parse] on a string: [None] is the SyntaxError. *)
Variable JSON_parse : string → option value.

(** The text [onAjaxError] settles on. *)
Definition error_text (x : response) (errorText : string) : value :=
  if is_empty errorText && (status x =? 0)%N
  then Str "Connection Failed"
  else
    let message :=
      data ← JSON_parse (responseText x);
      message ← get "message" data;
      if truthy message then Some message else None in
    match message with
    | Some message => message
    | None =>
        (* chances are this is a Web Access error page *)
        match find "exceptionMessage" (responseText x) with
        | Some i =>
            let errorSlice :=
              slice i (find_from "</div>" i (responseText x))
                    (responseText x) in
            let from :=
              match find_last "<p>" errorSlice with
              | Some k => k + 3
              | None => 2
              end in
            Str (slice from (find_last "</p>" errorSlice) errorSlice)
        | None =>
            Str (errorText +:+ " (" +:+ pretty (status x) +:+ ")")
        end
    end.

(** [ajax.onAjaxError] and [ajax.onAjaxSuccess]: what the callback is
    called with, [None] when there is no callback. *)
Definition onAjaxError (x : response) (errorText : string) (callback : bool)
  : option reply :=
  if callback
  then Some (Failed (Num (of_Z (Z.of_N (status x)))) (error_text x errorText))
  else None.

Definition onAjaxSuccess (data : value) (x : response) (callback : bool)
  : option reply :=
  if callback then Some (Loaded data (as_value x)) else None.

Definition integrated_logon_failed (x : response) : bool :=
  match requestUrl x with
  | Some responseUrl =>
      negb (is_empty responseUrl)
      && bool_decide
           (is_Some (find "Logon/IntegratedLogonFailed.rails" responseUrl))
  | None => false
  end.

(** The handlers [ajax.call] sets on the XMLHttpRequest. *)
Definition onload (requireJSON onLoad onError : bool) (x : response)
  : option reply :=
  if negb (status x =? 200)%N then onAjaxError x (statusText x) onError
  else if integrated_logon_failed x
  then onAjaxError x "Integrated Logon Failed" onError
  else
    (* attempt JSON parse *)
    match JSON_parse (responseText x) with
    | Some data => onAjaxSuccess data x onLoad
    | None =>
        if requireJSON then onAjaxError x "Invalid Response" onError
        else onAjaxSuccess (Str (responseText x)) x onLoad
    end.

Definition onerror (onError : bool) (x : response) : option reply :=
  onAjaxError x (statusText x) onError.

(** How an exchange ends: the XMLHttpRequest fires [load] or [error]. *)
Inductive arrival : Type :=
  | Arrives (x : response)
  | Breaks (x : response).

(** The answer a request gets: it always supplies both callbacks. *)
Definition answer_to (requireJSON : bool) (a : arrival) : option reply :=
  match a with
  | Arrives x => onload requireJSON true true x
  | Breaks x => onerror true x
  end.

End ajax.

(** ** The request *)

(** What [ajax.call] opens and what it sends, for data that hold
    strings: the url and the body, [None] for no body. *)
Definition opened (url : string) (requestType : requestType)
    (data : list (string * string)) : option (string * option string) :=
  text ← Urls.form data;
  match requestType with
  | POST => Some (url, Some text)
  | GET => Some (url +:+ "?" +:+ text, None)
  end.

(** What the pairs written for [data] are read as, a later pair
    replacing an earlier one of the same name. *)
Definition read_pairs (data : list (string * string)) : gmap string value :=
  foldl (λ obj kv, Parser.store kv.1 (Urls.read_back kv.2) obj) ∅ data.

(** ** [action.windowlessAction] and [action.attachDetachAction] *)

(** The request [action._invokeFunction] creates. *)
Definition invokeFunction_request (connection : connectionInfo)
    (actionData : value) (onLoad onError requireJSON : bool) : parameters :=
  {| Request.connection := connection;
     commandPath := "/object/invokeFunction.rails";
     verb := POST;
     requestData := actionData;
     Request.onLoad := onLoad;
     Request.onError := onError;
     responseProcessor := None;
     Request.requireJSON := requireJSON |}.

Definition _invokeFunction (connection : connectionInfo) (actionData : value)
    (onLoad onError requireJSON : bool) (replies : list reply) : list event :=
  request_go (invokeFunction_request connection actionData onLoad onError
                                     requireJSON)
             replies.

Definition windowless_actionData (className key actionName : value) : value :=
  Obj [("class_name", className); ("key", key);
       ("function_name", actionName); ("is_new", Bool false)].

Definition windowlessAction (connection : connectionInfo)
    (className key actionName : value) (onLoad onError : bool)
    (replies : list reply) : list event :=
  _invokeFunction connection (windowless_actionData className key actionName)
                  onLoad onError false replies.

Definition attachDetach_actionData
    (className key actionName linkedClassName linkedKey : value) : value :=
  Obj [("class_name", className); ("key", key);
       ("function_name", actionName);
       ("child_class_name", linkedClassName); ("child_key", linkedKey);
       ("is_new", Bool false)].

Definition attachDetachAction (connection : connectionInfo)
    (className key actionName linkedClassName linkedKey : value)
    (onLoad onError : bool) (replies : list reply) : list event :=
  _invokeFunction connection
                  (attachDetach_actionData className key actionName
                                           linkedClassName linkedKey)
                  onLoad onError true replies.

(** ** Samples *)

Definition sample_page : response :=
  {| status := 500;
     statusText := "Internal Server Error";
     responseText :=
       "<html><div class='exceptionMessage'><p>Object not found</p></div></html>";
     requestUrl := None |}.

Definition sample_forbidden : response :=
  {| status := 403;
     statusText := "Forbidden";
     responseText := "<html>Access denied</html>";
     requestUrl := None |}.

Definition quoted (s : string) : string :=
  String (chr 34) s +:+ String (chr 34) EmptyString.

(** The body [{"message":"No such object"}]. *)
Definition sample_message_body : string :=
  "{" +:+ quoted "message" +:+ ":" +:+ quoted "No such object" +:+ "}".

Definition sample_refused : response :=
  {| status := 500;
     statusText := "Internal Server Error";
     responseText := sample_message_body;
     requestUrl := None |}.

Definition sample_welcome : response :=
  {| status := 200;
     statusText := "OK";
     responseText := "<html>Welcome</html>";
     requestUrl := None |}.

Definition sample_empty_object : response :=
  {| status := 200;
     statusText := "OK";
     responseText := "{}";
     requestUrl := None |}.

Definition sample_unreachable : response :=
  {| status := 0;
     statusText := "";
     responseText := "";
     requestUrl := None |}.

(** [JSON.parse] as far as the samples need it: on the two bodies that
    are JSON, and on the others, which are not. *)
Definition sample_JSON_parse (text : string) : option value :=
  if String.eqb text "{}" then Some (Obj [])
  else if String.eqb text sample_message_body
  then Some (Obj [("message", Str "No such object")])
  else None.

End Transport.

(* ===================================================================== *)
(** * Properties of [parseQueryUrl] *)
(* ===================================================================== *)

Module ParserProps.
Import JS Parser.

Lemma split_nonempty c s : ∃ piece pieces, split c s = piece :: pieces.
Proof.
  induction s as [|a s IH]; simpl; [by eauto|].
  destruct (Ascii.eqb a c); [by eauto|].
  destruct IH as (piece & pieces & ->). by eauto.
Qed.

Lemma split_first raw : split "=" raw !! 0 = Some (before_eq raw).
Proof.
  unfold before_eq.
  induction raw as [|a s IH]; simpl; [done|].
  destruct (Ascii.eqb a "=") eqn:Ha; simpl; [done|].
  destruct (split_nonempty "=" s) as (piece & pieces & Hs).
  rewrite Hs in IH |- *. simpl in *.
  destruct (indexOf "=" s); simpl; congruence.
Qed.

Lemma split_second raw : split "=" raw !! 1 = between_eqs raw.
Proof.
  unfold between_eqs, after_first_eq.
  induction raw as [|a s IH]; simpl; [done|].
  destruct (Ascii.eqb a "=") eqn:Ha; simpl.
  - apply split_first.
  - destruct (split_nonempty "=" s) as (piece & pieces & Hs).
    rewrite Hs in IH |- *. simpl in *.
    rewrite IH. by destruct (indexOf "=" s).
Qed.

(** A turn of the loop cuts its pair at every equals sign and keeps the
    first two pieces. *)
Lemma parse_pair_cut raw : parse_pair raw = cut_parse_pair raw.
Proof.
  unfold parse_pair, cut_parse_pair.
  by rewrite split_first, split_second.
Qed.

Lemma parse_pairs_fold pairs obj :
  parse_pairs pairs obj =
  (λ stored, foldl (λ o nv, store nv.1 nv.2 o) obj stored)
    <$> mapM cut_parse_pair pairs.
Proof.
  revert obj. induction pairs as [|raw pairs IH]; intros obj; [done|].
  cbn [parse_pairs]. rewrite parse_pair_cut.
  change (mapM cut_parse_pair (raw :: pairs))
    with (nv ← cut_parse_pair raw; k ← mapM cut_parse_pair pairs; mret (nv :: k)).
  destruct (cut_parse_pair raw) as [[name v]|]; simpl; [|done].
  rewrite IH. by destruct (mapM cut_parse_pair pairs).
Qed.

(** ** The fuel of [copy_criteria] *)

Lemma criteria_bound (obj : gmap string value) (i : nat) :
  (∀ j, (j < i)%nat → is_Some (present ("c" +:+ pretty j) obj)) →
  (i ≤ size obj)%nat.
Proof.
  intros Hpresent.
  set (keys := (λ j : nat, "c" +:+ pretty j) <$> seq 0 i).
  assert (Hnodup : NoDup keys).
  { apply NoDup_fmap_2; [|apply NoDup_seq].
    intros j j' Heq. simpl in Heq. injection Heq as Heq.
    by apply pretty_nat_inj. }
  replace i with (length keys) by (unfold keys; by rewrite length_fmap, length_seq).
  rewrite <- (size_list_to_set (C := gset string) keys Hnodup), <- size_dom.
  apply subseteq_size. intros key Hkey%elem_of_list_to_set.
  apply list_elem_of_fmap in Hkey as (j & -> & Hj%elem_of_seq).
  destruct (Hpresent j) as [v Hv]; [lia|].
  unfold present in Hv. apply elem_of_dom.
  destruct (obj !! ("c" +:+ pretty j)); [by eauto|discriminate].
Qed.

(** With the fuel [extract] gives it the loop always reaches a missing
    criterion: more fuel changes nothing. *)
Lemma copy_criteria_fuel obj : ∀ fuel k i qd,
  (∀ j, (j < i)%nat → is_Some (present ("c" +:+ pretty j) obj)) →
  (size obj < fuel + i)%nat →
  copy_criteria (fuel + k) i obj qd = copy_criteria fuel i obj qd.
Proof.
  induction fuel as [|fuel IH]; intros k i qd Hpresent Hfuel.
  { pose proof (criteria_bound obj i Hpresent). lia. }
  cbn [copy_criteria Nat.add].
  destruct (present ("c" +:+ pretty i) obj) as [v|] eqn:Hi; [|done].
  apply IH; [|lia].
  intros j Hj. destruct (decide (j = i)) as [->|]; [by eauto|].
  apply Hpresent. lia.
Qed.

Lemma copy_criteria_enough obj k qd :
  copy_criteria (S (size obj) + k) 0 obj qd
  = copy_criteria (S (size obj)) 0 obj qd.
Proof. apply copy_criteria_fuel; [|lia]. intros j Hj. lia. Qed.

Lemma example_run :
  parseQueryUrl "https://host/app?class_name=Incident&query=MyQuery&page_size=50"
  = Result
      {| webAccessUrl := Some "https://host/app?class_name=Incident";
         queryData :=
           <["page_size" := Num (of_Z 50)]>
             (<["query" := Str "MyQuery"]>
                {["class_name" := Str "Incident"]}) |}.
Proof. vm_compute. reflexivity. Qed.

(** C7, as the source has it: the Web Access url is made of the first
    four pieces between slashes of the text before the first ampersand,
    and here the fourth piece still carries the first parameter; the
    query data are as stated, [page_size] the number 50. *)
Theorem parseQueryUrl_example :
  parseQueryUrl "https://host/app?class_name=Incident&query=MyQuery&page_size=50"
  = Result
      {| webAccessUrl := Some "https://host/app?class_name=Incident";
         queryData :=
           <["page_size" := Num (of_Z 50)]>
             (<["query" := Str "MyQuery"]>
                {["class_name" := Str "Incident"]}) |}.
Proof. exact example_run. Qed.

(** C7 as stated does not hold: the url returned is not
    ["https://host/app"]. *)
Lemma example_url_not_as_stated :
  parseQueryUrl "https://host/app?class_name=Incident&query=MyQuery&page_size=50"
  ≠ Result
      {| webAccessUrl := Some "https://host/app";
         queryData :=
           <["page_size" := Num (of_Z 50)]>
             (<["query" := Str "MyQuery"]>
                {["class_name" := Str "Incident"]}) |}.
Proof.
  rewrite example_run. intros H.
  apply (f_equal (λ o, match o with
                       | Result r => webAccessUrl r
                       | _ => None
                       end)) in H.
  simpl in H. discriminate H.
Qed.

(** ** The pieces of a query string *)

Lemma after_question_indexOf s :
  after_question s = (λ k, drop_chars (S k) s) <$> indexOf "?" s.
Proof.
  induction s as [|a s IH]; [done|]. simpl.
  destruct (Ascii.eqb a "?"); [done|].
  rewrite IH. by destruct (indexOf "?" s).
Qed.

Lemma pieces_pairs queryString : pieces queryString = (pairs_of queryString).2.
Proof.
  unfold pieces, pairs_of.
  destruct (split_nonempty "&" queryString) as (first & rest & ->).
  cbn [hd tl]. rewrite after_question_indexOf.
  by destruct (indexOf "?" first).
Qed.

(** A turn of the loop reads what the piece says, or throws on a piece
    that is malformed. *)
Lemma cut_says piece :
  match cut_parse_pair piece with
  | Some nv => says piece nv.1 nv.2
  | None => malformed piece
  end.
Proof.
  unfold cut_parse_pair, says, malformed, value_of.
  destruct (decodeURIComponent (before_eq piece)) as [name|];
    cbn [mbind option_bind]; [|by left].
  destruct (between_eqs piece) as [text|]; cbn [mbind option_bind fst snd];
    [|done].
  destruct (is_NaN (StringToNumber text)) eqn:Hnumber.
  - destruct (decodeURIComponent text) as [decoded|] eqn:Htext;
      cbn [fmap option_fmap option_map mbind option_bind fst snd].
    + split; [done|]. by eauto.
    + right. by eauto.
  - cbn [mbind option_bind fst snd]. done.
Qed.

Lemma mapM_cut_says pieces :
  match mapM cut_parse_pair pieces with
  | Some stored => Forall2 (λ piece nv, says piece nv.1 nv.2) pieces stored
  | None => Exists malformed pieces
  end.
Proof.
  induction pieces as [|piece pieces IH]; [by constructor|].
  change (mapM cut_parse_pair (piece :: pieces))
    with (nv ← cut_parse_pair piece; k ← mapM cut_parse_pair pieces;
          mret (nv :: k)).
  pose proof (cut_says piece) as Hpiece.
  destruct (cut_parse_pair piece) as [nv|]; simpl; [|by left].
  destruct (mapM cut_parse_pair pieces) as [stored|]; simpl.
  - by constructor.
  - by right.
Qed.

(** The object the loop builds holds, under each name, what the last
    pair of that name says. *)
Lemma stored_last stored : ∀ (obj : gmap string value) name,
  foldl (λ o nv, store nv.1 nv.2 o) obj stored !! name
  = if String.eqb name "__proto__" then obj !! name
    else match last_named name stored with
         | Some v => Some v
         | None => obj !! name
         end.
Proof.
  induction stored as [|[n v] stored IH]; intros obj name.
  { simpl. by destruct (String.eqb name "__proto__"). }
  cbn [foldl last_named fst snd]. rewrite IH. unfold store.
  destruct (String.eqb name "__proto__") eqn:Hproto.
  - apply String.eqb_eq in Hproto as ->.
    destruct (String.eqb n "__proto__") eqn:Hn; [done|].
    apply String.eqb_neq in Hn. by rewrite lookup_insert_ne.
  - destruct (last_named name stored) as [w|]; [done|].
    destruct (String.eqb n name) eqn:Hname.
    + apply String.eqb_eq in Hname as ->. rewrite Hproto.
      by rewrite lookup_insert_eq.
    + apply String.eqb_neq in Hname.
      destruct (String.eqb n "__proto__"); [done|].
      by rewrite lookup_insert_ne.
Qed.

(** C8, as the source has it: for every input the text is cut at the
    ampersands and the first piece loses everything up to its first
    question mark.  When a piece is malformed the call throws.  Else
    each piece says a name and a value: the name is the decoded text
    before its first equals sign; the value comes from the text between
    the first and the second equals sign alone, the number [parseFloat]
    reads from it when [Number] of the text as it stands is not NaN, the
    decoded text otherwise, and ["undefined"] when the piece has no
    equals sign.  The object the parameters are extracted from holds,
    under each name, what the last piece of that name says (nothing
    under [__proto__]). *)
Theorem parseQueryUrl_pairs queryString :
  (Exists malformed (pieces queryString)
   ∧ parseQueryUrl queryString = URIError)
  ∨ ∃ (stored : list (string * value)) (obj : gmap string value),
      Forall2 (λ piece nv, says piece nv.1 nv.2) (pieces queryString) stored
      ∧ (∀ name, obj !! name = if String.eqb name "__proto__" then None
                               else last_named name stored)
      ∧ parseQueryUrl queryString =
        match extract obj with
        | None => NoResult
        | Some qd =>
            Result {| webAccessUrl := (pairs_of queryString).1;
                      queryData := qd |}
        end.
Proof.
  rewrite pieces_pairs. unfold parseQueryUrl.
  destruct (pairs_of queryString) as [url pairs]. cbn [fst snd].
  rewrite parse_pairs_fold.
  pose proof (mapM_cut_says pairs) as Hpairs.
  destruct (mapM cut_parse_pair pairs) as [stored|]; simpl; [|by left].
  right. exists stored, (foldl (λ o nv, store nv.1 nv.2 o) ∅ stored).
  split; [done|]. split; [|done].
  intros name. rewrite stored_last, lookup_empty.
  destruct (String.eqb name "__proto__"); [done|].
  by destruct (last_named name stored).
Qed.

(** C8 as stated does not hold: cut at the first equals sign only, the
    pair [class_name=a=b] would give the value ["a=b"]; the source gives
    ["a"].  Nor is a value a number exactly when it reads as a finite one:
    the empty value becomes NaN, [Infinity] becomes a number, and [%35],
    which decodes to 5, stays a string. *)
Lemma parseQueryUrl_value_cut_short :
  spec_parse_pair "class_name=a=b" = Some ("class_name", Str "a=b")
  ∧ parse_pair "class_name=a=b" ≠ spec_parse_pair "class_name=a=b"
  ∧ parseQueryUrl "class_name=a=b"
    = Result {| webAccessUrl := None;
                queryData := {["class_name" := Str "a"]} |}
  ∧ parse_pair "page_size=" = Some ("page_size", Num NaN)
  ∧ parse_pair "page_size=Infinity"
    = Some ("page_size", Num (S754_infinity false))
  ∧ parse_pair "page_size=%35" = Some ("page_size", Str "5").
Proof. vm_compute. split_and!; [done|discriminate|done..]. Qed.

End ParserProps.

(* ===================================================================== *)
(** * Properties of the query response processor *)
(* ===================================================================== *)

Module QueryProps.
Import JS Query.

Lemma assoc_assign_eq {A} k (v : A) props : assoc k (assign k v props) = Some v.
Proof.
  induction props as [|[k' v'] props IH]; simpl.
  - by rewrite String.eqb_refl.
  - destruct (String.eqb k k') eqn:E; simpl; rewrite ?String.eqb_refl, ?E; done.
Qed.

Lemma assoc_assign_ne {A} k k' (v : A) props :
  k ≠ k' → assoc k' (assign k v props) = assoc k' props.
Proof.
  intros Hne. induction props as [|[k0 v0] props IH]; simpl.
  - by apply String.eqb_neq in Hne; rewrite String.eqb_sym, Hne.
  - destruct (String.eqb k k0) eqn:E; simpl.
    + apply String.eqb_eq in E as <-.
      by apply String.eqb_neq in Hne; rewrite String.eqb_sym, Hne.
    + by rewrite IH.
Qed.

(** C9: on a response whose [objects] is an array, a page count equal to
    1 sets [objectCount] to the number of objects and changes no other
    property, and any other page count leaves the response as it is;
    where the page count cannot be compared at all the processor throws
    and nothing is written. *)
Theorem queryResponseProcessor_objectCount props response elems :
  assoc "objects" props = Some (Arr elems) →
  match eq_num (default Undefined (assoc "pageCount" props)) (of_Z 1) with
  | Some true =>
      ∃ props',
        _queryResponseProcessor (Obj props) response = Some (Obj props')
        ∧ assoc "objectCount" props' = Some (Num (of_nat (length elems)))
        ∧ ∀ k, k ≠ "objectCount" → assoc k props' = assoc k props
  | Some false => _queryResponseProcessor (Obj props) response = Some (Obj props)
  | None => _queryResponseProcessor (Obj props) response = None
  end.
Proof.
  intros Hobjects. unfold _queryResponseProcessor.
  cbn [get mbind option_bind].
  destruct (eq_num _ _) as [[]|]; cbn [mbind option_bind]; [|done..].
  rewrite Hobjects. simpl.
  eexists. split; [done|]. split.
  - apply assoc_assign_eq.
  - intros k Hk. by apply assoc_assign_ne.
Qed.

Lemma queryResponseProcessor_objectCount_witness :
  let single :=
    [("pageCount", Str "1"); ("objectCount", Num (of_Z 0));
     ("objects", Arr [Null; Null; Null])] in
  let more :=
    [("pageCount", Num (of_Z 2)); ("objectCount", Num (of_Z 40));
     ("objects", Arr [Null; Null; Null])] in
  let odd :=
    [("pageCount", Obj [("toString", Num (of_Z 1))]);
     ("objectCount", Num (of_Z 0)); ("objects", Arr [Null; Null; Null])] in
  (∃ props',
     _queryResponseProcessor (Obj single) Undefined = Some (Obj props')
     ∧ assoc "objectCount" props' = Some (Num (of_nat 3))
     ∧ ∀ k, k ≠ "objectCount" → assoc k props' = assoc k single)
  ∧ _queryResponseProcessor (Obj more) Undefined = Some (Obj more)
  ∧ _queryResponseProcessor (Obj odd) Undefined = None.
Proof.
  intros single more odd. split_and!.
  - exact (queryResponseProcessor_objectCount single Undefined
             [Null; Null; Null] eq_refl).
  - exact (queryResponseProcessor_objectCount more Undefined
             [Null; Null; Null] eq_refl).
  - exact (queryResponseProcessor_objectCount odd Undefined
             [Null; Null; Null] eq_refl).
Defined.

End QueryProps.

(* ===================================================================== *)
(** * Properties of the request orchestrator *)
(* ===================================================================== *)

Module RequestProps.
Import JS Request.
Local Open Scope nat_scope.

Section Run.
Variable p : parameters.

Lemma count_app f (a b : list event) : count f (a ++ b) = count f a + count f b.
Proof. induction a as [|e a IH]; simpl; [done|]. rewrite IH. lia. Qed.

Lemma run_idle replies st events :
  run p replies (st, events, None) = (st, events).
Proof. by destruct replies. Qed.

Lemma run_pending r replies st events x :
  run p (r :: replies) (st, events, Some x) =
  ((run p replies (answer p x r st)).1,
   events ++ (run p replies (answer p x r st)).2).
Proof. simpl. by destruct (run p replies (answer p x r st)). Qed.

Lemma run_events replies st events pending :
  (run p replies (st, events, pending)).2 =
  events ++ (run p replies (st, [], pending)).2.
Proof.
  destruct pending as [x|]; [|by rewrite !run_idle, app_nil_r].
  destruct replies as [|r replies]; [by rewrite app_nil_r|].
  by rewrite !run_pending.
Qed.

Lemma run_split replies (s : step) :
  (run p replies s).2 = s.1.2 ++ rest_of p replies s.
Proof. destruct s as [[st events] pending]. apply run_events. Qed.

Lemma rest_of_idle replies st events : rest_of p replies (st, events, None) = [].
Proof. unfold rest_of. cbn [fst snd]. by rewrite run_idle. Qed.

Lemma rest_of_pending r replies st events x :
  rest_of p (r :: replies) (st, events, Some x) =
  (answer p x r st).1.2 ++ rest_of p replies (answer p x r st).
Proof. unfold rest_of. cbn [fst snd]. rewrite run_pending. cbn [snd app]. apply run_split. Qed.

Lemma rest_of_unanswered st events x : rest_of p [] (st, events, Some x) = [].
Proof. done. Qed.

(** ** The latch *)

Lemma logOn_latch onDemand st : m_loginAttempted (logOn p onDemand st).1.1 = true.
Proof. done. Qed.

(** A step leaves the latch set when it was set, and sets it exactly when
    it hands a login over to the transport. *)
Lemma answer_latch x r st :
  m_loginAttempted (answer p x r st).1.1 =
  m_loginAttempted st || (0 <? logins (answer p x r st).1.2)%nat.
Proof.
  destruct r as [d resp|code text], x as [[] []], st as [la al lon loff res ok];
    cbn [answer load_callback error_callback];
    unfold m_onLoad, m_onError, m_loginOnDemandOnLoad, m_logOffDone, m_onError,
      m_returnLoad, m_returnError, logOff, logOn, go;
    repeat (case_match; simpl in * ); subst; simpl;
    rewrite ?orb_false_r, ?orb_true_r; try done.
Qed.

(** ** At most one login, at most one replay *)

(** What may still happen, by the callbacks pending and the latch:
    - after a login handed over on demand, no login and one call at most;
    - with the latch set and another callback pending, neither;
    - else one login at most, and no call without a login. *)
Lemma rest_bounds replies : ∀ st events x,
  let tr := rest_of p replies (st, events, Some x) in
  (load_callback x ≠ cb_m_loginOnDemandOnLoad →
     logins tr ≤ 1 ∧ calls tr ≤ logins tr)
  ∧ (m_loginAttempted st = true → logins tr = 0 ∧ calls tr ≤ 1)
  ∧ (m_loginAttempted st = true →
     load_callback x ≠ cb_m_loginOnDemandOnLoad →
     logins tr = 0 ∧ calls tr = 0).
Proof.
  induction replies as [|r replies IH]; intros st events x tr; subst tr.
  { unfold rest_of. simpl. unfold logins, calls. simpl. lia. }
  rewrite rest_of_pending. unfold logins, calls in *. rewrite !count_app.
  destruct r as [d resp|code text], x as [[] []], st as [[] al lon loff res ok];
    cbn [answer load_callback error_callback];
    unfold m_onLoad, m_onError, m_loginOnDemandOnLoad, m_logOffDone, m_onError,
      m_returnLoad, m_returnError, logOff, logOn, go;
    repeat (case_match; simpl in * ); subst; simpl;
    rewrite ?rest_of_idle; simpl;
    repeat match goal with
    | |- context [rest_of p replies (?s, ?e, Some ?y)] =>
        let H := fresh "H" in
        pose proof (IH s e y) as H; simpl in H;
        generalize dependent (rest_of p replies (s, e, Some y)); intros
    end;
    repeat split; intros; try congruence; try lia;
    repeat match goal with
    | H : _ ∧ _ |- _ => destruct H
    | H : ?a = ?a → _ |- _ => specialize (H eq_refl)
    | H : false = true → _ |- _ => clear H
    | H : ?a ≠ ?b → _ |- _ =>
        let N := fresh in assert (N : a ≠ b) by discriminate; specialize (H N)
    end; try lia.
Qed.

End Run.

(** C1: whatever the transport answers, a request started by [go] hands
    over at most one login, and its call at most once more than it logs
    in: at most one replay.  [logOn] sets the latch as it hands the login
    over, and a step never clears it. *)
Theorem at_most_one_login p replies :
  logins (request_go p replies) ≤ 1
  ∧ calls (request_go p replies) ≤ 1 + logins (request_go p replies)
  ∧ (∀ onDemand st, m_loginAttempted (logOn p onDemand st).1.1 = true)
  ∧ (∀ x r st,
       m_loginAttempted (answer p x r st).1.1 =
       m_loginAttempted st || (0 <? logins (answer p x r st).1.2)%nat).
Proof.
  set (x0 := go_exchange).
  assert (logins (request_go p replies) = logins (rest_of p replies (go p initial))
          ∧ calls (request_go p replies)
            = 1 + calls (rest_of p replies (go p initial))) as [-> ->].
  { unfold request_go. rewrite run_split. unfold logins, calls.
    by rewrite !count_app. }
  destruct (rest_bounds p replies initial (go p initial).1.2 x0)
    as ([H1 H2] & _ & _); [done|].
  change (initial, (go p initial).1.2, Some x0) with (go p initial) in H1, H2.
  split_and!; [lia|lia|apply logOn_latch|apply answer_latch].
Qed.

(** ** Automatic log off *)

Section AutoLogOff.
Variable p : parameters.

(** On the success path the outcome captured before the log off is the
    one delivered, whatever the log off answers, stamped with
    [loggedOff = true]. *)
Lemma logOff_after_success st responseData response processed status r replies :
  match responseProcessor p with
  | Some f => f responseData response
  | None => Some responseData
  end = Some processed →
  get "status" response = Some status →
  m_autoLogOff st = true →
  rest_of p (Loaded responseData response :: r :: replies)
          (st, [], Some go_exchange)
  = logOff_exchange p ::
    (if onLoad p
     then [OnLoad (Obj [("data", processed); ("response", response);
                        ("statusCode", status);
                        ("loggedOn", Bool (m_loggedOn st));
                        ("loggedOff", Bool true)])]
     else []).
Proof.
  intros Hprocessed Hstatus Hauto.
  rewrite rest_of_pending. cbn [answer go_exchange load_callback].
  unfold m_onLoad. rewrite Hprocessed, Hstatus. simpl. rewrite Hauto.
  unfold logOff. cbn [fst snd app]. rewrite rest_of_pending.
  destruct r; simpl; unfold m_logOffDone, m_returnLoad; simpl;
    rewrite rest_of_idle, app_nil_r; by destruct (onLoad p).
Qed.

(** On the failure path the outcome captured before the log off is the
    one delivered too, but as it was captured: [m_returnError] stamps
    nothing on it. *)
Lemma logOff_after_failure st statusCode errorText r replies :
  m_loginAttempted st = true →
  m_resultIsSuccess st = false →
  m_autoLogOff st = true →
  rest_of p (Failed statusCode errorText :: r :: replies)
          (st, [], Some go_exchange)
  = logOff_exchange p ::
    (if onError p
     then [OnError (Obj [("statusCode", statusCode); ("errorText", errorText)])]
     else []).
Proof.
  intros Hlatch Hsuccess Hauto.
  rewrite rest_of_pending. cbn [answer go_exchange error_callback].
  unfold m_onError. rewrite Hlatch, andb_false_r. simpl. rewrite Hauto.
  unfold logOff. cbn [fst snd app]. rewrite rest_of_pending.
  destruct r; simpl; unfold m_logOffDone, m_returnError; simpl;
    rewrite Hsuccess, rest_of_idle, app_nil_r; by destruct (onError p).
Qed.

End AutoLogOff.

(** C4, at the failing input.  Login on demand with automatic log off: the
    call is refused, the login is accepted, the replay fails with status
    500 and the log off succeeds.  The failure captured before the log off
    reaches [onError], but [loggedOff] is not on it although the request
    did log off. *)
Theorem autoLogOff_failure_not_stamped :
  let result :=
    Obj [("statusCode", Num (of_Z 500));
         ("errorText", Str "Internal Server Error (500)")] in
    request_go (sample_parameters true true)
               [forbidden; login_accepted; server_error; logged_off]
    = [Ajax ByGo "http://server/ServiceDesk.WebAccess/object/open.rails" GET
            (Obj [("class_name", Str "Incident"); ("key", Str "42")]) true;
       Ajax ByLogOn "http://server/ServiceDesk.WebAccess/wd/Logon/Logon.rails"
            POST (Obj [("Ecom_User_ID", Str "sa");
                       ("Ecom_User_Password", Str "secret")]) true;
       Ajax ByGo "http://server/ServiceDesk.WebAccess/object/open.rails" GET
            (Obj [("class_name", Str "Incident"); ("key", Str "42")]) true;
       Ajax ByLogOff "http://server/ServiceDesk.WebAccess/wd/Logon/Logoff.rails"
            POST Null false;
       OnError result]
    ∧ get "loggedOff" result = Some Undefined
    ∧ m_loggedOff
        (run (sample_parameters true true)
             [forbidden; login_accepted; server_error; logged_off]
             (go (sample_parameters true true) initial)).1 = true.
Proof. vm_compute. split_and!; reflexivity. Qed.

(** C5, at the failing input.  A call that fails with status 500: the
    result handed to [onError] carries neither [loggedOn] nor
    [loggedOff]; a call that succeeds carries both. *)
Theorem error_outcome_not_stamped :
  let failure :=
    Obj [("statusCode", Num (of_Z 500));
         ("errorText", Str "Internal Server Error (500)")] in
  let success :=
    Obj [("data", Obj [("name", Str "Printer on fire")]);
         ("response", sample_response);
         ("statusCode", Num (of_Z 200));
         ("loggedOn", Bool false); ("loggedOff", Bool false)] in
    request_go (sample_parameters false false) [server_error]
    = [Ajax ByGo "http://server/ServiceDesk.WebAccess/object/open.rails" GET
            (Obj [("class_name", Str "Incident"); ("key", Str "42")]) true;
       OnError failure]
    ∧ get "loggedOn" failure = Some Undefined
    ∧ get "loggedOff" failure = Some Undefined
    ∧ request_go (sample_parameters false false) [record_opened]
      = [Ajax ByGo "http://server/ServiceDesk.WebAccess/object/open.rails" GET
              (Obj [("class_name", Str "Incident"); ("key", Str "42")]) true;
         OnLoad success]
    ∧ get "loggedOn" success = Some (Bool false)
    ∧ get "loggedOff" success = Some (Bool false).
Proof. vm_compute. split_and!; reflexivity. Qed.

(** C6, as the source has it.  A failure with status 403 that cannot be
    retried and is the outcome of the operation: when no login was
    attempted (login on demand is not configured) the text delivered is
    "Not Logged In"; when a login was attempted already the text of the
    failure is delivered as it is.  An automatic log off, if armed, comes
    first. *)
Theorem unauthorized_error_text p st statusCode errorText r replies :
  loose_eq_num statusCode (of_Z 403) = true →
  m_loginAttempted st || negb (loginOnDemand (connection p)) = true →
  m_resultIsSuccess st = false →
  onError p = true →
  rest_of p (Failed statusCode errorText :: r :: replies)
          (st, [], Some go_exchange)
  = (if m_autoLogOff st then [logOff_exchange p] else []) ++
    [OnError (Obj [("statusCode", statusCode);
                   ("errorText",
                    if m_loginAttempted st then errorText
                    else Str "Not Logged In")])].
Proof.
  intros H403 Hfinal Hsuccess HonError.
  rewrite rest_of_pending. cbn [answer go_exchange error_callback].
  unfold m_onError. rewrite H403.
  destruct (m_loginAttempted st) eqn:Hlatch; simpl in *.
  - destruct (m_autoLogOff st) eqn:Hauto; simpl.
    + unfold logOff. cbn [fst snd app]. rewrite rest_of_pending.
      destruct r; simpl; unfold m_logOffDone, m_returnError; simpl;
        by rewrite Hsuccess, HonError, rest_of_idle.
    + unfold m_returnError. simpl. by rewrite HonError, rest_of_idle.
  - apply negb_true_iff in Hfinal. rewrite Hfinal.
    destruct (m_autoLogOff st) eqn:Hauto; simpl.
    + unfold logOff. cbn [fst snd app]. rewrite rest_of_pending.
      destruct r; simpl; unfold m_logOffDone, m_returnError; simpl;
        by rewrite Hsuccess, HonError, rest_of_idle.
    + unfold m_returnError. simpl. by rewrite HonError, rest_of_idle.
Qed.

Lemma unauthorized_error_text_witness :
  loose_eq_num (Num (of_Z 403)) (of_Z 403) = true
  ∧ m_loginAttempted initial
    || negb (loginOnDemand (connection (sample_parameters false false))) = true
  ∧ m_resultIsSuccess initial = false
  ∧ onError (sample_parameters false false) = true
  ∧ rest_of (sample_parameters false false) [forbidden; logged_off]
            (initial, [], Some go_exchange)
    = [] ++ [OnError (Obj [("statusCode", Num (of_Z 403));
                           ("errorText", Str "Not Logged In")])].
Proof.
  split_and!; [vm_compute; reflexivity..|].
  apply (unauthorized_error_text (sample_parameters false false) initial
           (Num (of_Z 403)) (Str "Forbidden (403)") logged_off []);
    vm_compute; reflexivity.
Defined.

(** C6 as stated does not hold: once the login on demand has been
    attempted, a replay refused with status 403 reaches [onError] with
    the text of the transport, not with "Not Logged In". *)
Lemma unauthorized_replay_keeps_text :
  let result :=
    Obj [("statusCode", Num (of_Z 403)); ("errorText", Str "Forbidden (403)")] in
  last (request_go (sample_parameters true false)
                   [forbidden; login_accepted; forbidden])
  = Some (OnError result)
  ∧ loose_eq_num (default Undefined (get "statusCode" result)) (of_Z 403) = true
  ∧ get "errorText" result = Some (Str "Forbidden (403)")
  ∧ get "errorText" result ≠ Some (Str "Not Logged In").
Proof. vm_compute. split_and!; [reflexivity..|discriminate]. Qed.

(** ** What a request delivers *)

Section Delivered.
Variable p : parameters.

Lemma answer_settled x r st :
  settled (m_result st) →
  settled (m_result (answer p x r st).1.1)
  ∧ ∀ result, OnLoad result ∈ (answer p x r st).1.2 → is_object result.
Proof.
  intros Hst.
  assert (Hobj : ∀ props, settled (Obj props)) by (right; by eexists).
  destruct r as [d resp|code text], x as [[] []], st as [la al lon loff res ok];
    cbn [answer load_callback error_callback];
    unfold m_onLoad, m_onError, m_loginOnDemandOnLoad, m_logOffDone, m_onError,
      m_returnLoad, m_returnError, logOff, logOn, go;
    simpl in Hst;
    repeat (case_match; simpl in * ); subst; simpl;
    (split; [done || (by destruct Hst as [?|[? ?]])|]);
    intros result Hin;
    repeat match goal with
    | H : _ ∈ [] |- _ => by apply elem_of_nil in H
    | H : _ ∈ _ :: _ |- _ => apply elem_of_cons in H as [H|H]
    end; try discriminate;
    destruct Hst as [?|[? ?]]; try discriminate; simplify_eq; by eexists.
Qed.

Lemma rest_of_objects replies : ∀ st events pending result,
  settled (m_result st) →
  OnLoad result ∈ rest_of p replies (st, events, pending) →
  is_object result.
Proof.
  induction replies as [|r replies IH]; intros st events pending result Hst Hin.
  { destruct pending; [|rewrite rest_of_idle in Hin]; by apply elem_of_nil in Hin. }
  destruct pending as [x|]; [|rewrite rest_of_idle in Hin; by apply elem_of_nil in Hin].
  rewrite rest_of_pending in Hin.
  destruct (answer_settled x r st Hst) as [Hst' Hev].
  apply elem_of_app in Hin as [Hin|Hin]; [by apply Hev|].
  destruct (answer p x r st) as [[st' events'] pending']. by eapply IH.
Qed.

Lemma request_go_objects replies result :
  OnLoad result ∈ request_go p replies → is_object result.
Proof.
  unfold request_go. rewrite run_split. intros Hin.
  apply elem_of_app in Hin as [Hin|Hin].
  - apply list_elem_of_singleton in Hin. discriminate.
  - eapply rest_of_objects; [|exact Hin]. by left.
Qed.

End Delivered.

End RequestProps.

(* ===================================================================== *)
(** * Properties of [getAttributesForObject] *)
(* ===================================================================== *)

Module MetadataProps.
Import JS Metadata.
Local Open Scope nat_scope.

(** ** Strict equality *)

Lemma num_eqb_same a b : num_eqb a b = true ↔ same_number a b.
Proof.
  unfold num_eqb, SFeqb.
  destruct a as [[]|[]| |[] m1 e1], b as [[]|[]| |[] m2 e2]; simpl;
    try tauto; try (split; [discriminate|by intros ?]);
    try (split; [discriminate|by intros (? & _)]).
  all: destruct (Z.compare_spec e1 e2) as [He|He|He];
    try (split; [discriminate|intros (H1 & H2 & H3); lia]).
  all: fold (Pos.compare m1 m2); destruct (Pos.compare_spec m1 m2) as [Hm|Hm|Hm];
    simpl; try (split; [discriminate|intros (H1 & H2 & H3); lia]); tauto.
Qed.

Lemma same_number_sym a b : same_number a b → same_number b a.
Proof. destruct a, b; simpl; intuition congruence. Qed.

Lemma same_number_trans a b c : same_number a b → same_number b c → same_number a c.
Proof. destruct a, b, c; simpl; intuition congruence. Qed.

Lemma strict_eq_sym a b : strict_eq a b = strict_eq b a.
Proof.
  destruct a, b; simpl; try done.
  - by destruct b, b0.
  - apply eq_true_iff_eq. rewrite !num_eqb_same. split; apply same_number_sym.
  - apply String.eqb_sym.
Qed.

Lemma strict_eq_trans a b c :
  strict_eq a b = true → strict_eq b c = true → strict_eq a c = true.
Proof.
  destruct a, b; simpl; try done; destruct c; simpl; try done.
  - by intros ->%eqb_prop.
  - rewrite !num_eqb_same. apply same_number_trans.
  - by intros ->%String.eqb_eq.
Qed.

Lemma not_indexed_true names v :
  not_indexed names v = true ↔ ∀ n, n ∈ names → strict_eq n v = false.
Proof.
  unfold not_indexed. rewrite forallb_forall. split.
  - intros H n Hn. apply list_elem_of_In, H in Hn. by apply negb_true_iff.
  - intros H n Hn. apply negb_true_iff, H. by apply list_elem_of_In.
Qed.

Lemma not_indexed_false names v :
  not_indexed names v = false ↔ ∃ n, n ∈ names ∧ strict_eq n v = true.
Proof.
  split.
  - intros H. induction names as [|m names IH]; [done|].
    simpl in H. apply andb_false_iff in H as [H|H].
    + exists m. split; [by left|]. by apply negb_false_iff.
    + destruct (IH H) as (n & ? & ?). exists n. split; [by right|done].
  - intros (n & Hn & Heq). apply not_true_iff_false. intros H.
    rewrite not_indexed_true in H. by rewrite (H n Hn) in Heq.
Qed.

(** ** The loop over the rows *)

Lemma get_not_null k item v : get k item = Some v → ∀ k', is_Some (get k' item).
Proof. destruct item; simpl; intros; by eauto. Qed.

Lemma attribute_of_name item attributes a n :
  attribute_of item attributes = Some a →
  get "Name" attributes = Some n →
  name_of a = n.
Proof.
  unfold attribute_of. intros Ha Hn.
  destruct (get "value" item); cbn [mbind option_bind] in Ha; [|discriminate].
  rewrite Hn in Ha. cbn [mbind option_bind] in Ha.
  destruct (get "name" item); cbn [mbind option_bind] in Ha; [|discriminate].
  destruct (get "DataType" attributes); cbn [mbind option_bind] in Ha;
    [|discriminate].
  destruct (get "RelatedClassType.Guid" attributes);
    cbn [mbind option_bind] in Ha; [|discriminate].
  destruct (get "IsName" attributes) as [isName|];
    cbn [mbind option_bind] in Ha; [|discriminate].
  destruct (eq_str isName "True"); cbn [mbind option_bind] in Ha;
    [|discriminate].
  destruct (get "PKeyNumber" attributes) as [pKeyNumber|];
    cbn [mbind option_bind] in Ha; [|discriminate].
  destruct (eq_str pKeyNumber "1"); cbn [mbind option_bind] in Ha;
    [|discriminate].
  by injection Ha as <-.
Qed.

Lemma snoc_split {A} (seen : list A) x before item after :
  seen ++ [x] = before ++ item :: after →
  (after = [] ∧ before = seen ∧ item = x)
  ∨ ∃ after', after = after' ++ [x] ∧ seen = before ++ item :: after'.
Proof.
  destruct after as [|y after _] using rev_ind; intros Heq.
  - apply app_inj_tail in Heq as [-> ->]. by left.
  - right. exists after. change (item :: after ++ [y]) with ((item :: after) ++ [y]) in Heq.
    rewrite app_assoc in Heq. by apply app_inj_tail in Heq as [-> ->].
Qed.

Lemma accumulated_nil : accumulated [] [] [].
Proof.
  split; [done| | | |].
  - intros a Ha. by apply elem_of_nil in Ha.
  - intros i j a b _ Ha. by rewrite lookup_nil in Ha.
  - intros item n v Hin. by apply elem_of_nil in Hin.
  - intros before item after n Heq. by destruct before.
Qed.

Lemma from_first_more seen a item : from_first seen a → from_first (seen ++ [item]) a.
Proof.
  intros (before & item0 & after & attributes & -> & ?).
  exists before, item0, (after ++ [item]), attributes.
  split; [by rewrite <- app_assoc|done].
Qed.

Lemma distinct_snoc array a :
  distinct array →
  (∀ b, b ∈ array → strict_eq (name_of b) (name_of a) = false) →
  distinct (array ++ [a]).
Proof.
  intros Hd Hnew i j x y Hij Hx Hy.
  apply lookup_snoc_Some in Hx as [[Hi Hx]|[Hi <-]];
    apply lookup_snoc_Some in Hy as [[Hj Hy]|[Hj <-]].
  - by eapply Hd.
  - apply Hnew. by eapply list_elem_of_lookup_2.
  - rewrite strict_eq_sym. apply Hnew. by eapply list_elem_of_lookup_2.
  - lia.
Qed.

Lemma accumulated_kept seen array names item attributes n :
  accumulated seen array names →
  get "attributes" item = Some attributes →
  get "Name" attributes = Some n →
  not_indexed names n = false →
  accumulated (seen ++ [item]) array names.
Proof.
  intros [Hnames Hfirst Hdistinct Hindexed Hretained] Hattributes Hn Hfound.
  assert (Hrow0 : row_name item = Some n).
  { unfold row_name. by rewrite Hattributes. }
  split; [done| |done| |].
  - intros a Ha. by apply from_first_more, Hfirst.
  - intros item' n' v Hin Hrow Heq.
    apply elem_of_app in Hin as [Hin|Hin]; [by eapply Hindexed|].
    apply list_elem_of_singleton in Hin as ->.
    assert (n' = n) as -> by congruence.
    apply not_indexed_false in Hfound as (m & Hm & Hmn).
    apply not_indexed_false. exists m. split; [done|].
    by eapply strict_eq_trans.
  - intros before item' after n' Heq Hrow Hfresh.
    apply snoc_split in Heq as [(-> & -> & ->)|(after' & -> & ->)];
      [|by eapply Hretained].
    assert (n' = n) as -> by congruence.
    apply not_indexed_false in Hfound as (m & Hm & Hmn).
    rewrite Hnames in Hm. apply list_elem_of_fmap in Hm as (b & -> & Hb).
    destruct (Hfirst b Hb) as (before & row & after & ? & -> & _ & _ & Hrow' & _).
    rewrite (Hfresh row (name_of b)) in Hmn; [done| |done].
    apply elem_of_app. right. by left.
Qed.

Lemma accumulated_pushed seen array names item attributes n a :
  accumulated seen array names →
  get "attributes" item = Some attributes →
  get "Name" attributes = Some n →
  attribute_of item attributes = Some a →
  not_indexed names n = true →
  accumulated (seen ++ [item]) (array ++ [a]) (names ++ [n]).
Proof.
  intros [Hnames Hfirst Hdistinct Hindexed Hretained] Hattributes Hn Ha Hnew.
  pose proof (attribute_of_name _ _ _ _ Ha Hn) as Hname.
  assert (Hrow : row_name item = Some n).
  { unfold row_name. by rewrite Hattributes. }
  split.
  - by rewrite fmap_app, Hnames, <- Hname.
  - intros b Hb. apply elem_of_app in Hb as [Hb|Hb].
    { by apply from_first_more, Hfirst. }
    apply list_elem_of_singleton in Hb as ->.
    exists seen, item, [], attributes. rewrite Hname.
    split_and!; try done.
    intros earlier m Hearlier Hm.
    destruct (strict_eq m n) eqn:Heq; [|done].
    by rewrite (Hindexed earlier m n Hearlier Hm Heq) in Hnew.
  - apply distinct_snoc; [done|].
    intros b Hb. rewrite Hname.
    apply not_indexed_true with (n := name_of b) in Hnew; [done|].
    rewrite Hnames. by apply list_elem_of_fmap_2.
  - intros item' n' v Hin Hrow' Heq.
    apply not_indexed_false.
    apply elem_of_app in Hin as [Hin|Hin].
    + apply (Hindexed _ _ _ Hin Hrow'), not_indexed_false in Heq
        as (m & Hm & Hmv).
      exists m. split; [|done]. apply elem_of_app. by left.
    + apply list_elem_of_singleton in Hin as ->.
      assert (n' = n) as -> by congruence.
      exists n. split; [|done]. apply elem_of_app. right. by left.
  - intros before item' after n' Heq Hrow' Hfresh.
    apply snoc_split in Heq as [(-> & -> & ->)|(after' & -> & ->)].
    + exists a, attributes. split; [|done]. apply elem_of_app. right. by left.
    + destruct (Hretained _ _ _ _ eq_refl Hrow' Hfresh) as (b & ? & Hb & ?).
      exists b. eexists. split; [|done]. apply elem_of_app. by left.
Qed.

Lemma rows_accumulated items : ∀ seen array names parent array' names' parent',
  accumulated seen array names →
  rows items array names parent = Some (array', names', parent') →
  accumulated (seen ++ items) array' names'.
Proof.
  induction items as [|item items IH];
    intros seen array names parent array' names' parent' Hacc Hrows.
  { simpl in Hrows. injection Hrows as <- <- <-. by rewrite app_nil_r. }
  cbn [rows] in Hrows.
  destruct (get "attributes" item) as [attributes|] eqn:Hattributes;
    [|discriminate].
  simpl in Hrows.
  destruct (get "Name" attributes) as [n|] eqn:Hn; [|discriminate].
  simpl in Hrows.
  destruct (not_indexed names n) eqn:Hnew.
  - destruct (attribute_of item attributes) as [a|] eqn:Ha; [|discriminate].
    simpl in Hrows.
    destruct (get "Class.SuperClassType.Guid" attributes); [|discriminate].
    simpl in Hrows.
    replace (seen ++ item :: items) with ((seen ++ [item]) ++ items)
      by (by rewrite <- app_assoc).
    eapply IH; [|exact Hrows]. by eapply accumulated_pushed.
  - simpl in Hrows.
    destruct (get "Class.SuperClassType.Guid" attributes); [|discriminate].
    simpl in Hrows.
    replace (seen ++ item :: items) with ((seen ++ [item]) ++ items)
      by (by rewrite <- app_assoc).
    eapply IH; [|exact Hrows]. by eapply accumulated_kept.
Qed.

Lemma rows_parent items : ∀ array names parent array' names' parent',
  rows items array names parent = Some (array', names', parent') →
  parent_from parent items = Some parent'.
Proof.
  induction items as [|item items IH];
    intros array names parent array' names' parent' Hrows.
  { simpl in Hrows. by injection Hrows as <- <- <-. }
  cbn [rows] in Hrows.
  destruct (get "attributes" item) as [attributes|] eqn:Hattributes;
    [|discriminate].
  simpl in Hrows.
  destruct (get "Name" attributes) as [n|] eqn:Hn; [|discriminate].
  simpl in Hrows.
  destruct (if not_indexed names n then _ else _) as [[array1 names1]|];
    [|discriminate].
  simpl in Hrows.
  destruct (get "Class.SuperClassType.Guid" attributes) as [parent1|] eqn:Hp;
    [|discriminate].
  simpl in Hrows. apply IH in Hrows.
  unfold parent_from in *. destruct items as [|item' items].
  - simpl in *. rewrite Hattributes. simpl. congruence.
  - rewrite last_cons_cons.
    destruct (last (item' :: items)) eqn:Hlast; [done|].
    by apply last_None in Hlast.
Qed.

(** ** Sorting *)

Lemma insert_by_title_Permutation a sorted :
  insert_by_title a sorted ≡ₚ a :: sorted.
Proof.
  induction sorted as [|b sorted IH]; [done|]. simpl.
  destruct (decide (title_le a b)); [done|].
  rewrite IH. apply Permutation_swap.
Qed.

Lemma sorted_Permutation array : foldr insert_by_title [] array ≡ₚ array.
Proof.
  induction array as [|a array IH]; [done|]. simpl.
  by rewrite insert_by_title_Permutation, IH.
Qed.

Lemma sort_by_title_Permutation array sorted :
  sort_by_title array = Some sorted → sorted ≡ₚ array.
Proof.
  unfold sort_by_title. destruct array as [|a [|b array]];
    [by intros [= <-]..|].
  case_match; [|discriminate]. intros [= <-].
  apply (sorted_Permutation (a :: b :: array)).
Qed.

Lemma sort_by_title_titled array :
  Forall titled array → is_Some (sort_by_title array).
Proof.
  intros Hall. unfold sort_by_title. destruct array as [|a [|b array]]; [by eauto..|].
  assert (forallb (λ a, bool_decide (is_Some (title_key a))) (a :: b :: array) = true)
    as ->; [|by eauto].
  apply forallb_forall. intros x Hx%list_elem_of_In.
  apply bool_decide_eq_true_2. by eapply Forall_forall in Hall.
Qed.

Lemma distinct_Permutation array array' :
  array' ≡ₚ array → distinct array → distinct array'.
Proof.
  intros (_ & f & Hinj & Hf)%Permutation_inj Hd i j a b Hij Ha Hb.
  rewrite Hf in Ha, Hb. eapply Hd; [|done..].
  intros Heq. by apply Hij, Hinj.
Qed.

(** ** The traversal *)

Section Traversal.
Variable connection : connectionInfo.
Variable parameters : parameters.

Lemma delivered_OnLoad events result :
  delivered events = ToOnLoad result → Request.OnLoad result ∈ events.
Proof.
  induction events as [|e events IH]; [done|].
  destruct e; simpl; intros H; try discriminate.
  - right. by apply IH.
  - injection H as ->. by left.
Qed.

Lemma runQuery_object queryData replies result :
  runQuery connection parameters queryData replies = ToOnLoad result →
  ∃ props, result = Obj props.
Proof.
  unfold runQuery. intros H%delivered_OnLoad.
  by eapply RequestProps.request_go_objects.
Qed.

Lemma get_put_data x result props :
  result = Obj props → get "data" (put "data" x result) = Some x.
Proof. intros ->. simpl. by rewrite QueryProps.assoc_assign_eq. Qed.

Lemma parent_after_from items : parent_after items = parent_from (Str "") items.
Proof. done. Qed.

(** A result that reaches the caller holds, in some order, the array
    accumulated over the rows visited. *)
Lemma getAttributes_accumulated script :
  ∀ seen array names objectGuid result,
  accumulated seen array names →
  Load result ∈ getAttributes connection parameters script array names objectGuid →
  ∃ attributes array' names',
    get "data" result = Some (Obj [("attributes", Arr attributes)])
    ∧ attributes ≡ₚ array'
    ∧ accumulated (seen ++ visited connection parameters script objectGuid)
                  array' names'.
Proof.
  induction script as [|replies script IH];
    intros seen array names objectGuid result Hacc Hin.
  { simpl in Hin. apply list_elem_of_singleton in Hin. discriminate. }
  cbn [getAttributes] in Hin.
  apply elem_of_cons in Hin as [Hin|Hin]; [discriminate|].
  cbn [visited]. unfold report.
  destruct (runQuery _ _ _ replies) as [result0| | |] eqn:Hquery;
    try (apply list_elem_of_singleton in Hin; discriminate);
    try (by apply elem_of_nil in Hin).
  destruct (runQuery_object _ _ _ Hquery) as [props0 Hresult0].
  unfold getAttributesOnLoad in Hin. unfold items_in.
  destruct (get "data" result0) as [data|]; simpl in Hin |- *;
    [|apply list_elem_of_singleton in Hin; discriminate].
  destruct (get "objects" data) as [objects|]; simpl in Hin |- *;
    [|apply list_elem_of_singleton in Hin; discriminate].
  destruct (loop_items objects) as [items|]; simpl in Hin |- *;
    [|apply list_elem_of_singleton in Hin; discriminate].
  destruct (rows items array names (Str "")) as [[[array1 names1] parent1]|]
    eqn:Hrows; [|apply list_elem_of_singleton in Hin; discriminate].
  pose proof (rows_parent _ _ _ _ _ _ _ Hrows) as Hparent.
  rewrite <- parent_after_from in Hparent.
  pose proof (rows_accumulated _ _ _ _ _ _ _ _ Hacc Hrows) as Hacc1.
  simpl. rewrite Hparent. simpl.
  destruct (eq_str parent1 "") as [[]|] eqn:Hmore;
    [| |apply list_elem_of_singleton in Hin; discriminate].
  - rewrite app_nil_r.
    destruct (sort_by_title array1) as [sorted|] eqn:Hsort;
      [|apply list_elem_of_singleton in Hin; discriminate].
    destruct (onLoad parameters);
      apply list_elem_of_singleton in Hin; [|discriminate].
    injection Hin as ->.
    exists sorted, array1, names1. split_and!; [|by eapply sort_by_title_Permutation|done].
    by eapply get_put_data.
  - rewrite app_assoc. by eapply IH.
Qed.

End Traversal.

(** ** Chains *)

Lemma row_ok_gets item :
  row_ok item = true →
  ∃ props title,
    get "attributes" item = Some (Obj props)
    ∧ get "name" item = Some (Str title)
    ∧ raises (default Undefined (assoc "IsName" props)) = false
    ∧ raises (default Undefined (assoc "PKeyNumber" props)) = false.
Proof.
  unfold row_ok. intros H.
  destruct (get "attributes" item) as [[]|]; try discriminate.
  destruct (get "name" item) as [[]|]; try discriminate.
  apply andb_true_iff in H as [?%negb_true_iff ?%negb_true_iff].
  by eauto 6.
Qed.

Lemma attribute_of_titled item props title :
  get "attributes" item = Some (Obj props) →
  get "name" item = Some (Str title) →
  raises (default Undefined (assoc "IsName" props)) = false →
  raises (default Undefined (assoc "PKeyNumber" props)) = false →
  ∃ a, attribute_of item (Obj props) = Some a ∧ titled a.
Proof.
  intros Hattributes Htitle HisName HpKeyNumber. unfold attribute_of, eq_str.
  destruct (get_not_null _ _ _ Htitle "value") as [guid ->].
  rewrite Htitle. cbn [get mbind option_bind].
  rewrite HisName, HpKeyNumber. cbn [mbind option_bind].
  eexists. split; [done|].
  unfold titled, title_key. simpl. by eauto.
Qed.

Lemma rows_titled items : ∀ array names parent,
  Forall (λ item, row_ok item = true) items →
  Forall titled array →
  ∃ array' names' parent',
    rows items array names parent = Some (array', names', parent')
    ∧ Forall titled array'.
Proof.
  induction items as [|item items IH]; intros array names parent Hitems Harray.
  { simpl. by eauto. }
  apply Forall_cons in Hitems as [Hitem Hitems].
  destruct (row_ok_gets _ Hitem)
    as (props & title & Hattributes & Htitle & HisName & HpKeyNumber).
  destruct (attribute_of_titled _ _ _ Hattributes Htitle HisName HpKeyNumber)
    as (a & Ha & Htitled).
  cbn [rows]. rewrite Hattributes. simpl. rewrite Ha.
  destruct (not_indexed names _); simpl; apply IH; try done.
  apply Forall_app. split; [done|]. by apply Forall_singleton.
Qed.

Section Chain.
Variable connection : connectionInfo.
Variable parameters : parameters.
Hypothesis caller_listens : onLoad parameters = true.

Lemma getAttributes_chain script : ∀ array names objectGuid,
  Forall titled array →
  is_chain connection parameters script objectGuid = true →
  ∃ queries result,
    getAttributes connection parameters script array names objectGuid
    = queries ++ [Load result]
    ∧ length queries = length script
    ∧ Forall (λ e, is_query e = true) queries.
Proof.
  induction script as [|replies script IH]; intros array names objectGuid Harray Hchain;
    [discriminate|].
  cbn [is_chain] in Hchain.
  destruct (report _ _ _ replies) as [[items parent]|] eqn:Hreport; [|discriminate].
  apply andb_true_iff in Hchain as [Hitems Hchain].
  unfold report in Hreport.
  destruct (runQuery _ _ _ replies) as [result0| | |] eqn:Hquery; try discriminate.
  unfold items_in in Hreport.
  cbn [getAttributes]. rewrite Hquery. unfold getAttributesOnLoad.
  destruct (get "data" result0) as [data|]; simpl in Hreport |- *; [|discriminate].
  destruct (get "objects" data) as [objects|]; simpl in Hreport |- *; [|discriminate].
  destruct (loop_items objects) as [items'|]; simpl in Hreport |- *; [|discriminate].
  destruct (parent_after items') as [parent'|] eqn:Hparent; simpl in Hreport;
    [|discriminate].
  injection Hreport as -> ->.
  assert (Hrows_ok : Forall (λ item, row_ok item = true) items).
  { apply Forall_forall. intros item Hitem.
    rewrite forallb_forall in Hitems. by apply Hitems, list_elem_of_In. }
  destruct (rows_titled items array names (Str "") Hrows_ok Harray)
    as (array1 & names1 & parent1 & Hrows & Harray1).
  rewrite Hrows.
  pose proof (rows_parent _ _ _ _ _ _ _ Hrows) as Hparent1.
  rewrite <- parent_after_from, Hparent in Hparent1. injection Hparent1 as <-.
  destruct script as [|replies' script],
           (eq_str parent "") as [root|]; try discriminate.
  - rewrite Hchain.
    destruct (sort_by_title_titled _ Harray1) as [sorted ->].
    rewrite caller_listens.
    eexists [_], _. split; [done|]. split; [done|]. by repeat constructor.
  - apply andb_true_iff in Hchain as [->%negb_true_iff Hchain].
    destruct (IH array1 names1 parent Harray1 Hchain)
      as (queries & result & -> & Hlength & Hqueries).
    eexists (_ :: queries), result. split; [done|].
    split; [simpl; by rewrite Hlength|]. by constructor.
Qed.

End Chain.

(** C2: when the answers are those of an inheritance chain of N classes,
    each but the root reporting a parent class guid, the traversal runs
    exactly N queries and then hands one result to the caller, with
    nothing after it. *)
Theorem chain_terminates connection parameters script :
  onLoad parameters = true →
  is_chain connection parameters script (objectGuid parameters) = true →
  ∃ queries result,
    getAttributesForObject connection parameters script
    = queries ++ [Load result]
    ∧ length queries = length script
    ∧ Forall (λ e, is_query e = true) queries.
Proof.
  intros Hlistens Hchain. unfold getAttributesForObject.
  by apply getAttributes_chain.
Qed.

Lemma chain_terminates_witness :
  onLoad sample_request = true
  ∧ is_chain (sample_connection false false) sample_request sample_script
             (objectGuid sample_request) = true
  ∧ ∃ queries result,
      getAttributesForObject (sample_connection false false) sample_request
                             sample_script
      = queries ++ [Load result]
      ∧ length queries = length sample_script
      ∧ Forall (λ e, is_query e = true) queries.
Proof.
  split; [reflexivity|]. split; [vm_compute; reflexivity|].
  apply chain_terminates; [reflexivity|vm_compute; reflexivity].
Defined.

(** C3: in a result that reaches the caller no two descriptors bear the
    same name, names being compared as [indexOf] compares them, strings
    character by character; each descriptor was built from the first row,
    in the order of the traversal, that bears its name, and each such
    first row has its descriptor in the result. *)
Theorem attributes_deduplicated connection parameters script result :
  Load result ∈ getAttributesForObject connection parameters script →
  let rows := visited connection parameters script (objectGuid parameters) in
  ∃ attributes,
    get "data" result = Some (Obj [("attributes", Arr attributes)])
    ∧ (∀ i j a b, i ≠ j →
         attributes !! i = Some a → attributes !! j = Some b →
         strict_eq (name_of a) (name_of b) = false
         ∧ ∀ s, name_of a = Str s → name_of b ≠ Str s)
    ∧ (∀ a, a ∈ attributes →
         ∃ before item after attrs,
           rows = before ++ item :: after
           ∧ get "attributes" item = Some attrs
           ∧ attribute_of item attrs = Some a
           ∧ row_name item = Some (name_of a)
           ∧ ∀ earlier n, earlier ∈ before → row_name earlier = Some n →
                          strict_eq n (name_of a) = false)
    ∧ (∀ before item after n,
         rows = before ++ item :: after →
         row_name item = Some n →
         (∀ earlier m, earlier ∈ before → row_name earlier = Some m →
                       strict_eq m n = false) →
         ∃ a attrs,
           a ∈ attributes ∧ get "attributes" item = Some attrs
           ∧ attribute_of item attrs = Some a).
Proof.
  intros Hin rows.
  destruct (getAttributes_accumulated connection parameters script
              [] [] [] (objectGuid parameters) result accumulated_nil Hin)
    as (attributes & array & names & Hdata & Hperm & Hacc).
  simpl in Hacc. fold rows in Hacc.
  destruct Hacc as [_ Hfirst Hdistinct _ Hretained].
  exists attributes. split_and!; [done| | |].
  - intros i j a b Hij Ha Hb.
    pose proof (distinct_Permutation array attributes Hperm Hdistinct
                  i j a b Hij Ha Hb) as Hne.
    split; [done|]. intros s Hs Hs'. rewrite Hs, Hs' in Hne. simpl in Hne.
    by rewrite String.eqb_refl in Hne.
  - intros a Ha. apply Hfirst. by rewrite <- Hperm.
  - intros before item after n Hrows Hrow Hfresh.
    destruct (Hretained _ _ _ _ Hrows Hrow Hfresh) as (a & attrs & Ha & ?).
    exists a, attrs. split; [|done]. by rewrite Hperm.
Qed.

Lemma attributes_deduplicated_witness :
  Load sample_loaded
    ∈ getAttributesForObject (sample_connection false false) sample_request
                             sample_script
  ∧ ∃ attributes,
      get "data" sample_loaded = Some (Obj [("attributes", Arr attributes)])
      ∧ (∀ i j a b, i ≠ j →
           attributes !! i = Some a → attributes !! j = Some b →
           strict_eq (name_of a) (name_of b) = false)
      ∧ length attributes = 3.
Proof.
  assert (Hin : Load sample_loaded
                  ∈ getAttributesForObject (sample_connection false false)
                                           sample_request sample_script).
  { apply (list_elem_of_lookup_2 _ 2). vm_compute. reflexivity. }
  split; [exact Hin|].
  destruct (attributes_deduplicated (sample_connection false false)
              sample_request sample_script sample_loaded Hin)
    as (attributes & Hdata & Hdistinct & _).
  exists attributes. split; [exact Hdata|].
  split; [intros i j a b Hij Ha Hb; apply (Hdistinct i j a b Hij Ha Hb)|].
  vm_compute in Hdata. by injection Hdata as <-.
Defined.

End MetadataProps.

(* ===================================================================== *)
(** * Properties of the operations that save *)
(* ===================================================================== *)

Module RecordProps.
Import JS Record_.
Local Open Scope nat_scope.

Lemma alloc_extends o h : h ⊆ (alloc o h).2 ∧ h !! (alloc o h).1 = None.
Proof.
  unfold alloc. simpl.
  assert (h !! fresh (dom h) = None) by apply not_elem_of_dom, is_fresh.
  split; [by apply insert_subseteq|done].
Qed.

Lemma new_for_weaken h h' x : h ⊆ h' → new_for h' x → new_for h x.
Proof.
  intros Hsub Hnew l ->. specialize (Hnew l eq_refl).
  destruct (h !! l) eqn:Hl; [|done].
  by rewrite (lookup_weaken _ _ _ _ Hl Hsub) in Hnew.
Qed.

Lemma thread_extends {A B} (f : A → gmap loc object → B * gmap loc object) l :
  Forall (λ a, ∀ h, h ⊆ (f a h).2) l → ∀ h, h ⊆ (thread f l h).2.
Proof.
  induction 1 as [|a l Ha _ IH]; intros h; simpl; [done|].
  specialize (Ha h). destruct (f a h) as [b h1].
  specialize (IH h1). destruct (thread f l h1) as [bs h2].
  simpl in *. by etrans.
Qed.

Lemma alloc_new o h h0 :
  h0 ⊆ h → h0 ⊆ (alloc o h).2 ∧ new_for h0 (Ref (alloc o h).1).
Proof.
  intros Hsub. destruct (alloc_extends o h) as [Hext Hnew].
  split; [by etrans|].
  apply (new_for_weaken _ h); [done|]. by intros ? [= <-].
Qed.

(** [JSON.parse] only adds objects to the store, and what it returns is
    one of them. *)
Lemma parse_extends : ∀ j h, h ⊆ (parse j h).2 ∧ new_for h (parse j h).1.
Proof.
  fix IH 1. intros [| |b|n|s|elems|props] h; simpl;
    try (split; [done|by intros ? [=]]).
  - assert (Helems : Forall (λ j, ∀ h, h ⊆ (parse j h).2) elems).
    { clear h. induction elems as [|j elems IHelems]; constructor; [|done].
      intros h. apply IH. }
    pose proof (thread_extends parse elems Helems h) as Hsub.
    destruct (thread parse elems h) as [vs h1]. simpl in Hsub.
    exact (alloc_new (Array vs []) h1 h Hsub).
  - set (property := λ (kj : string * value) (h : gmap loc object),
                       let '(v, h) := parse kj.2 h in ((kj.1, v), h)).
    assert (Hprops : Forall (λ kj, ∀ h, h ⊆ (property kj h).2) props).
    { clear h. induction props as [|[k j] props IHprops]; constructor; [|done].
      intros h. unfold property. simpl.
      destruct (IH j h) as [Hj _]. by destruct (parse j h). }
    pose proof (thread_extends property props Hprops h) as Hsub.
    fold property. destruct (thread property props h) as [kvs h1]. simpl in Hsub.
    exact (alloc_new (Object kvs) h1 h Hsub).
Qed.

(** A write through a reference that is new for [h0] leaves the objects of
    [h0] as they are. *)
Lemma write_frame h0 h x k v :
  h0 ⊆ h → new_for h0 x → h0 ⊆ write x k v h.
Proof.
  intros Hsub Hnew. unfold write.
  destruct x as [| | | | | |l]; try done.
  specialize (Hnew l eq_refl).
  destruct (h !! l) as [[props|elems props]|]; [| |done];
    by apply insert_subseteq_r.
Qed.

Lemma write_if_frame h0 h c x k v :
  h0 ⊆ h → new_for h0 x → h0 ⊆ write_if c x k v h.
Proof. unfold write_if. destruct (ref_truthy c); [apply write_frame|done]. Qed.

Ltac frame :=
  repeat match goal with
         | |- _ ⊆ write _ _ _ _ => apply write_frame
         | |- _ ⊆ write_if _ _ _ _ _ => apply write_if_frame
         end; try done.

(** What [_prepareSaveData] returns is an object made during the call, and
    the objects the store held before the call are as they were. *)
Lemma prepareSaveData_frame className isNew attributeValues h :
  h ⊆ (_prepareSaveData className isNew attributeValues h).2
  ∧ ∀ createData,
      (_prepareSaveData className isNew attributeValues h).1 = Some createData →
      new_for h createData.
Proof.
  unfold _prepareSaveData.
  destruct (alloc_new (Object []) h h) as [Hsub Hnew]; [done|].
  destruct (alloc (Object []) h) as [l h1]. simpl in Hsub, Hnew.
  destruct (ref_truthy attributeValues).
  - destruct (stringify _ _ _ _) as [[text|]|]; try (by split).
    destruct (parse_extends text h1) as [Hsub2 Hnew2].
    destruct (parse text h1) as [createData h2]. cbn [fst snd] in *.
    assert (new_for h createData) by by eapply new_for_weaken.
    assert (h ⊆ h2) by by etrans.
    destruct createData; cbn [fst snd];
      (split; [frame|]); by intros ? [= <-].
  - cbn [fst snd]. split; [frame|]. by intros ? [= <-].
Qed.

Lemma operations_frame operation p h :
  operation ∈ operations →
  h ⊆ (operation p h).2
  ∧ ∀ saveData, (operation p h).1 = Saves saveData → new_for h saveData.
Proof.
  unfold operations. rewrite !elem_of_cons, elem_of_nil.
  intros [->|[->|[->|[->|[->|[]]]]]];
    unfold createRecord, createProcessRecord, updateRecord, collectionAction,
      updateAction, _save;
    match goal with
    | |- context [_prepareSaveData ?c ?n ?a h] =>
        destruct (prepareSaveData_frame c n a h) as [Hsub Hnew];
        destruct (_prepareSaveData c n a h) as [[createData|] h1]
    end; cbn [fst snd] in *; try (split; [done|by intros ? [=]]);
    specialize (Hnew _ eq_refl);
    (split; [|by intros ? [= <-]]);
    frame.
Qed.

(** C10: each of the five operations leaves every object the store held
    before the call as it was, the caller's [attributeValues] among them,
    and the object it hands over to be sent is not one of those: the
    properties it adds go to the copy. *)
Theorem attributeValues_not_mutated p h l o :
  h !! l = Some o →
  Forall (λ operation,
            (operation p h).2 !! l = Some o
            ∧ (operation p h).1 ≠ Saves (Ref l))
         operations.
Proof.
  intros Hl. apply Forall_forall. intros operation Hop.
  destruct (operations_frame operation p h Hop) as [Hsub Hnew].
  split; [by eapply lookup_weaken|].
  intros Hsaves. by rewrite (Hnew _ Hsaves l eq_refl) in Hl.
Qed.

Lemma attributeValues_not_mutated_witness :
  sample_store !! 1%positive
  = Some (Object [("Title", RStr "Printer on fire"); ("Notes", Ref 2%positive)])
  ∧ Forall (λ operation,
              (operation sample_save sample_store).2 !! 1%positive
              = Some (Object [("Title", RStr "Printer on fire");
                              ("Notes", Ref 2%positive)])
              ∧ (operation sample_save sample_store).1 ≠ Saves (Ref 1%positive))
           operations.
Proof.
  split; [vm_compute; reflexivity|].
  apply (attributeValues_not_mutated sample_save sample_store 1%positive).
  vm_compute; reflexivity.
Defined.

(** ** The fuel of [stringify] *)

Lemma stack_bound (h : gmap loc object) (stack : list loc) :
  NoDup stack → (∀ l, l ∈ stack → is_Some (h !! l)) → length stack ≤ size h.
Proof.
  intros Hnodup Hstack.
  rewrite <- (size_list_to_set (C := gset loc) stack Hnodup), <- size_dom.
  apply subseteq_size. intros l Hl%elem_of_list_to_set.
  by apply elem_of_dom, Hstack.
Qed.

(** Once the fuel exceeds what the store can ask for, more of it changes
    nothing: on a store of [n] objects [stringify] never runs out of the
    [S n] it is given. *)
Lemma stringify_fuel h : ∀ fuel k stack v,
  NoDup stack → (∀ l, l ∈ stack → is_Some (h !! l)) →
  size h < fuel + length stack →
  stringify (fuel + k) stack h v = stringify fuel stack h v.
Proof.
  induction fuel as [|fuel IH]; intros k stack v Hnodup Hstack Hfuel.
  { pose proof (stack_bound h stack Hnodup Hstack). lia. }
  destruct v as [| | | | | |l]; try done.
  cbn [stringify Nat.add].
  destruct (bool_decide (l ∈ stack)) eqn:Hl; [done|].
  apply bool_decide_eq_false in Hl.
  destruct (h !! l) as [o|] eqn:Ho; [|done].
  assert (Hmember : ∀ v, stringify (fuel + k) (l :: stack) h v
                         = stringify fuel (l :: stack) h v).
  { intros v. apply IH.
    - by constructor.
    - intros l' [->|Hl']%elem_of_cons; [by eauto|by apply Hstack].
    - simpl. lia. }
  destruct o as [props|elems props].
  - erewrite mapM_ext; [done|]. intros [key v]. simpl. by rewrite Hmember.
  - erewrite mapM_ext; [done|]. apply Hmember.
Qed.

Lemma stringify_enough h v k :
  stringify (S (size h) + k) [] h v = stringify (S (size h)) [] h v.
Proof.
  apply stringify_fuel; [constructor| |simpl; lia].
  intros l Hl. by apply elem_of_nil in Hl.
Qed.

End RecordProps.

(* ===================================================================== *)
(** * More properties of the request orchestrator *)
(* ===================================================================== *)

Module StepsProps.
Import JS Steps RequestProps.
Local Open Scope nat_scope.

Lemma same_flags_refl st : same_flags st st.
Proof. by repeat split. Qed.

Lemma same_flags_set_result st props : same_flags st (set_result (Obj props) st).
Proof. repeat split. intros _. right. by eexists. Qed.

Lemma same_flags_set_success st props : same_flags st (set_success (Obj props) st).
Proof. repeat split. intros _. right. by eexists. Qed.

Lemma answer_transition p x r st : transition p x st (answer p x r st).
Proof.
  assert (Hno1 : ∀ e, ¬ logOff_callbacks
                        {| load_callback := cb_m_onLoad; error_callback := e |}).
  { by intros e [? ?]. }
  assert (Hno2 : ∀ e, ¬ logOff_callbacks
                        {| load_callback := cb_m_loginOnDemandOnLoad;
                           error_callback := e |}).
  { by intros e [? ?]. }
  assert (Hno3 : ∀ l, ¬ logOff_callbacks
                        {| load_callback := l; error_callback := cb_m_onError |}).
  { by intros e [? ?]. }
  destruct r as [d resp|code text], x as [[] []];
    cbn [answer load_callback error_callback];
    unfold m_onLoad, m_loginOnDemandOnLoad, m_logOffDone; unfold m_onError;
    repeat case_match; subst;
    try match goal with
        | H : _ && negb _ = true |- _ =>
            apply andb_true_iff in H as [_ ?%negb_true_iff]
        end;
    eauto 6 using transition, same_flags_refl, same_flags_set_result,
      same_flags_set_success.
Qed.

(** ** The shape of a trace *)

Lemma transition_shape p x st s :
  transition p x st s →
  (∃ e y, s.1.2 = [e] ∧ is_exchange e = true ∧ s.2 = Some y)
  ∨ (s.2 = None ∧ length s.1.2 ≤ 1
     ∧ Forall (λ e, is_exchange e = false) s.1.2).
Proof.
  destruct 1; try (left; by eauto).
  - right. simpl. by repeat constructor.
  - right. unfold m_returnLoad.
    destruct (m_result st1), (onLoad p); simpl; by repeat constructor.
  - right. unfold m_returnError.
    destruct (onError p); simpl; by repeat constructor.
Qed.

Lemma rest_shape p replies : ∀ st events x,
  exchanges_then_end (rest_of p replies (st, events, Some x)).
Proof.
  induction replies as [|r replies IH]; intros st events x.
  { exists [], []. split_and!; [done|constructor|simpl; lia|constructor]. }
  rewrite rest_of_pending.
  destruct (transition_shape p x st _ (answer_transition p x r st))
    as [(e & y & Hevents & He & Hpending)|(Hpending & Hlength & Hend)];
    destruct (answer p x r st) as [[st' events'] pending']; simpl in *; subst.
  - destruct (IH st' [e] y) as (exchanges & ending & -> & ? & ? & ?).
    exists (e :: exchanges), ending. split_and!; try done. by constructor.
  - rewrite rest_of_idle, app_nil_r. exists [], events'.
    split_and!; [done|constructor|done|done].
Qed.

Lemma exchanges_then_end_cons e events :
  is_exchange e = true → exchanges_then_end events →
  exchanges_then_end (e :: events).
Proof.
  intros He (exchanges & ending & -> & ? & ? & ?).
  exists (e :: exchanges), ending. split_and!; try done. by constructor.
Qed.

(** X1: whichever way a request is started and whatever the transport
    answers, its trace is a run of exchanges followed by one more event at
    most: a handler of the caller is invoked once at most, and nothing
    happens after it. *)
Theorem single_delivery p replies :
  exchanges_then_end (request_go p replies)
  ∧ exchanges_then_end (request_logOn p replies)
  ∧ exchanges_then_end (request_logOff p replies).
Proof.
  unfold request_go, request_logOn, request_logOff.
  rewrite !run_split. unfold go, logOn, logOff. cbn [fst snd app].
  split_and!; (apply exchanges_then_end_cons; [done|apply rest_shape]).
Qed.

(** ** The flags of a delivered result *)

Lemma get_put_same k v props : get k (put k v (Obj props)) = Some v.
Proof. simpl. by rewrite QueryProps.assoc_assign_eq. Qed.

Lemma get_put_other k k' v props :
  k' ≠ k → get k (put k' v (Obj props)) = get k (Obj props).
Proof. intros Hne. simpl. by rewrite QueryProps.assoc_assign_ne. Qed.

Lemma returnLoad_flags p st result :
  settled (m_result st) →
  OnLoad result ∈ (m_returnLoad p st).1.2 →
  get "loggedOn" result = Some (Bool (m_loggedOn st))
  ∧ get "loggedOff" result = Some (Bool (m_loggedOff st)).
Proof.
  unfold m_returnLoad. intros [Hnull|[props Hobj]] Hin.
  - rewrite Hnull in Hin. simpl in Hin.
    apply list_elem_of_singleton in Hin. discriminate.
  - rewrite Hobj in Hin. cbn [fst snd] in Hin.
    destruct (onLoad p); [|by apply elem_of_nil in Hin].
    apply list_elem_of_singleton in Hin. injection Hin as ->.
    simpl.
    rewrite QueryProps.assoc_assign_ne, !QueryProps.assoc_assign_eq; done.
Qed.

Lemma rest_flags p replies : ∀ st events x result,
  settled (m_result st) →
  OnLoad result ∈ rest_of p replies (st, events, Some x) →
  get "loggedOn" result
  = Some (Bool (m_loggedOn st
                || (0 <? logins (rest_of p replies (st, events, Some x)))))
  ∧ get "loggedOff" result
    = Some (Bool (m_loggedOff st
                  || (0 <? logoffs (rest_of p replies (st, events, Some x))))).
Proof.
  induction replies as [|r replies IH]; intros st events x result Hst Hin.
  { by apply elem_of_nil in Hin. }
  rewrite rest_of_pending in Hin |- *.
  unfold logins, logoffs in *. rewrite !count_app.
  destruct (answer_transition p x r st)
    as [| | st1 _ Hst1 | st1 (_ & _ & Hon & Hoff & Hset) | st1 (_ & _ & Hon & Hoff & Hset)
        | st1 _].
  - rewrite rest_of_idle in Hin. simpl in Hin.
    apply list_elem_of_singleton in Hin. discriminate.
  - unfold logOn in *. cbn [fst snd app] in *.
    apply elem_of_cons in Hin as [Hin|Hin]; [discriminate|].
    destruct (IH (set_logOn st) _ _ _ Hst Hin) as [-> ->].
    simpl. by rewrite orb_true_r.
  - unfold go in *. cbn [fst snd app] in *.
    apply elem_of_cons in Hin as [Hin|Hin]; [discriminate|].
    assert (settled (m_result st1) ∧ m_loggedOn st1 = m_loggedOn st
            ∧ m_loggedOff st1 = m_loggedOff st) as (Hst' & Hon & Hoff).
    { by destruct Hst1 as [->|[-> _]]. }
    destruct (IH _ _ _ _ Hst' Hin) as [-> ->]. simpl. by rewrite Hon, Hoff.
  - unfold logOff in *. cbn [fst snd app] in *.
    apply elem_of_cons in Hin as [Hin|Hin]; [discriminate|].
    destruct (IH (set_loggedOff st1) _ _ _ (Hset Hst) Hin) as [-> ->].
    simpl. by rewrite Hon, orb_true_r.
  - assert ((m_returnLoad p st1).2 = None) as Hnone.
    { unfold m_returnLoad. by destruct (m_result st1). }
    destruct (m_returnLoad p st1) as [[st' events'] pending'] eqn:Hret.
    simpl in Hnone. subst pending'. rewrite rest_of_idle in Hin |- *.
    rewrite app_nil_r in Hin. cbn [fst snd count] in *. rewrite !Nat.add_0_r.
    destruct (returnLoad_flags p st1 result (Hset Hst)) as [-> ->].
    { by rewrite Hret. }
    rewrite Hon, Hoff.
    assert (count is_login events' = 0 ∧ count is_logoff events' = 0) as [-> ->].
    { unfold m_returnLoad in Hret.
      destruct (m_result st1), (onLoad p); by injection Hret as <- <-. }
    simpl. by rewrite !orb_false_r.
  - unfold m_returnError in Hin. cbn [fst snd] in Hin.
    rewrite rest_of_idle, app_nil_r in Hin.
    destruct (onError p); [|by apply elem_of_nil in Hin].
    apply list_elem_of_singleton in Hin. discriminate.
Qed.

(** A handler the caller did not supply is never invoked. *)
Lemma rest_wanted p replies : ∀ st events x e,
  e ∈ rest_of p replies (st, events, Some x) →
  match e with
  | OnLoad _ => onLoad p = true
  | OnError _ => onError p = true
  | _ => True
  end.
Proof.
  induction replies as [|r replies IH]; intros st events x e Hin.
  { by apply elem_of_nil in Hin. }
  rewrite rest_of_pending in Hin.
  destruct (answer_transition p x r st).
  - rewrite rest_of_idle in Hin. simpl in Hin.
    by apply list_elem_of_singleton in Hin as ->.
  - unfold logOn in Hin. cbn [fst snd app] in Hin.
    apply elem_of_cons in Hin as [->|Hin]; [done|]. by eapply IH.
  - unfold go in Hin. cbn [fst snd app] in Hin.
    apply elem_of_cons in Hin as [->|Hin]; [done|]. by eapply IH.
  - unfold logOff in Hin. cbn [fst snd app] in Hin.
    apply elem_of_cons in Hin as [->|Hin]; [done|]. by eapply IH.
  - unfold m_returnLoad in Hin.
    destruct (m_result st1), (onLoad p) eqn:Hp; cbn [fst snd] in Hin;
      rewrite rest_of_idle, app_nil_r in Hin;
      try (by apply elem_of_nil in Hin);
      by apply list_elem_of_singleton in Hin as ->.
  - unfold m_returnError in Hin. cbn [fst snd] in Hin.
    rewrite rest_of_idle, app_nil_r in Hin.
    destruct (onError p) eqn:Hp; [|by apply elem_of_nil in Hin].
    by apply list_elem_of_singleton in Hin as ->.
Qed.

Lemma request_go_wanted p replies e :
  e ∈ request_go p replies →
  match e with
  | OnLoad _ => onLoad p = true
  | OnError _ => onError p = true
  | _ => True
  end.
Proof.
  unfold request_go. rewrite run_split.
  intros [Hin|Hin]%elem_of_app.
  - unfold go in Hin. cbn [fst snd] in Hin.
    by apply list_elem_of_singleton in Hin as ->.
  - by eapply (rest_wanted p replies initial [] go_exchange).
Qed.

(** X2: a result handed to [onLoad] says the truth about the request:
    [loggedOn] is true exactly when the request handed a login over to the
    transport, [loggedOff] exactly when it handed a log off over. *)
Theorem flags_truthful p replies result :
  OnLoad result ∈ request_go p replies →
  get "loggedOn" result = Some (Bool (0 <? logins (request_go p replies)))
  ∧ get "loggedOff" result = Some (Bool (0 <? logoffs (request_go p replies))).
Proof.
  unfold request_go. rewrite run_split.
  change (rest_of p replies (go p initial))
    with (rest_of p replies (initial, [], Some go_exchange)).
  unfold logins, logoffs. rewrite !count_app.
  intros [Hin|Hin]%elem_of_app; [by apply list_elem_of_singleton in Hin|].
  by destruct (rest_flags p replies initial [] go_exchange result) as [-> ->];
    [left|exact Hin|].
Qed.

Lemma flags_truthful_witness :
  let result :=
    Obj [("data", Obj [("name", Str "Printer on fire")]);
         ("response", sample_response);
         ("statusCode", Num (of_Z 200));
         ("loggedOn", Bool true); ("loggedOff", Bool true)] in
  let trace :=
    request_go (sample_parameters true true)
               [forbidden; login_accepted; record_opened; logged_off] in
  OnLoad result ∈ trace
  ∧ get "loggedOn" result = Some (Bool (0 <? logins trace))
  ∧ get "loggedOff" result = Some (Bool (0 <? logoffs trace)).
Proof.
  intros result trace.
  assert (Hin : OnLoad result ∈ trace).
  { apply (list_elem_of_lookup_2 _ 4). vm_compute. reflexivity. }
  split; [exact Hin|].
  exact (flags_truthful (sample_parameters true true) _ result Hin).
Defined.

(** ** Log offs *)

Lemma rest_of_events p replies st events pending :
  rest_of p replies (st, events, pending) = rest_of p replies (st, [], pending).
Proof. done. Qed.

Lemma rest_logoffs p replies : ∀ st events x,
  let tr := rest_of p replies (st, events, Some x) in
  (logOff_callbacks x → logoffs tr = 0)
  ∧ logoffs tr ≤ 1
  ∧ (m_autoLogOff st = false →
     loginOnDemandAutoLogOff (connection p) = false → logoffs tr = 0)
  ∧ (m_autoLogOff st = false →
     load_callback x ≠ cb_m_loginOnDemandOnLoad → logoffs tr ≤ logins tr).
Proof.
  induction replies as [|r replies IH]; intros st events x tr; subst tr.
  { unfold logoffs, logins. simpl. split_and!; intros; lia. }
  rewrite rest_of_pending. unfold logoffs, logins in *. rewrite !count_app.
  assert (Hdone : logOff_callbacks
                    {| load_callback := cb_m_logOffDone;
                       error_callback := cb_m_logOffDone_onError |}) by done.
  destruct (answer_transition p x r st)
    as [| Hlatch Hdemand Hx | st1 Hx Hst1 | st1 (_ & Hauto1 & _) Hauto Hx
        | st1 _ | st1 _].
  - rewrite rest_of_idle. simpl. split_and!; intros; lia.
  - unfold logOn. cbn [fst snd]. rewrite rest_of_events.
    destruct (IH (set_logOn st) [] {| load_callback := cb_m_loginOnDemandOnLoad;
                                      error_callback := cb_m_onError |})
      as (_ & Hone & Hnever & _).
    simpl in *. split_and!; intros; try done; try lia. by apply Hnever.
  - unfold go. cbn [fst snd]. rewrite rest_of_events.
    destruct (IH st1 [] {| load_callback := cb_m_onLoad;
                           error_callback := cb_m_onError |})
      as (_ & Hone & Hnever & _).
    simpl in *. split_and!; intros; try done; try lia.
    + destruct H as [Hload _]. congruence.
    + apply Hnever; [|done]. destruct Hst1 as [->|[-> ?]]; [done|congruence].
  - unfold logOff. cbn [fst snd]. rewrite rest_of_events.
    destruct (IH (set_loggedOff st1) []
                {| load_callback := cb_m_logOffDone;
                   error_callback := cb_m_logOffDone_onError |}) as (Hnone & _).
    specialize (Hnone Hdone).
    simpl in *. rewrite Hnone. split_and!; intros; try done; try lia; congruence.
  - assert (∃ st' events', m_returnLoad p st1 = (st', events', None)
                           ∧ count is_logoff events' = 0) as (? & ? & -> & Hzero).
    { unfold m_returnLoad. destruct (m_result st1), (onLoad p); by eauto. }
    rewrite rest_of_idle. cbn [fst snd]. rewrite Hzero. simpl.
    split_and!; intros; lia.
  - unfold m_returnError. rewrite rest_of_idle. cbn [fst snd].
    destruct (onError p); simpl; split_and!; intros; lia.
Qed.

(** X3: a request logs off at most once, only after it logged in on
    demand, and never when the automatic log off is not configured. *)
Theorem logOff_only_after_login p replies :
  logoffs (request_go p replies) ≤ logins (request_go p replies)
  ∧ logoffs (request_go p replies)
    ≤ (if loginOnDemandAutoLogOff (connection p) then 1 else 0).
Proof.
  unfold request_go. rewrite run_split.
  change (rest_of p replies (go p initial))
    with (rest_of p replies (initial, [], Some go_exchange)).
  destruct (rest_logoffs p replies initial [] go_exchange)
    as (_ & Hone & Hnever & Hafter).
  unfold logins, logoffs in *. rewrite !count_app.
  change (count is_logoff (go p initial).1.2) with 0.
  change (count is_login (go p initial).1.2) with 0.
  split; [by apply Hafter|].
  destruct (loginOnDemandAutoLogOff (connection p)); [done|].
  by rewrite Hnever.
Qed.

(** ** Particular courses *)

Section Courses.
Variable p : parameters.

Lemma request_go_first r replies :
  request_go p (r :: replies)
  = call_exchange p :: (answer p go_exchange r initial).1.2
    ++ rest_of p replies (answer p go_exchange r initial).
Proof.
  unfold request_go. rewrite run_split.
  change (rest_of p (r :: replies) (go p initial))
    with (rest_of p (r :: replies) (initial, [], Some go_exchange)).
  by rewrite rest_of_pending.
Qed.

End Courses.

Section MoreCourses.
Variable p : parameters.

Lemma rest_of_step r replies st x :
  rest_of p (r :: replies) (st, [], Some x)
  = (answer p x r st).1.2
    ++ rest_of p replies ((answer p x r st).1.1, [], (answer p x r st).2).
Proof. by rewrite rest_of_pending. Qed.

Lemma onError_refused statusCode errorText st :
  loose_eq_num statusCode (of_Z 403) = true →
  m_loginAttempted st = false →
  loginOnDemand (connection p) = true →
  m_onError p statusCode errorText st = logOn p true st.
Proof. intros H403 Hlatch Hdemand. unfold m_onError. by rewrite H403, Hlatch, Hdemand. Qed.

Lemma onError_reported statusCode errorText st :
  loose_eq_num statusCode (of_Z 403) && negb (m_loginAttempted st) = false →
  m_autoLogOff st = false →
  m_onError p statusCode errorText st
  = (set_result (Obj [("statusCode", statusCode); ("errorText", errorText)]) st,
     if onError p
     then [OnError (Obj [("statusCode", statusCode); ("errorText", errorText)])]
     else [],
     None).
Proof.
  intros Hfinal Hauto. unfold m_onError. rewrite Hfinal. simpl. by rewrite Hauto.
Qed.

End MoreCourses.

(** A value that has no primitive form is no number. *)
Lemma raises_NaN : ∀ v, raises v = true → ToNumber v = NaN.
Proof.
  fix IH 1. intros [| |b|n|s|elems|props]; simpl; try discriminate; [|done].
  destruct elems as [|x [|y elems]]; simpl; [discriminate| |done].
  rewrite orb_false_r. pose proof (IH x) as IHx.
  destruct x as [| |b|n|s|elems|props]; simpl; try discriminate; done.
Qed.

(** Where [==] holds of a value and a number it did not throw. *)
Lemma loose_eq_num_true v n : loose_eq_num v n = true → eq_num v n = Some true.
Proof.
  unfold eq_num. destruct (raises v) eqn:Hraises; [|by intros ->].
  apply raises_NaN in Hraises. unfold loose_eq_num.
  destruct v; try discriminate; by rewrite Hraises.
Qed.

(** X5: the login on demand as it is meant to go.  The call is refused
    with status 403, the login is accepted ([result == false] is
    compared and does not hold), the call is repeated and succeeds: the
    caller gets the data of the repeated call, not those of the login,
    with [loggedOn] true, after a log off when the automatic log off is
    configured. *)
Theorem login_on_demand_replays
    p statusCode errorText login login_response accepted
    responseData response processed status r replies :
  loginOnDemand (connection p) = true →
  loose_eq_num statusCode (of_Z 403) = true →
  get "result" login = Some accepted →
  eq_num accepted (S754_zero false) = Some false →
  processed_by p responseData response = Some processed →
  get "status" response = Some status →
  request_go p (Failed statusCode errorText :: Loaded login login_response
                  :: Loaded responseData response :: r :: replies)
  = [call_exchange p; login_exchange p; call_exchange p]
    ++ (if loginOnDemandAutoLogOff (connection p) then [logOff_exchange p] else [])
    ++ (if onLoad p
        then [OnLoad (Obj [("data", processed); ("response", response);
                           ("statusCode", status);
                           ("loggedOn", Bool true);
                           ("loggedOff",
                            Bool (loginOnDemandAutoLogOff (connection p)))])]
        else []).
Proof.
  intros Hdemand H403 Hresult Haccepted Hprocessed Hstatus.
  rewrite request_go_first. cbn [answer go_exchange error_callback].
  rewrite onError_refused by done.
  unfold logOn. cbn [fst snd app]. rewrite rest_of_events, rest_of_step.
  cbn [answer load_callback]. unfold m_loginOnDemandOnLoad.
  rewrite Hresult, Haccepted. unfold go. cbn [fst snd app].
  rewrite rest_of_step. cbn [answer load_callback]. unfold m_onLoad.
  unfold processed_by in Hprocessed. rewrite Hprocessed, Hstatus.
  destruct (loginOnDemandAutoLogOff (connection p)); simpl.
  - unfold logOff. cbn [fst snd app]. rewrite rest_of_step.
    destruct r; simpl; unfold m_logOffDone, m_returnLoad; simpl;
      rewrite rest_of_idle; by destruct (onLoad p).
  - unfold m_returnLoad. simpl. rewrite rest_of_idle. by destruct (onLoad p).
Qed.

Lemma login_on_demand_replays_witness :
  loginOnDemand (connection (sample_parameters true true)) = true
  ∧ loose_eq_num (Str "403") (of_Z 403) = true
  ∧ get "result" (Obj [("result", Bool true)]) = Some (Bool true)
  ∧ eq_num (Bool true) (S754_zero false) = Some false
  ∧ request_go (sample_parameters true true)
      (Failed (Str "403") (Str "Forbidden (403)")
         :: login_accepted :: record_opened :: logged_off :: [])
    = [call_exchange (sample_parameters true true);
       login_exchange (sample_parameters true true);
       call_exchange (sample_parameters true true)]
      ++ [logOff_exchange (sample_parameters true true)]
      ++ [OnLoad (Obj [("data", Obj [("name", Str "Printer on fire")]);
                       ("response", sample_response);
                       ("statusCode", Num (of_Z 200));
                       ("loggedOn", Bool true); ("loggedOff", Bool true)])].
Proof.
  split_and!; [vm_compute; reflexivity..|].
  apply (login_on_demand_replays (sample_parameters true true)
           (Str "403") (Str "Forbidden (403)")
           (Obj [("result", Bool true)]) sample_response (Bool true)
           (Obj [("name", Str "Printer on fire")]) sample_response
           (Obj [("name", Str "Printer on fire")]) (Num (of_Z 200))
           logged_off []); vm_compute; reflexivity.
Defined.

(** X6: when the login on demand is rejected (the answer's [result] is
    false, or anything [==] false) the caller's [onError] gets status 403,
    as a number, and the message of the login answer; the call is not
    repeated and no log off follows. *)
Theorem login_rejected_reported
    p statusCode errorText login login_response rejected message replies :
  loginOnDemand (connection p) = true →
  loose_eq_num statusCode (of_Z 403) = true →
  get "result" login = Some rejected →
  loose_eq_num rejected (S754_zero false) = true →
  get "message" login = Some message →
  request_go p (Failed statusCode errorText :: Loaded login login_response
                  :: replies)
  = [call_exchange p; login_exchange p]
    ++ (if onError p
        then [OnError (Obj [("statusCode", Num (of_Z 403));
                            ("errorText", message)])]
        else []).
Proof.
  intros Hdemand H403 Hresult Hrejected Hmessage.
  rewrite request_go_first. cbn [answer go_exchange error_callback].
  rewrite onError_refused by done.
  unfold logOn. cbn [fst snd app]. rewrite rest_of_events, rest_of_step.
  cbn [answer load_callback]. unfold m_loginOnDemandOnLoad.
  rewrite Hresult, (loose_eq_num_true _ _ Hrejected), Hmessage.
  rewrite onError_reported; [|apply andb_false_r|done].
  cbn [fst snd]. by rewrite rest_of_idle, app_nil_r.
Qed.

Lemma login_rejected_reported_witness :
  let rejected :=
    Obj [("result", Bool false); ("message", Str "Invalid user name or password")] in
  loginOnDemand (connection (sample_parameters true true)) = true
  ∧ loose_eq_num (Num (of_Z 403)) (of_Z 403) = true
  ∧ get "result" rejected = Some (Bool false)
  ∧ loose_eq_num (Bool false) (S754_zero false) = true
  ∧ get "message" rejected = Some (Str "Invalid user name or password")
  ∧ request_go (sample_parameters true true)
               [forbidden; Loaded rejected sample_response; record_opened]
    = [call_exchange (sample_parameters true true);
       login_exchange (sample_parameters true true)]
      ++ [OnError (Obj [("statusCode", Num (of_Z 403));
                        ("errorText", Str "Invalid user name or password")])].
Proof.
  intros rejected. split_and!; [vm_compute; reflexivity..|].
  apply (login_rejected_reported (sample_parameters true true)
           (Num (of_Z 403)) (Str "Forbidden (403)") rejected sample_response
           (Bool false) (Str "Invalid user name or password") [record_opened]);
    vm_compute; reflexivity.
Defined.

(** X7: a failure whose status is not 403 reaches [onError] with the
    status and the text the transport gave, at once: no login, no replay
    and no log off, whatever the configuration. *)
Theorem other_failure_verbatim p statusCode errorText replies :
  loose_eq_num statusCode (of_Z 403) = false →
  request_go p (Failed statusCode errorText :: replies)
  = call_exchange p ::
    (if onError p
     then [OnError (Obj [("statusCode", statusCode); ("errorText", errorText)])]
     else []).
Proof.
  intros Hother. rewrite request_go_first. cbn [answer go_exchange error_callback].
  rewrite onError_reported; [|by rewrite Hother|done].
  cbn [fst snd]. by rewrite rest_of_idle, app_nil_r.
Qed.

Lemma other_failure_verbatim_witness :
  loose_eq_num (Num (of_Z 500)) (of_Z 403) = false
  ∧ request_go (sample_parameters true true) [server_error; login_accepted]
    = call_exchange (sample_parameters true true) ::
      [OnError (Obj [("statusCode", Num (of_Z 500));
                     ("errorText", Str "Internal Server Error (500)")])].
Proof.
  split; [vm_compute; reflexivity|].
  apply (other_failure_verbatim (sample_parameters true true)).
  vm_compute; reflexivity.
Defined.

(** X8: [request.logOn()] called by hand, as [user.logOn] does: one login
    exchange and nothing else, whatever the answers: the call of the
    request is never made and nothing is retried.  A failure, status 403
    included, is reported with the text of the transport. *)
Theorem explicit_logOn p replies :
  logins (request_logOn p replies) = 1
  ∧ calls (request_logOn p replies) = 0
  ∧ logoffs (request_logOn p replies) = 0
  ∧ ∀ statusCode errorText,
      request_logOn p (Failed statusCode errorText :: replies)
      = login_exchange p ::
        (if onError p
         then [OnError (Obj [("statusCode", statusCode);
                             ("errorText", errorText)])]
         else []).
Proof.
  unfold request_logOn. rewrite run_split.
  set (x := {| load_callback := cb_m_onLoad; error_callback := cb_m_onError |}).
  change (rest_of p replies (logOn p false initial))
    with (rest_of p replies (set_logOn initial, [], Some x)).
  destruct (rest_bounds p replies (set_logOn initial) [] x) as (_ & _ & Hlatched).
  destruct (Hlatched eq_refl) as [Hlogins Hcalls]; [done|].
  destruct (rest_logoffs p replies (set_logOn initial) [] x) as (_ & _ & _ & Hoff).
  specialize (Hoff eq_refl). unfold logins, calls, logoffs in *.
  rewrite !count_app. split_and!.
  - rewrite Hlogins. done.
  - rewrite Hcalls. done.
  - assert (count is_logoff (rest_of p replies (set_logOn initial, [], Some x)) = 0)
      as -> by (assert (load_callback x ≠ cb_m_loginOnDemandOnLoad) as Hx by done;
                specialize (Hoff Hx); lia).
    done.
  - intros statusCode errorText. rewrite run_split.
    change (rest_of p (Failed statusCode errorText :: replies) (logOn p false initial))
      with (rest_of p (Failed statusCode errorText :: replies)
              (set_logOn initial, [], Some x)).
    rewrite rest_of_step. cbn [answer x error_callback].
    rewrite onError_reported; [|apply andb_false_r|done].
    cbn [fst snd]. by rewrite rest_of_idle, app_nil_r.
Qed.

(** X9: when the response processor of [query.runQuery] throws on the
    answer, as it does on the body [null] and on a single page without
    [objects], the exception ends the request: neither [onLoad] nor
    [onError] is invoked. *)
Theorem query_answer_dropped
    connection queryData onLoad onError responseData response replies :
  _queryResponseProcessor responseData response = None →
  request_go (runQuery_request connection queryData onLoad onError)
             (Loaded responseData response :: replies)
  = [call_exchange (runQuery_request connection queryData onLoad onError);
     TypeError].
Proof.
  intros Hthrows. rewrite request_go_first.
  cbn [answer go_exchange load_callback]. unfold m_onLoad.
  cbn [responseProcessor runQuery_request]. rewrite Hthrows.
  cbn [fst snd]. by rewrite rest_of_idle.
Qed.

Lemma query_answer_dropped_witness :
  _queryResponseProcessor Null sample_response = None
  ∧ _queryResponseProcessor (Obj [("pageCount", Str "1")]) sample_response = None
  ∧ request_go (runQuery_request (sample_connection false false)
                                 (Obj [("class_name", Str "Incident")]) true true)
               [Loaded Null sample_response]
    = [call_exchange (runQuery_request (sample_connection false false)
                                       (Obj [("class_name", Str "Incident")])
                                       true true);
       TypeError].
Proof.
  split; [reflexivity|]. split; [vm_compute; reflexivity|].
  apply query_answer_dropped. reflexivity.
Defined.

(** X4: without login on demand a request hands exactly one exchange to
    the transport, the call itself, whatever the answers: a refusal is
    never followed by a login or a replay. *)
Theorem no_loginOnDemand_one_exchange p replies :
  loginOnDemand (connection p) = false →
  ∃ ending,
    request_go p replies = call_exchange p :: ending
    ∧ length ending ≤ 1
    ∧ Forall (λ e, is_exchange e = false) ending.
Proof.
  intros Hoff. destruct replies as [|r replies].
  { exists []. split_and!; [done|simpl; lia|constructor]. }
  rewrite request_go_first.
  destruct (answer_transition p go_exchange r initial)
    as [| ? Hon | ? Hload | ? ? Hauto | st1 _ | st1 _];
    try congruence; try discriminate.
  - rewrite rest_of_idle. eexists. split; [done|].
    split; [simpl; lia|by repeat constructor].
  - assert (∃ st' events', m_returnLoad p st1 = (st', events', None)
                           ∧ length events' ≤ 1
                           ∧ Forall (λ e, is_exchange e = false) events')
      as (? & ? & -> & ? & ?).
    { unfold m_returnLoad.
      destruct (m_result st1), (onLoad p); do 2 eexists;
        (split; [done|]); split; simpl; try lia; by repeat constructor. }
    rewrite rest_of_idle, app_nil_r. by eexists.
  - unfold m_returnError. rewrite rest_of_idle, app_nil_r. cbn [fst snd].
    eexists. split; [done|].
    destruct (onError p); split; simpl; try lia; by repeat constructor.
Qed.

Lemma no_loginOnDemand_one_exchange_witness :
  loginOnDemand (connection (sample_parameters false true)) = false
  ∧ ∃ ending,
      request_go (sample_parameters false true) [forbidden; login_accepted]
      = call_exchange (sample_parameters false true) :: ending
      ∧ length ending ≤ 1
      ∧ Forall (λ e, is_exchange e = false) ending.
Proof.
  split; [reflexivity|].
  apply no_loginOnDemand_one_exchange. reflexivity.
Defined.

End StepsProps.

(* ===================================================================== *)
(** * Properties of the metadata traversals *)
(* ===================================================================== *)

Module SchemaProps.
Import JS Schema MetadataProps.
Import StepsProps.
Local Open Scope nat_scope.

(** ** The order on titles *)

Lemma str_ltb_irrefl a : str_ltb a a = false.
Proof.
  induction a as [|x a IH]; [done|]. simpl.
  by rewrite N.ltb_irrefl.
Qed.

Lemma str_ltb_asym a : ∀ b, str_ltb a b = true → str_ltb b a = false.
Proof.
  induction a as [|x a IH]; intros [|y b]; simpl; try done.
  destruct (N.ltb_spec (code x) (code y)), (N.ltb_spec (code y) (code x));
    try done; try lia. apply IH.
Qed.

Lemma str_le_trans a : ∀ b c,
  str_ltb b a = false → str_ltb c b = false → str_ltb c a = false.
Proof.
  induction a as [|x a IH]; intros [|y b] [|z c]; simpl; try done.
  destruct (N.ltb_spec (code y) (code x)), (N.ltb_spec (code x) (code y)),
           (N.ltb_spec (code z) (code y)), (N.ltb_spec (code y) (code z)),
           (N.ltb_spec (code z) (code x)), (N.ltb_spec (code x) (code z));
    try done; try lia. apply IH.
Qed.

#[local] Instance title_le_total : Total title_le.
Proof.
  intros a b. unfold title_le.
  destruct (title_key a) as [x|], (title_key b) as [y|]; try by left.
  destruct (str_ltb y x) eqn:Hyx; [|by left].
  right. by apply str_ltb_asym.
Qed.

Lemma title_le_trans a b c :
  titled b → title_le a b → title_le b c → title_le a c.
Proof.
  unfold titled, title_le. intros [y ->].
  destruct (title_key a) as [x|], (title_key c) as [z|]; try done.
  intros Hab Hbc. by eapply str_le_trans.
Qed.

Lemma insert_by_title_sorted a sorted :
  titled a → Forall titled sorted →
  StronglySorted title_le sorted →
  StronglySorted title_le (insert_by_title a sorted).
Proof.
  intros Ha. induction sorted as [|b sorted IH]; intros Htitled Hsorted.
  { by repeat constructor. }
  apply Forall_cons in Htitled as [Hb Htitled].
  apply StronglySorted_inv in Hsorted as [Hsorted Hfirst].
  simpl. destruct (decide (title_le a b)) as [Hab|Hab].
  - constructor; [by constructor|]. constructor; [done|].
    eapply Forall_impl; [exact Hfirst|]. intros c Hbc.
    by eapply title_le_trans.
  - constructor; [by apply IH|].
    rewrite insert_by_title_Permutation. constructor; [|done].
    by destruct (title_le_total a b).
Qed.

Lemma sorted_by_title array :
  Forall titled array →
  StronglySorted title_le (foldr insert_by_title [] array).
Proof.
  induction 1 as [|a array Ha Harray IH]; [constructor|]. simpl.
  apply insert_by_title_sorted; [done| |done].
  by rewrite sorted_Permutation.
Qed.

(** What [sort] hands back is in the order of the comparison function. *)
Lemma sort_by_title_sorted array sorted :
  sort_by_title array = Some sorted →
  StronglySorted title_le sorted ∧ (2 ≤ length sorted → Forall titled sorted).
Proof.
  unfold sort_by_title. destruct array as [|a [|b array]].
  - intros [= <-]. split; [constructor|simpl; lia].
  - intros [= <-]. split; [by repeat constructor|simpl; lia].
  - case_match eqn:Hall; [|discriminate]. intros Hsorted.
    apply (inj Some) in Hsorted as <-.
    assert (Forall titled (a :: b :: array)) as Htitled.
    { apply Forall_forall. intros x Hx.
      rewrite forallb_forall in Hall.
      apply list_elem_of_In, Hall in Hx. by apply bool_decide_eq_true_1 in Hx. }
    split; [by apply sorted_by_title|]. intros _.
    by rewrite (sorted_Permutation (a :: b :: array)).
Qed.

Lemma get_put_kept k x result :
  k ≠ "data" → get k (put "data" x result) = get k result.
Proof.
  intros Hk. destruct result; simpl; try done.
  by rewrite QueryProps.assoc_assign_ne.
Qed.


(** ** What a query hands back *)

Lemma delivered_OnError events result :
  delivered events = ToOnError result → Request.OnError result ∈ events.
Proof.
  induction events as [|e events IH]; [done|].
  destruct e; simpl; intros H; try discriminate.
  - right. by apply IH.
  - injection H as ->. by left.
Qed.

Lemma query_runQuery connection parameters queryData replies :
  runQuery connection parameters queryData replies
  = query connection (onError parameters) queryData replies.
Proof. done. Qed.

Lemma query_object connection onError queryData replies result :
  query connection onError queryData replies = ToOnLoad result →
  ∃ props, result = Obj props.
Proof.
  unfold query. intros H%delivered_OnLoad.
  by eapply RequestProps.request_go_objects.
Qed.

Lemma query_error connection onError queryData replies result :
  query connection onError queryData replies = ToOnError result →
  onError = true.
Proof.
  unfold query. intros H%delivered_OnError.
  by apply request_go_wanted in H.
Qed.

(** ** The shape of a traversal *)

Lemma queries_then_outcome_end queryData ending most :
  length ending ≤ 1 → Forall (λ e, is_outcome e = true) ending →
  queries_then_outcome (RunQuery queryData :: ending) (S most).
Proof.
  intros Hlength Hend. exists [RunQuery queryData], ending.
  split_and!; [done|by repeat constructor|simpl; lia..|done|done].
Qed.

Lemma queries_then_outcome_cons queryData trace most :
  queries_then_outcome trace most →
  queries_then_outcome (RunQuery queryData :: trace) (S most).
Proof.
  intros (queries & ending & -> & Hqueries & [Hone Hmost] & Hlength & Hend).
  exists (RunQuery queryData :: queries), ending.
  split_and!; [done|by constructor|simpl; lia..|done|done].
Qed.

Section Traversal.
Variable connection : connectionInfo.
Variable parameters : parameters.

(** What a traversal leaves behind, by the events of its trace. *)
Lemma getAttributes_cases script : ∀ array names objectGuid,
  let trace :=
    getAttributes connection parameters script array names objectGuid in
  queries_then_outcome trace (S (length script))
  ∧ (∀ result, Error result ∈ trace →
       ∃ replies queried,
         replies ∈ script
         ∧ runQuery connection parameters (queryData_for queried) replies
           = ToOnError result)
  ∧ (∀ result, Load result ∈ trace →
       onLoad parameters = true
       ∧ ∃ collected sorted,
           sort_by_title collected = Some sorted
           ∧ get "data" result = Some (Obj [("attributes", Arr sorted)])).
Proof.
  induction script as [|replies script IH]; intros array names objectGuid trace.
  { subst trace. simpl. split_and!.
    - apply queries_then_outcome_end; [simpl; lia|constructor].
    - intros result Hin. apply list_elem_of_singleton in Hin. discriminate.
    - intros result Hin. apply list_elem_of_singleton in Hin. discriminate. }
  subst trace. cbn [getAttributes length].
  assert (Hthrew : ∀ queryData,
    queries_then_outcome [RunQuery queryData; Threw] (S (S (length script)))
    ∧ (∀ result, Error result ∈ [RunQuery queryData; Threw] →
         ∃ replies0 queried,
           replies0 ∈ replies :: script
           ∧ runQuery connection parameters (queryData_for queried) replies0
             = ToOnError result)
    ∧ (∀ result, Load result ∈ [RunQuery queryData; Threw] →
         onLoad parameters = true
         ∧ ∃ collected sorted,
             sort_by_title collected = Some sorted
             ∧ get "data" result = Some (Obj [("attributes", Arr sorted)]))).
  { intros queryData. split_and!.
    - apply queries_then_outcome_end; [simpl; lia|by repeat constructor].
    - intros result Hin. by repeat (apply elem_of_cons in Hin as [?|Hin]; [done|]);
        apply elem_of_nil in Hin.
    - intros result Hin. by repeat (apply elem_of_cons in Hin as [?|Hin]; [done|]);
        apply elem_of_nil in Hin. }
  destruct (runQuery _ _ _ replies) as [result0|result0| |] eqn:Hquery.
  - destruct (runQuery_object _ _ _ _ _ Hquery) as [props0 Hresult0].
    unfold getAttributesOnLoad.
    destruct (get "data" result0) as [data|]; simpl; [|apply Hthrew].
    destruct (get "objects" data) as [objects|]; simpl; [|apply Hthrew].
    destruct (loop_items objects) as [items|]; simpl; [|apply Hthrew].
    destruct (rows items array names (Str "")) as [[[array1 names1] parent1]|];
      [|apply Hthrew].
    destruct (eq_str parent1 "") as [[]|]; [| |apply Hthrew]; cycle 1.
    + destruct (IH array1 names1 parent1) as (Hshape & Herror & Hload).
      split_and!.
      * by apply queries_then_outcome_cons.
      * intros result Hin. apply elem_of_cons in Hin as [?|Hin]; [done|].
        destruct (Herror result Hin) as (replies0 & queried & ? & ?).
        exists replies0, queried. split; [by right|done].
      * intros result Hin. apply elem_of_cons in Hin as [?|Hin]; [done|].
        by apply Hload.
    + destruct (sort_by_title array1) as [sorted|] eqn:Hsort; [|apply Hthrew].
      destruct (onLoad parameters) eqn:Hlistens; [|apply Hthrew].
      split_and!.
      * apply queries_then_outcome_end; [simpl; lia|by repeat constructor].
      * intros result Hin.
        by repeat (apply elem_of_cons in Hin as [?|Hin]; [done|]);
          apply elem_of_nil in Hin.
      * intros result Hin. apply elem_of_cons in Hin as [?|Hin]; [done|].
        apply list_elem_of_singleton in Hin. injection Hin as ->.
        split; [done|]. exists array1, sorted. split; [done|].
        by eapply get_put_data.
  - split_and!.
    + apply queries_then_outcome_end; [simpl; lia|by repeat constructor].
    + intros result Hin. apply elem_of_cons in Hin as [?|Hin]; [done|].
      apply list_elem_of_singleton in Hin. injection Hin as ->.
      exists replies, objectGuid. split; [by left|done].
    + intros result Hin.
      by repeat (apply elem_of_cons in Hin as [?|Hin]; [done|]);
        apply elem_of_nil in Hin.
  - apply Hthrew.
  - split_and!.
    + apply queries_then_outcome_end; [simpl; lia|constructor].
    + intros result Hin. apply list_elem_of_singleton in Hin. discriminate.
    + intros result Hin. apply list_elem_of_singleton in Hin. discriminate.
Qed.

(** A chain ends with the handler of the caller, or with the TypeError
    of calling a handler that is not there. *)
Lemma getAttributes_chain_end script : ∀ array names objectGuid,
  Forall titled array →
  is_chain connection parameters script objectGuid = true →
  ∃ queries result,
    getAttributes connection parameters script array names objectGuid
    = queries ++ [if onLoad parameters then Load result else Threw]
    ∧ length queries = length script
    ∧ Forall (λ e, is_query e = true) queries.
Proof.
  induction script as [|replies script IH]; intros array names objectGuid Harray Hchain;
    [discriminate|].
  cbn [is_chain] in Hchain.
  destruct (report _ _ _ replies) as [[items parent]|] eqn:Hreport; [|discriminate].
  apply andb_true_iff in Hchain as [Hitems Hchain].
  unfold report in Hreport.
  destruct (runQuery _ _ _ replies) as [result0| | |] eqn:Hquery; try discriminate.
  unfold items_in in Hreport.
  cbn [getAttributes]. rewrite Hquery. unfold getAttributesOnLoad.
  destruct (get "data" result0) as [data|]; simpl in Hreport |- *; [|discriminate].
  destruct (get "objects" data) as [objects|]; simpl in Hreport |- *; [|discriminate].
  destruct (loop_items objects) as [items'|]; simpl in Hreport |- *; [|discriminate].
  destruct (parent_after items') as [parent'|] eqn:Hparent; simpl in Hreport;
    [|discriminate].
  injection Hreport as -> ->.
  assert (Hrows_ok : Forall (λ item, row_ok item = true) items).
  { apply Forall_forall. intros item Hitem.
    rewrite forallb_forall in Hitems. by apply Hitems, list_elem_of_In. }
  destruct (rows_titled items array names (Str "") Hrows_ok Harray)
    as (array1 & names1 & parent1 & Hrows & Harray1).
  rewrite Hrows.
  pose proof (rows_parent _ _ _ _ _ _ _ Hrows) as Hparent1.
  rewrite <- parent_after_from, Hparent in Hparent1. injection Hparent1 as <-.
  destruct script as [|replies' script],
           (eq_str parent "") as [root|]; try discriminate.
  - rewrite Hchain.
    destruct (sort_by_title_titled _ Harray1) as [sorted ->].
    eexists [_], _. split; [by destruct (onLoad parameters)|].
    split; [done|]. by repeat constructor.
  - apply andb_true_iff in Hchain as [->%negb_true_iff Hchain].
    destruct (IH array1 names1 parent Harray1 Hchain)
      as (queries & result & -> & Hlength & Hqueries).
    eexists (_ :: queries), result. split; [done|].
    split; [simpl; by rewrite Hlength|]. by constructor.
Qed.


End Traversal.

(** X10: whatever the answers, a traversal issues one query at least and
    one more than it was answered at most, and it ends at most once: with
    the result, with the failure of one of its queries, handed over as
    that query reported it and only to a caller that supplied [onError],
    or with an exception.  Nothing of what was collected before a failure
    reaches the caller. *)
Theorem traversal_single_outcome connection parameters script :
  queries_then_outcome (getAttributesForObject connection parameters script)
                       (S (length script))
  ∧ ∀ result,
      Error result ∈ getAttributesForObject connection parameters script →
      onError parameters = true
      ∧ ∃ replies queried,
          replies ∈ script
          ∧ runQuery connection parameters (queryData_for queried) replies
            = ToOnError result.
Proof.
  unfold getAttributesForObject.
  destruct (getAttributes_cases connection parameters script [] []
                                (objectGuid parameters))
    as (Hshape & Herror & _).
  split; [done|]. intros result Hin.
  destruct (Herror result Hin) as (replies & queried & Hreplies & Hquery).
  split; [|by eauto].
  rewrite query_runQuery in Hquery. by eapply query_error.
Qed.

(** X11: the attributes handed to the caller are in the order of their
    titles, compared as lower case strings: when the titles are written
    in ASCII, where the embedding lowers and compares as the source
    does, no descriptor comes before one whose title is smaller.  As
    soon as there are two descriptors every title is a string. *)
Theorem attributes_sorted connection parameters script result :
  Load result ∈ getAttributesForObject connection parameters script →
  ∃ attributes,
    get "data" result = Some (Obj [("attributes", Arr attributes)])
    ∧ (Forall ascii_titled attributes → StronglySorted title_le attributes)
    ∧ (2 ≤ length attributes → Forall titled attributes).
Proof.
  unfold getAttributesForObject. intros Hin.
  destruct (getAttributes_cases connection parameters script [] []
                                (objectGuid parameters))
    as (_ & _ & Hload).
  destruct (Hload result Hin) as (_ & collected & sorted & Hsort & Hdata).
  exists sorted. split; [done|].
  destruct (sort_by_title_sorted _ _ Hsort) as [Hsorted Htitled].
  split; [by intros _|done].
Qed.

Lemma attributes_sorted_witness :
  Load sample_loaded
    ∈ getAttributesForObject (sample_connection false false) sample_request
                             sample_script
  ∧ ∃ attributes,
      get "data" sample_loaded = Some (Obj [("attributes", Arr attributes)])
      ∧ Forall ascii_titled attributes
      ∧ StronglySorted title_le attributes.
Proof.
  assert (Load sample_loaded
            ∈ getAttributesForObject (sample_connection false false)
                                     sample_request sample_script) as Hin.
  { vm_compute. do 2 right. left. }
  split; [exact Hin|].
  destruct (attributes_sorted _ _ _ _ Hin)
    as (attributes & Hdata & Hsorted & _).
  exists attributes. split; [exact Hdata|].
  assert (Forall ascii_titled attributes) as Hascii.
  { vm_compute in Hdata. apply (inj Some) in Hdata. injection Hdata as <-.
    repeat (constructor; [vm_compute; reflexivity|]). constructor. }
  split; [exact Hascii|exact (Hsorted Hascii)].
Defined.



(** X13: the two traversals treat a caller without [onLoad] differently:
    [getAttributesForObject] runs every query of the chain and then
    throws, where [getModules] returns without looking at the answer. *)
Theorem missing_onLoad connection parameters onError script replies result :
  onLoad parameters = false →
  is_chain connection parameters script (objectGuid parameters) = true →
  query connection onError modules_queryData replies = ToOnLoad result →
  (∃ queries,
     getAttributesForObject connection parameters script = queries ++ [Threw]
     ∧ length queries = length script
     ∧ Forall (λ e, is_query e = true) queries)
  ∧ getModules connection false onError replies = [RunQuery modules_queryData].
Proof.
  intros Hdeaf Hchain Hquery. split.
  - unfold getAttributesForObject.
    destruct (getAttributes_chain_end connection parameters script [] []
                (objectGuid parameters)) as (queries & r & Htrace & ? & ?);
      [constructor|done|].
    rewrite Hdeaf in Htrace. by exists queries.
  - unfold getModules. by rewrite Hquery.
Qed.

Lemma missing_onLoad_witness :
  let deaf := {| objectGuid := Str "g1"; onLoad := false; onError := true |} in
  (∃ queries,
     getAttributesForObject (sample_connection false false) deaf sample_script
     = queries ++ [Threw]
     ∧ length queries = length sample_script
     ∧ Forall (λ e, is_query e = true) queries)
  ∧ getModules (sample_connection false false) false true sample_modules
    = [RunQuery modules_queryData].
Proof.
  intros deaf.
  destruct (query (sample_connection false false) true modules_queryData
                  sample_modules) as [result| | |] eqn:Hquery;
    [|vm_compute in Hquery; discriminate..].
  apply (missing_onLoad _ deaf true sample_script sample_modules result);
    [reflexivity|vm_compute; reflexivity|exact Hquery].
Defined.

Lemma module_of_describes item d :
  module_of item = Some d → describes_module item d.
Proof.
  unfold module_of, describes_module. intros Hd.
  destruct (get "value" item) as [guid|] eqn:?; cbn [mbind option_bind] in Hd;
    [|discriminate].
  destruct (get "attributes" item) as [attributes|] eqn:?;
    cbn [mbind option_bind] in Hd; [|discriminate].
  destruct (get "Name" attributes) as [name|] eqn:?;
    cbn [mbind option_bind] in Hd; [|discriminate].
  destruct (get "name" item) as [title|] eqn:?;
    cbn [mbind option_bind] in Hd; [|discriminate].
  destruct (get "DatabasePrefix" attributes) as [databasePrefix|] eqn:?;
    cbn [mbind option_bind] in Hd; [|discriminate].
  destruct (get "IsExternal" attributes) as [isExternal|] eqn:?;
    cbn [mbind option_bind] in Hd; [|discriminate].
  destruct (get "IsClone" attributes) as [isClone|] eqn:?;
    cbn [mbind option_bind] in Hd; [|discriminate].
  injection Hd as <-. exists attributes. split_and!; simpl; congruence.
Qed.

(** X14: what [getModules] hands to the caller: one descriptor for each
    row of the answer, holding what the row holds, as [data.modules];
    when the titles are written in ASCII, where the embedding lowers and
    compares as the source does, the descriptors are in the order of
    their titles compared as lower case strings; every other property of
    the result is as the request delivered it. *)
Theorem getModules_loaded connection onLoad onError replies result :
  Load result ∈ getModules connection onLoad onError replies →
  onLoad = true
  ∧ ∃ delivered items descriptors modules,
      query connection onError modules_queryData replies = ToOnLoad delivered
      ∧ items_in delivered = Some items
      ∧ Forall2 describes_module items descriptors
      ∧ modules ≡ₚ descriptors
      ∧ (Forall ascii_titled modules → StronglySorted title_le modules)
      ∧ get "data" result = Some (Obj [("modules", Arr modules)])
      ∧ ∀ k, k ≠ "data" → get k result = get k delivered.
Proof.
  unfold getModules. intros Hin.
  apply elem_of_cons in Hin as [?|Hin]; [done|].
  destruct (query _ _ _ replies) as [result0|result0| |] eqn:Hquery;
    try (apply list_elem_of_singleton in Hin; discriminate);
    try (by apply elem_of_nil in Hin).
  destruct (query_object _ _ _ _ _ Hquery) as [props0 Hresult0].
  unfold getModulesOnLoad in Hin.
  destruct onLoad; simpl in Hin; [|by apply elem_of_nil in Hin].
  split; [done|].
  destruct (get "data" result0) as [data|] eqn:Hdata; simpl in Hin;
    [|apply list_elem_of_singleton in Hin; discriminate].
  destruct (get "objects" data) as [objects|] eqn:Hobjects; simpl in Hin;
    [|apply list_elem_of_singleton in Hin; discriminate].
  destruct (loop_items objects) as [items|] eqn:Hitems; simpl in Hin;
    [|apply list_elem_of_singleton in Hin; discriminate].
  destruct (mapM module_of items) as [descriptors|] eqn:Hrows;
    [|apply list_elem_of_singleton in Hin; discriminate].
  destruct (sort_by_title descriptors) as [sorted|] eqn:Hsort;
    [|apply list_elem_of_singleton in Hin; discriminate].
  apply list_elem_of_singleton in Hin. injection Hin as ->.
  exists result0, items, descriptors, sorted. split_and!; try done.
  - unfold items_in. rewrite Hdata. simpl. rewrite Hobjects. simpl. done.
  - apply mapM_Some_1 in Hrows.
    eapply Forall2_impl; [exact Hrows|]. apply module_of_describes.
  - by eapply sort_by_title_Permutation.
  - intros _. by eapply sort_by_title_sorted.
  - by eapply get_put_data.
  - intros k Hk. by apply get_put_kept.
Qed.

Lemma getModules_loaded_witness :
  Load sample_modules_loaded
    ∈ getModules (sample_connection false false) true true sample_modules
  ∧ ∃ delivered items descriptors modules,
      query (sample_connection false false) true modules_queryData
            sample_modules = ToOnLoad delivered
      ∧ items_in delivered = Some items
      ∧ Forall2 describes_module items descriptors
      ∧ modules ≡ₚ descriptors
      ∧ Forall ascii_titled modules
      ∧ StronglySorted title_le modules
      ∧ get "data" sample_modules_loaded = Some (Obj [("modules", Arr modules)])
      ∧ ∀ k, k ≠ "data" → get k sample_modules_loaded = get k delivered.
Proof.
  assert (Load sample_modules_loaded
            ∈ getModules (sample_connection false false) true true
                         sample_modules) as Hin.
  { vm_compute. right. left. }
  split; [exact Hin|].
  destruct (proj2 (getModules_loaded _ _ _ _ _ Hin))
    as (delivered & items & descriptors & modules
        & Hquery & Hitems & Hrows & Hperm & Hsorted & Hdata & Hrest).
  exists delivered, items, descriptors, modules.
  assert (Forall ascii_titled modules) as Hascii.
  { vm_compute in Hdata. apply (inj Some) in Hdata. injection Hdata as <-.
    repeat (constructor; [vm_compute; reflexivity|]). constructor. }
  split_and!; try done. exact (Hsorted Hascii).
Defined.


(** ** [_getObjects] *)

Lemma append_assoc s t u : (s +:+ t) +:+ u = s +:+ t +:+ u.
Proof.
  induction s as [|a s IH]; [done|].
  change (String a s +:+ t) with (String a (s +:+ t)).
  change (String a (s +:+ t) +:+ u) with (String a ((s +:+ t) +:+ u)).
  by rewrite IH.
Qed.





End SchemaProps.

(* ===================================================================== *)
(** * Properties of what is handed over to be saved *)
(* ===================================================================== *)

Module SavedProps.
Import JS Saved RecordProps.
Local Open Scope nat_scope.

(** ** Writes *)

Lemma write_lookup h l k v :
  write (Ref l) k v h !! l = with_prop k v <$> h !! l.
Proof.
  unfold write. destruct (h !! l) as [[props|elems props]|] eqn:Hl; simpl;
    by rewrite ?lookup_insert_eq, ?Hl.
Qed.

Lemma write_if_lookup h c l k v :
  write_if c (Ref l) k v h !! l
  = (if ref_truthy c then with_prop k v else id) <$> h !! l.
Proof.
  unfold write_if. destruct (ref_truthy c); [apply write_lookup|].
  by destruct (h !! l).
Qed.

Lemma assoc_with_prop k k' v o :
  assoc k' (props_of (with_prop k v o))
  = if String.eqb k k' then Some v else assoc k' (props_of o).
Proof.
  destruct (String.eqb k k') eqn:Hk.
  - apply String.eqb_eq in Hk as ->.
    destruct o; simpl; apply QueryProps.assoc_assign_eq.
  - apply String.eqb_neq in Hk.
    destruct o; simpl; by apply QueryProps.assoc_assign_ne.
Qed.

Lemma parse_allocated j h l :
  (parse j h).1 = Ref l → is_Some ((parse j h).2 !! l).
Proof.
  destruct j as [| |b|n|s|elems|props]; simpl; try done.
  - destruct (thread parse elems h) as [vs h1]. unfold alloc. simpl.
    intros [= <-]. rewrite lookup_insert_eq. by eauto.
  - destruct (thread _ props h) as [kvs h1]. unfold alloc. simpl.
    intros [= <-]. rewrite lookup_insert_eq. by eauto.
Qed.


(** ** The copy [_prepareSaveData] makes *)

Lemma prepareSaveData_tagged className isNew attributeValues h l :
  (_prepareSaveData className isNew attributeValues h).1 = Some (Ref l) →
  ∃ o,
    (_prepareSaveData className isNew attributeValues h).2 !! l = Some o
    ∧ assoc "class_name" (props_of o) = Some className
    ∧ assoc "is_new" (props_of o) = Some isNew.
Proof.
  unfold _prepareSaveData, alloc. cbn zeta.
  set (l0 := fresh (dom h)). set (h1 := <[l0 := Object []]> h).
  assert (∀ h2, is_Some (h2 !! l) →
    ∃ o, write (Ref l) "is_new" isNew (write (Ref l) "class_name" className h2)
         !! l = Some o
         ∧ assoc "class_name" (props_of o) = Some className
         ∧ assoc "is_new" (props_of o) = Some isNew) as Hwrites.
  { intros h2 [o Ho]. rewrite !write_lookup, Ho. simpl.
    eexists. split; [done|]. by rewrite !assoc_with_prop. }
  destruct (ref_truthy attributeValues).
  - destruct (stringify _ _ _ _) as [[text|]|]; try done.
    pose proof (parse_allocated text h1 l) as Halloc.
    destruct (parse text h1) as [createData h2]. cbn [fst snd] in *.
    destruct createData; cbn [fst snd]; try discriminate.
    intros [= ->]. by apply Hwrites, Halloc.
  - cbn [fst snd]. intros [= <-]. apply Hwrites.
    unfold h1. rewrite lookup_insert_eq. by eauto.
Qed.

Ltac tagged :=
  match goal with
  | |- context [_prepareSaveData ?c ?n ?a ?h] =>
      let H := fresh "Htagged" in
      pose proof (prepareSaveData_tagged c n a h) as H;
      destruct (_prepareSaveData c n a h) as [[createData|] h1];
      cbn [fst snd] in *; [|done]
  end.

(** X15: the object an operation hands over bears the properties the
    operation sets, with the values of the parameters, whatever the
    caller's [attributeValues] holds under these names. *)
Theorem saved_object_tagged p h :
  Forall2 (λ operation set,
             ∀ l, (operation p h).1 = Saves (Ref l) →
                  ∀ k v, (k, v) ∈ set → sent (operation p h) k = Some v)
          operations (tags p).
Proof.
  unfold operations, tags.
  repeat constructor; intros l Hsaves k v Hin; unfold sent; rewrite Hsaves;
    revert Hsaves;
    unfold createRecord, createProcessRecord, updateRecord, collectionAction,
      updateAction, _save;
    tagged; intros [= ->];
    destruct (Htagged l eq_refl) as (o & Ho & Hclass & Hnew);
    cbn [fst snd]; rewrite ?write_lookup, ?write_if_lookup, Ho;
    destruct (ref_truthy (lifecycleName p)), (ref_truthy (templateName p));
    cbn [app] in Hin; simpl;
    repeat (apply elem_of_cons in Hin as [[= -> ->]|Hin];
            [by rewrite ?assoc_with_prop|]);
    by apply elem_of_nil in Hin.
Qed.


Lemma saved_object_tagged_witness :
  (updateRecord sample_save sample_store).1 = Saves (Ref 5%positive)
  ∧ sent (updateRecord sample_save sample_store) "key" = Some (RStr "42")
  ∧ sent (updateRecord sample_save sample_store) "is_new" = Some (RBool false).
Proof.
  assert ((updateRecord sample_save sample_store).1 = Saves (Ref 5%positive))
    as Hsaves by (vm_compute; reflexivity).
  split; [exact Hsaves|].
  pose proof (Forall2_lookup_lr _ _ _ 2 _ _
                (saved_object_tagged sample_save sample_store)
                eq_refl eq_refl _ Hsaves) as Hsent.
  split; apply Hsent; simpl; set_solver.
Defined.

(** ** Objects that hold primitive values only *)

Lemma flat_texts fuel stack h props :
  forallb (λ kv, is_primitive kv.2) props = true →
  mapM (λ kv : string * ref_value, pair kv.1 <$> stringify fuel stack h kv.2)
       props
  = Some ((λ kv, (kv.1, text_of kv.2)) <$> props).
Proof.
  induction props as [|[k v] props IH]; [done|]. simpl.
  intros [Hv Hprops]%andb_true_iff. rewrite (IH Hprops). clear IH.
  destruct v as [| | |[[]|[]| |]| | |]; try done; by destruct fuel.
Qed.

Lemma thread_cons {A B} (f : A → gmap loc object → B * gmap loc object) a l h :
  thread f (a :: l) h
  = (let '(b, h) := f a h in let '(bs, h) := thread f l h in (b :: bs, h)).
Proof. done. Qed.

Lemma flat_parsed h props :
  forallb (λ kv, is_primitive kv.2) props = true →
  thread (λ (kj : string * value) (h : gmap loc object),
            let '(v, h) := parse kj.2 h in ((kj.1, v), h))
         (omap (λ kt : string * option value, pair kt.1 <$> kt.2)
               ((λ kv, (kv.1, text_of kv.2)) <$> props)) h
  = (copied_props props, h).
Proof.
  unfold copied_props.
  set (property := λ (kj : string * value) (h : gmap loc object),
                     let '(v, h) := parse kj.2 h in ((kj.1, v), h)).
  induction props as [|[k v] props IH]; [done|].
  intros [Hv Hprops]%andb_true_iff. specialize (IH Hprops).
  rewrite fmap_cons.
  destruct v as [| | |[[]|[]| |]| | |]; try done;
    cbn [omap list_omap fst snd text_of copied fmap option_fmap option_map];
    rewrite ?thread_cons; unfold property at 1; cbn [parse fst snd];
    by rewrite IH.
Qed.

(** X16: of a caller's object that holds primitive values only and has
    no method [toJSON], the copy keeps each property under its name,
    except that a property holding [undefined] or a function is left out,
    that [NaN] and the infinities become [null] and that the negative
    zero becomes zero; [class_name] and [is_new] are then set on the
    copy. *)
Theorem flat_object_copied className isNew a props h :
  h !! a = Some (Object props) →
  forallb (λ kv, is_primitive kv.2) props = true →
  has_toJSON (Object props) = false →
  ∃ l,
    (_prepareSaveData className isNew (Ref a) h).1 = Some (Ref l)
    ∧ (_prepareSaveData className isNew (Ref a) h).2 !! l
      = Some (Object (assign "is_new" isNew
                        (assign "class_name" className (copied_props props)))).
Proof.
  intros Ha Hflat _. unfold _prepareSaveData, alloc. cbn zeta.
  set (l0 := fresh (dom h)). set (h1 := <[l0 := Object []]> h).
  assert (h1 !! a = Some (Object props)) as Ha1.
  { unfold h1. rewrite lookup_insert_ne; [done|].
    intros <-. assert (l0 ∉ dom h) as Hfresh by apply is_fresh.
    by apply Hfresh, elem_of_dom. }
  cbn [ref_truthy stringify].
  rewrite bool_decide_eq_false_2 by apply not_elem_of_nil.
  rewrite Ha1, flat_texts by done. cbn [mbind option_bind].
  cbn [parse]. rewrite flat_parsed by done.
  unfold alloc. cbn [fst snd]. eexists. split; [done|].
  rewrite !write_lookup, lookup_insert_eq. done.
Qed.

Lemma flat_object_copied_witness :
  ∃ l,
    (_prepareSaveData (RStr "IncidentManagement.Incident") (RBool true)
                      (Ref 1%positive) sample_flat).1 = Some (Ref l)
    ∧ (_prepareSaveData (RStr "IncidentManagement.Incident") (RBool true)
                        (Ref 1%positive) sample_flat).2 !! l
      = Some (Object [("Title", RStr "Printer on fire");
                      ("class_name", RStr "IncidentManagement.Incident");
                      ("Severity", RNum (of_Z 2));
                      ("Cost", RNull);
                      ("is_new", RBool true)]).
Proof.
  apply (flat_object_copied _ _ 1%positive
           [("Title", RStr "Printer on fire");
            ("class_name", RStr "Other.Class");
            ("Owner", RUndefined);
            ("onChange", RFunction);
            ("Severity", RNum (of_Z 2));
            ("Cost", RNum NaN)]);
    vm_compute; reflexivity.
Defined.

(** ** Objects that hold themselves *)

Lemma stringify_itself fuel stack h l :
  stringify fuel (l :: stack) h (Ref l) = None.
Proof.
  destruct fuel; [done|]. simpl.
  by rewrite bool_decide_eq_true_2 by left.
Qed.

Lemma prepareSaveData_itself className isNew a h :
  holds_itself h a →
  (_prepareSaveData className isNew (Ref a) h).1 = None.
Proof.
  intros Hself. unfold _prepareSaveData, alloc. cbn zeta.
  set (l0 := fresh (dom h)). set (h1 := <[l0 := Object []]> h).
  unfold holds_itself in Hself.
  destruct (h !! a) as [o|] eqn:Ha; [|done].
  assert (h1 !! a = Some o) as Ha1.
  { unfold h1. rewrite lookup_insert_ne; [done|].
    intros <-. assert (l0 ∉ dom h) as Hfresh by apply is_fresh.
    by apply Hfresh, elem_of_dom. }
  cbn [ref_truthy stringify].
  rewrite bool_decide_eq_false_2 by apply not_elem_of_nil.
  rewrite Ha1.
  destruct o as [props|elems props].
  - destruct Hself as [k Hk].
    destruct (mapM _ props) as [texts|] eqn:Htexts; [|done].
    pose proof (mk_is_Some _ _ Htexts) as Hsome.
    apply mapM_is_Some, Forall_forall with (x := (k, Ref a)) in Hsome; [|done].
    simpl in Hsome. rewrite stringify_itself in Hsome. by destruct Hsome.
  - destruct (mapM _ elems) as [texts|] eqn:Htexts; [|done].
    pose proof (mk_is_Some _ _ Htexts) as Hsome.
    apply mapM_is_Some, Forall_forall with (x := Ref a) in Hsome; [|done].
    simpl in Hsome. rewrite stringify_itself in Hsome. by destruct Hsome.
Qed.

(** X17: when the caller's [attributeValues] is an object that holds
    itself, as a property or as an element, and no object has a method
    [toJSON], each of the five operations throws: nothing is handed over
    to be sent. *)
Theorem object_holding_itself p h a :
  attributeValues p = Ref a →
  holds_itself h a →
  no_toJSON h →
  Forall (λ operation, (operation p h).1 = Throws) operations.
Proof.
  intros Hvalues Hself _. unfold operations.
  repeat constructor;
    unfold createRecord, createProcessRecord, updateRecord, collectionAction,
      updateAction;
    rewrite Hvalues;
    match goal with
    | |- context [_prepareSaveData ?c ?n (Ref a) h] =>
        pose proof (prepareSaveData_itself c n a h Hself) as Hnone;
        destruct (_prepareSaveData c n (Ref a) h) as [[createData|] h1]
    end; done.
Qed.

Lemma object_holding_itself_witness :
  Forall (λ operation, (operation sample_save sample_knot).1 = Throws)
         operations.
Proof.
  apply (object_holding_itself sample_save sample_knot 1%positive);
    [reflexivity| |].
  - exists "self". vm_compute. set_solver.
  - unfold no_toJSON, sample_knot. apply map_Forall_insert_2; [reflexivity|].
    apply map_Forall_empty.
Defined.

(** X18: when [attributeValues] is missing, or is another value taken
    for false, each operation hands over a new object that holds exactly
    the properties the operation sets, in the order it sets them. *)
Theorem without_attributeValues p h :
  ref_truthy (attributeValues p) = false →
  Forall2 (λ operation set,
             (operation p h).1 = Saves (Ref (fresh (dom h)))
             ∧ (operation p h).2 !! fresh (dom h) = Some (Object set))
          operations (tags p).
Proof.
  intros Hfalse. unfold operations, tags.
  repeat (apply Forall2_cons; split); try (by apply List.Forall2_nil);
    unfold createRecord, createProcessRecord, updateRecord, collectionAction,
      updateAction, _save, _prepareSaveData, alloc, write_if;
    cbn zeta; rewrite Hfalse; cbn [fst snd];
    destruct (ref_truthy (lifecycleName p)), (ref_truthy (templateName p));
    rewrite ?write_lookup, lookup_insert_eq; done.
Qed.

Lemma without_attributeValues_witness :
  let p :=
    {| className := RStr "IncidentManagement.Incident";
       key := RStr "42";
       attributeValues := RUndefined;
       lifecycleName := RStr "Incident";
       templateName := RUndefined;
       processClassName := RStr "IncidentManagement.Incident";
       processKey := RStr "42";
       actionName := RStr "Add Note";
       collectionClassName := RStr "IncidentManagement.Note" |} in
  Forall2 (λ operation set,
             (operation p sample_store).1
             = Saves (Ref (fresh (dom sample_store)))
             ∧ (operation p sample_store).2 !! fresh (dom sample_store)
               = Some (Object set))
          operations (tags p).
Proof.
  intros p. apply (without_attributeValues p sample_store). reflexivity.
Defined.

End SavedProps.

(* ===================================================================== *)
(** * Properties of query strings *)
(* ===================================================================== *)

Module UrlsProps.
Import JS Urls ParserProps.
Local Open Scope nat_scope.

(** ** What [parseQueryUrl] keeps of the pairs *)

Lemma present_Some k obj v :
  present k obj = Some v → obj !! k = Some v ∧ truthy v = true.
Proof.
  unfold present. destruct (obj !! k) as [w|]; [|done].
  destruct (truthy w) eqn:Hw; [|done]. by intros [= <-].
Qed.

Lemma selected_insert obj qd k v :
  present k obj = Some v → selected obj qd → selected obj (<[k := v]> qd).
Proof.
  intros Hk Hqd k' v'. destruct (decide (k = k')) as [<-|Hne].
  - rewrite lookup_insert_eq. by intros [= <-].
  - rewrite lookup_insert_ne by done. apply Hqd.
Qed.

Lemma selected_copy obj qd k :
  selected obj qd → selected obj (copy k obj qd).
Proof.
  intros Hqd. unfold copy.
  destruct (present k obj) as [v|] eqn:Hk; [by apply selected_insert|done].
Qed.

Lemma selected_criteria obj : ∀ fuel i qd,
  selected obj qd → selected obj (copy_criteria fuel i obj qd).
Proof.
  induction fuel as [|fuel IH]; intros i qd Hqd; [done|]. simpl.
  destruct (present _ obj) as [v|] eqn:Hi; [|done].
  apply IH. by apply selected_insert.
Qed.

Lemma pretty_N_go_digits x : ∀ s,
  only_digits s = true → only_digits (pretty_N_go x s) = true.
Proof.
  induction (N.lt_wf_0 x) as [x _ IH]; intros s Hs.
  assert (x = 0 ∨ 0 < x)%N as [->|?] by lia; [by rewrite pretty_N_go_0|].
  rewrite pretty_N_go_step by done. apply IH; [by apply N.div_lt|].
  simpl. rewrite Hs. unfold pretty_N_char. by repeat case_match.
Qed.

Lemma pretty_nat_digits (i : nat) : only_digits (pretty i) = true.
Proof.
  unfold pretty, pretty_nat, pretty, pretty_N.
  case_decide; [done|]. by apply pretty_N_go_digits.
Qed.

(** A criterion is [c] and digits: none of the fixed names. *)
Lemma fixed_not_criterion k j : k ∈ fixed_names → k ≠ criterion j.
Proof.
  intros Hk Heq. pose proof (pretty_nat_digits j) as Hdigits.
  unfold fixed_names, criterion in *.
  repeat (apply elem_of_cons in Hk as [->|Hk];
          [first [discriminate Heq
                 |injection Heq as Heq; cbv [String.append] in Heq;
                  rewrite <- Heq in Hdigits;
                  vm_compute in Hdigits; discriminate Hdigits]|]).
  by apply elem_of_nil in Hk.
Qed.

Lemma criterion_inj i j : criterion i = criterion j → i = j.
Proof. unfold criterion. intros [= H]. by apply pretty_nat_inj. Qed.

Lemma names_below_insert n qd k v :
  k ∈ fixed_names → names_below n qd → names_below n (<[k := v]> qd).
Proof.
  intros Hk [Hnames Hall]. split.
  - intros k' Hk'. destruct (decide (k = k')) as [<-|Hne]; [by left|].
    rewrite lookup_insert_ne in Hk' by done. by apply Hnames.
  - intros j Hj. destruct (decide (k = criterion j)) as [->|Hne].
    + rewrite lookup_insert_eq. by eauto.
    + rewrite lookup_insert_ne by done. by apply Hall.
Qed.

Lemma names_below_copy n qd obj k :
  k ∈ fixed_names → names_below n qd → names_below n (copy k obj qd).
Proof.
  intros Hk Hqd. unfold copy.
  destruct (present k obj); [by apply names_below_insert|done].
Qed.

Lemma names_below_criteria obj : ∀ fuel i qd,
  names_below i qd →
  ∃ n, names_below n (copy_criteria fuel i obj qd).
Proof.
  induction fuel as [|fuel IH]; intros i qd Hqd; [by exists i|]. simpl.
  fold (criterion i).
  destruct (present (criterion i) obj) as [v|] eqn:Hi; [|by exists i].
  apply IH. destruct Hqd as [Hnames Hall]. split.
  - intros k Hk. destruct (decide (criterion i = k)) as [<-|Hne].
    + right. exists i. split; [lia|done].
    + rewrite lookup_insert_ne in Hk by done.
      destruct (Hnames k Hk) as [?|(j & ? & ->)]; [by left|].
      right. exists j. split; [lia|done].
  - intros j Hj. destruct (decide (j = i)) as [->|Hne].
    + rewrite lookup_insert_eq. by eauto.
    + rewrite lookup_insert_ne by (by intros ?%criterion_inj).
      apply Hall. lia.
Qed.

(** The loop over the criteria leaves every other name alone. *)
Lemma criteria_other obj k : ∀ fuel i qd,
  (∀ j, i ≤ j → k ≠ criterion j) →
  copy_criteria fuel i obj qd !! k = qd !! k.
Proof.
  induction fuel as [|fuel IH]; intros i qd Hk; [done|]. simpl.
  fold (criterion i).
  destruct (present (criterion i) obj) as [v|]; [|done].
  rewrite IH by (intros j Hj; apply Hk; lia).
  rewrite lookup_insert_ne; [done|]. intros Heq. by apply (Hk i).
Qed.

(** The loop reaches every criterion of an unbroken run, fuel
    permitting. *)
Lemma criteria_reached obj : ∀ fuel i qd n,
  (∀ j, i ≤ j ≤ n → is_Some (present (criterion j) obj)) →
  i ≤ n < i + fuel →
  copy_criteria fuel i obj qd !! criterion n = present (criterion n) obj.
Proof.
  induction fuel as [|fuel IH]; intros i qd n Hrun Hn; [lia|]. simpl.
  fold (criterion i).
  destruct (Hrun i) as [v Hv]; [lia|]. rewrite Hv.
  destruct (decide (n = i)) as [->|Hne].
  - rewrite criteria_other.
    + by rewrite lookup_insert_eq.
    + intros j Hj Heq%criterion_inj. lia.
  - apply IH; [|lia]. intros j Hj. apply Hrun. lia.
Qed.

Lemma extract_selected obj qd :
  extract obj = Some qd →
  selected obj qd
  ∧ is_Some (qd !! "class_name")
  ∧ (is_Some (qd !! "attributes") → qd !! "query" = None)
  ∧ ∃ n, names_below n qd ∧ (0 < n → is_Some (qd !! "cns")).
Proof.
  unfold extract.
  destruct (present "class_name" obj) as [class_name|] eqn:Hclass; [|done].
  generalize (S (size obj)). intros fuel [= <-].
  set (qd0 := ({[ "class_name" := class_name ]} : gmap string value)).
  set (qd1 := match present "query" obj, present "attributes" obj with
              | Some q, None => <["query" := q]> qd0
              | _, _ => qd0
              end).
  set (qd2 := copy "sort_by" obj (copy "page_size" obj (copy "attributes" obj qd1))).
  assert (selected obj qd0) as Hsel0.
  { intros k v. unfold qd0. intros [<- <-]%lookup_singleton_Some. done. }
  assert (names_below 0 qd0) as Hnames0.
  { split; [|intros j Hj; lia].
    intros k [v [<- _]%lookup_singleton_Some]. left. set_solver. }
  assert (selected obj qd1 ∧ names_below 0 qd1
          ∧ is_Some (qd1 !! "class_name")
          ∧ (is_Some (present "attributes" obj) → qd1 !! "query" = None))
    as (Hsel1 & Hnames1 & Hclass1 & Hquery1).
  { unfold qd1.
    destruct (present "query" obj) as [q|] eqn:Hq,
             (present "attributes" obj) as [a|] eqn:Ha;
      (split_and!; [..|try done]);
      try done; try (by apply selected_insert);
      try (apply names_below_insert; [set_solver|done]);
      try (by unfold qd0; rewrite lookup_singleton_eq; eauto);
      try (by intros [? [=]]). }
  assert (selected obj qd2 ∧ names_below 0 qd2
          ∧ is_Some (qd2 !! "class_name")
          ∧ (is_Some (qd2 !! "attributes") → qd2 !! "query" = None))
    as (Hsel2 & Hnames2 & Hclass2 & Hquery2).
  { unfold qd2. split_and!.
    - by repeat apply selected_copy.
    - repeat (apply names_below_copy; [set_solver|]). done.
    - unfold copy. repeat case_match; by rewrite ?lookup_insert_ne.
    - intros [a Ha].
      assert (selected obj (copy "sort_by" obj
                (copy "page_size" obj (copy "attributes" obj qd1)))) as Hsel
        by by repeat apply selected_copy.
      apply Hsel in Ha.
      unfold copy. repeat case_match; rewrite ?lookup_insert_ne by done;
        apply Hquery1; by eauto. }
  destruct (present "cns" obj) as [cns|] eqn:Hcns.
  - set (qd3 := <["cns" := cns]> qd2).
    assert (names_below 0 qd3) as Hnames3.
    { apply names_below_insert; [set_solver|done]. }
    destruct (names_below_criteria obj fuel 0 qd3 Hnames3) as [n Hnames].
    assert (∀ k, (∀ j, k ≠ criterion j) →
                 copy_criteria fuel 0 obj qd3 !! k = qd3 !! k)
      as Hother by (intros; apply criteria_other; by auto).
    split_and!.
    + apply selected_criteria. unfold qd3. by apply selected_insert.
    + rewrite Hother by (intros j; apply fixed_not_criterion; set_solver).
      unfold qd3. by rewrite lookup_insert_ne.
    + rewrite !Hother by (intros j; apply fixed_not_criterion; set_solver).
      unfold qd3. rewrite !lookup_insert_ne by done. done.
    + exists n. split; [done|]. intros _.
      rewrite Hother by (intros j; apply fixed_not_criterion; set_solver).
      unfold qd3. rewrite lookup_insert_eq. by eauto.
  - split_and!; try done. exists 0. split; [done|lia].
Qed.


Lemma extract_criteria obj qd i :
  extract obj = Some qd →
  is_Some (present "cns" obj) →
  (∀ j, j ≤ i → is_Some (present (criterion j) obj)) →
  qd !! criterion i = present (criterion i) obj.
Proof.
  unfold extract. intros Hqd [cns Hcns] Hrun.
  destruct (present "class_name" obj) as [class_name|]; [|done].
  rewrite Hcns in Hqd. apply (inj Some) in Hqd as <-.
  apply criteria_reached; [intros j Hj; apply Hrun; lia|].
  assert (S i ≤ size obj); [|lia].
  apply criteria_bound. intros j Hj. apply Hrun. lia.
Qed.

(** X19: what [parseQueryUrl] returns as [queryData] is a selection of
    the pairs parsed: each entry is an entry parsed, with a value that is
    taken for true; [class_name] is there; [query] is not when
    [attributes] is; and each name is one of [class_name], [query],
    [attributes], [page_size], [sort_by] and [cns], or a criterion [cN],
    in which case [cns] and every criterion before it are there too. *)
Theorem queryData_selected queryString r :
  parseQueryUrl queryString = Result r →
  ∃ obj,
    parse_pairs (pairs_of queryString).2 ∅ = Some obj
    ∧ is_Some (queryData r !! "class_name")
    ∧ (is_Some (queryData r !! "attributes") → queryData r !! "query" = None)
    ∧ ∀ k v, queryData r !! k = Some v →
        obj !! k = Some v ∧ truthy v = true
        ∧ (k ∈ fixed_names
           ∨ ∃ i, k = criterion i ∧ is_Some (queryData r !! "cns")
                  ∧ ∀ j, j < i → is_Some (queryData r !! criterion j)).
Proof.
  unfold parseQueryUrl. destruct (pairs_of queryString) as [url pairs].
  cbn [snd].
  destruct (parse_pairs pairs ∅) as [obj|]; [|done].
  destruct (extract obj) as [qd|] eqn:Hqd; [|done].
  intros [= <-]. cbn [queryData].
  destruct (extract_selected obj qd Hqd)
    as (Hsel & Hclass & Hquery & n & [Hnames Hall] & Hcns).
  exists obj. split_and!; try done.
  intros k v Hk.
  destruct (present_Some k obj v (Hsel k v Hk)) as [Hobj Htrue].
  split_and!; try done.
  destruct (Hnames k) as [?|(i & Hi & ->)]; [by eauto|by left|].
  right. exists i. split_and!; [done|apply Hcns; lia|].
  intros j Hj. apply Hall. lia.
Qed.

Lemma queryData_selected_witness :
  parseQueryUrl sample_url = Result sample_parsed
  ∧ ∃ obj,
      parse_pairs (pairs_of sample_url).2 ∅ = Some obj
      ∧ is_Some (queryData sample_parsed !! "class_name")
      ∧ (is_Some (queryData sample_parsed !! "attributes") →
         queryData sample_parsed !! "query" = None)
      ∧ ∀ k v, queryData sample_parsed !! k = Some v →
          obj !! k = Some v ∧ truthy v = true
          ∧ (k ∈ fixed_names
             ∨ ∃ i, k = criterion i
                    ∧ is_Some (queryData sample_parsed !! "cns")
                    ∧ ∀ j, j < i →
                           is_Some (queryData sample_parsed !! criterion j)).
Proof.
  assert (parseQueryUrl sample_url = Result sample_parsed) as Hparsed
    by (vm_compute; reflexivity).
  split; [exact Hparsed|]. exact (queryData_selected _ _ Hparsed).
Defined.

(** X20: when [cns] is among the pairs with a value taken for true, the
    criterion [cN] is returned exactly when each of [c0] to [cN] is among
    the pairs with a value taken for true, and it is returned with the
    value parsed: the criteria are copied up to the first one that is
    missing, however many there are. *)
Theorem criteria_copied queryString r obj i :
  parseQueryUrl queryString = Result r →
  parse_pairs (pairs_of queryString).2 ∅ = Some obj →
  is_Some (present "cns" obj) →
  (is_Some (queryData r !! criterion i)
   ↔ ∀ j, j ≤ i → is_Some (present (criterion j) obj))
  ∧ ((∀ j, j ≤ i → is_Some (present (criterion j) obj)) →
     queryData r !! criterion i = obj !! criterion i).
Proof.
  unfold parseQueryUrl. destruct (pairs_of queryString) as [url pairs].
  cbn [snd]. intros Hr Hobj Hcns. rewrite Hobj in Hr.
  destruct (extract obj) as [qd|] eqn:Hqd; [|done].
  injection Hr as <-. cbn [queryData].
  destruct (extract_selected obj qd Hqd)
    as (Hsel & _ & _ & n & [Hnames Hall] & _).
  assert (∀ m, is_Some (qd !! criterion m) → m < n) as Hbelow.
  { intros m Hm. destruct (Hnames _ Hm) as [Hfixed|(j & Hj & Heq)].
    - by apply fixed_not_criterion with (j := m) in Hfixed.
    - apply criterion_inj in Heq as ->. done. }
  split.
  - split.
    + intros Hi j Hj. destruct (Hall j) as [v Hv]; [apply Hbelow in Hi; lia|].
      exists v. by apply Hsel.
    + intros Hrun. rewrite (extract_criteria obj qd i Hqd Hcns Hrun).
      by apply Hrun.
  - intros Hrun. rewrite (extract_criteria obj qd i Hqd Hcns Hrun).
    destruct (Hrun i) as [v Hv]; [lia|]. rewrite Hv.
    by apply present_Some in Hv as [-> _].
Qed.

Lemma criteria_copied_witness :
  parse_pairs (pairs_of sample_url).2 ∅ = Some sample_pairs
  ∧ (is_Some (queryData sample_parsed !! criterion 1)
     ↔ ∀ j, j ≤ 1 → is_Some (present (criterion j) sample_pairs))
  ∧ ((∀ j, j ≤ 1 → is_Some (present (criterion j) sample_pairs)) →
     queryData sample_parsed !! criterion 1 = sample_pairs !! criterion 1).
Proof.
  split; [vm_compute; reflexivity|].
  apply (criteria_copied sample_url sample_parsed sample_pairs 1);
    [vm_compute; reflexivity..|].
  vm_compute. eauto.
Defined.


(** ** Escapes *)

Lemma decode_literal a rest lo hi :
  a ≠ "%"%char →
  decode 0 lo hi (String a rest) = String a <$> decode 0 128 191 rest.
Proof.
  intros Ha.
  destruct a as [[] [] [] [] [] [] [] []]; try done.
Qed.

Lemma indexOf_cons_None c a s :
  indexOf c (String a s) = None → a ≠ c ∧ indexOf c s = None.
Proof.
  simpl. destruct (Ascii.eqb a c) eqn:Ha; [done|].
  apply Ascii.eqb_neq in Ha. by destruct (indexOf c s).
Qed.

(** A text without a percent sign decodes to itself. *)
Lemma decode_plain s : ∀ lo hi,
  indexOf "%" s = None → decode 0 lo hi s = Some s.
Proof.
  induction s as [|a s IH]; intros lo hi Hs; [done|].
  apply indexOf_cons_None in Hs as [Ha Hs].
  by rewrite decode_literal, IH.
Qed.

Lemma split_plain c s :
  indexOf "%" s = None → Forall (λ piece, indexOf "%" piece = None) (split c s).
Proof.
  induction s as [|a s IH]; intros Hs; [by repeat constructor|].
  apply indexOf_cons_None in Hs as [Ha Hs]. specialize (IH Hs). simpl.
  destruct (Ascii.eqb a c); [by constructor|].
  apply Ascii.eqb_neq in Ha.
  destruct (split c s) as [|piece pieces].
  - constructor; [|constructor]. simpl. by rewrite Ha.
  - apply Forall_cons in IH as [Hpiece Hpieces]. constructor; [|done].
    simpl. by rewrite Ha, Hpiece.
Qed.

Lemma drop_chars_plain n : ∀ s,
  indexOf "%" s = None → indexOf "%" (drop_chars n s) = None.
Proof.
  induction n as [|n IH]; intros [|a s] Hs; try done.
  apply indexOf_cons_None in Hs as [_ Hs]. by apply IH.
Qed.

Lemma parse_pair_plain raw :
  indexOf "%" raw = None → is_Some (parse_pair raw).
Proof.
  intros Hraw. unfold parse_pair.
  pose proof (split_plain "=" raw Hraw) as Hpieces.
  destruct (split "=" raw) as [|name [|text pieces]]; simpl.
  - by eauto.
  - apply Forall_cons in Hpieces as [Hname _].
    unfold decodeURIComponent. rewrite decode_plain by done. by eauto.
  - apply Forall_cons in Hpieces as [Hname Hpieces].
    apply Forall_cons in Hpieces as [Htext _].
    unfold decodeURIComponent. rewrite !decode_plain by done. simpl.
    destruct (is_NaN _); by eauto.
Qed.

Lemma parse_pairs_plain pairs : ∀ obj,
  Forall (λ piece, indexOf "%" piece = None) pairs →
  is_Some (parse_pairs pairs obj).
Proof.
  induction pairs as [|raw pairs IH]; intros obj Hpairs; [by eauto|].
  apply Forall_cons in Hpairs as [Hraw Hpairs]. simpl.
  destruct (parse_pair_plain raw Hraw) as [[name v] ->]. by apply IH.
Qed.

Lemma pairs_of_plain queryString :
  indexOf "%" queryString = None →
  Forall (λ piece, indexOf "%" piece = None) (pairs_of queryString).2.
Proof.
  intros Hs. unfold pairs_of.
  pose proof (split_plain "&" queryString Hs) as Hpieces.
  destruct (split "&" queryString) as [|first rest]; simpl.
  - by constructor.
  - apply Forall_cons in Hpieces as [Hfirst Hrest].
    destruct (indexOf "?" first) as [qMarkPos|]; cbn [snd hd tl];
      constructor; try done.
    by apply (drop_chars_plain (S qMarkPos)).
Qed.

(** X21: [parseQueryUrl] throws on a percent sign only: a query string
    without one is parsed, whatever else it holds. *)
Theorem throws_on_escapes_only queryString :
  parseQueryUrl queryString = URIError →
  is_Some (indexOf "%" queryString).
Proof.
  intros Hthrows.
  destruct (indexOf "%" queryString) as [k|] eqn:Hplain; [by eauto|].
  pose proof (parse_pairs_plain _ ∅ (pairs_of_plain _ Hplain)) as [obj Hobj].
  unfold parseQueryUrl in Hthrows.
  destruct (pairs_of queryString) as [url pairs]. simpl in Hobj.
  rewrite Hobj in Hthrows. by destruct (extract obj).
Qed.

Lemma throws_on_escapes_only_witness :
  parseQueryUrl "class_name=Incident&query=100%" = URIError
  ∧ is_Some (indexOf "%" "class_name=Incident&query=100%").
Proof.
  split; [vm_compute; reflexivity|].
  apply throws_on_escapes_only. vm_compute; reflexivity.
Defined.


(** ** Writing a query string and reading it back *)

(** An escape is a percent sign and the two hexadecimal digits of the
    octet. *)
Lemma escape_digits a :
  ∃ h1 h2 d1 d2,
    escape a = String "%" (String h1 (String h2 EmptyString))
    ∧ digit_of 16 h1 = Some d1 ∧ digit_of 16 h2 = Some d2
    ∧ Z.to_N (16 * d1 + d2) = code a
    ∧ h1 ≠ "="%char ∧ h2 ≠ "="%char ∧ h1 ≠ "&"%char ∧ h2 ≠ "&"%char.
Proof.
  destruct a as [[] [] [] [] [] [] [] []];
    (eexists _, _, _, _; split_and!;
     [vm_compute; reflexivity..|done|done|done|done]).
Qed.

Lemma unreserved_plain a :
  is_unreserved a = true →
  (code a <? 128)%N = true ∧ a ≠ "%"%char ∧ a ≠ "="%char ∧ a ≠ "&"%char.
Proof. destruct a as [[] [] [] [] [] [] [] []]; by vm_compute. Qed.

Lemma chr_code a : chr (code a) = a.
Proof. apply ascii_N_embedding. Qed.

Lemma decode_escape pending lo hi h1 h2 d1 d2 rest :
  digit_of 16 h1 = Some d1 → digit_of 16 h2 = Some d2 →
  decode pending lo hi (String "%" (String h1 (String h2 rest)))
  = let b := Z.to_N (16 * d1 + d2) in
    match pending with
    | S k =>
        if ((lo <=? b) && (b <=? hi))%N
        then String (chr b) <$> decode k 128 191 rest
        else None
    | 0 =>
        if (b <? 128)%N then String (chr b) <$> decode 0 128 191 rest
        else if ((194 <=? b) && (b <=? 223))%N
             then String (chr b) <$> decode 1 128 191 rest
        else if (b =? 224)%N
             then String (chr b) <$> decode 2 160 191 rest
        else if (b =? 237)%N
             then String (chr b) <$> decode 2 128 159 rest
        else if ((225 <=? b) && (b <=? 239))%N
             then String (chr b) <$> decode 2 128 191 rest
        else if (b =? 240)%N
             then String (chr b) <$> decode 3 144 191 rest
        else if ((241 <=? b) && (b <=? 243))%N
             then String (chr b) <$> decode 3 128 191 rest
        else if (b =? 244)%N
             then String (chr b) <$> decode 3 128 143 rest
        else None
    end.
Proof. intros H1 H2. cbn [decode]. by rewrite H1, H2. Qed.

(** Decoding undoes encoding, on well-formed text. *)
Lemma decode_encode s : ∀ pending lo hi,
  (128 ≤ lo)%N →
  utf8 pending lo hi s = true →
  decode pending lo hi (encode s) = Some s.
Proof.
  induction s as [|a s IH]; intros pending lo hi Hlo Hs.
  { by destruct pending. }
  cbn [encode utf8] in *.
  destruct (is_unreserved a) eqn:Ha.
  - destruct (unreserved_plain a Ha) as (Hlow & Hpercent & _).
    change (String a "" +:+ encode s) with (String a (encode s)).
    destruct pending as [|k].
    + rewrite Hlow in Hs. by rewrite decode_literal, IH.
    + apply andb_true_iff in Hs as [Hrange _].
      apply andb_true_iff in Hrange as [Hge _].
      apply N.ltb_lt in Hlow. apply N.leb_le in Hge. lia.
  - destruct (escape_digits a) as (h1 & h2 & d1 & d2 & -> & H1 & H2 & Hb & _).
    change (String "%" (String h1 (String h2 "")) +:+ encode s)
      with (String "%" (String h1 (String h2 (encode s)))).
    rewrite (decode_escape _ _ _ _ _ _ _ _ H1 H2). cbv zeta.
    rewrite Hb, chr_code.
    destruct pending as [|k].
    + repeat case_match; try done; by rewrite IH.
    + apply andb_true_iff in Hs as [-> Hs]. by rewrite IH.
Qed.


(** Well-formed text holds no surrogate. *)
Lemma utf8_no_surrogate s : ∀ pending lo hi,
  (hi ≤ 191)%N → utf8 pending lo hi s = true → has_surrogate s = false.
Proof.
  induction s as [|a s IH]; intros pending lo hi Hhi Hs; [done|].
  destruct s as [|b rest]; [done|].
  change (has_surrogate (String a (String b rest)))
    with (((code a =? 237) && (160 <=? code b))%N
          || has_surrogate (String b rest)).
  apply orb_false_iff.
  change (utf8 pending lo hi (String a (String b rest)))
    with (match pending with
          | S k => ((lo <=? code a) && (code a <=? hi))%N
                   && utf8 k 128 191 (String b rest)
          | 0 =>
              if (code a <? 128)%N then utf8 0 128 191 (String b rest)
              else if ((194 <=? code a) && (code a <=? 223))%N
                   then utf8 1 128 191 (String b rest)
              else if (code a =? 224)%N then utf8 2 160 191 (String b rest)
              else if (code a =? 237)%N then utf8 2 128 159 (String b rest)
              else if ((225 <=? code a) && (code a <=? 239))%N
                   then utf8 2 128 191 (String b rest)
              else if (code a =? 240)%N then utf8 3 144 191 (String b rest)
              else if ((241 <=? code a) && (code a <=? 243))%N
                   then utf8 3 128 191 (String b rest)
              else if (code a =? 244)%N then utf8 3 128 143 (String b rest)
              else false
          end) in Hs.
  destruct pending as [|k].
  - destruct (code a =? 237)%N eqn:Hsurrogate.
    + apply N.eqb_eq in Hsurrogate. rewrite Hsurrogate in Hs.
      cbn [N.ltb N.leb N.eqb N.compare Pos.compare Pos.compare_cont Pos.eqb
           andb] in Hs.
      split; [|by eapply (IH 2 128%N 159%N); [lia|]].
      cbn [utf8] in Hs. apply andb_true_iff in Hs as [Hrange _].
      apply andb_true_iff in Hrange as [_ Hle]. apply N.leb_le in Hle.
      apply andb_false_iff. right. apply N.leb_gt. lia.
    + split; [done|].
      repeat case_match; try done;
        match goal with
        | H : utf8 ?k ?l ?h _ = true |- _ => by eapply (IH k l h); [lia|]
        end.
  - apply andb_true_iff in Hs as [Hrange Hs].
    apply andb_true_iff in Hrange as [_ Hle]. apply N.leb_le in Hle.
    split; [|by eapply (IH k 128%N 191%N); [lia|]].
    apply andb_false_iff. left. apply N.eqb_neq. lia.
Qed.

Lemma encodeURIComponent_utf8 s :
  is_utf8 s = true → encodeURIComponent s = Some (encode s).
Proof.
  intros Hs. unfold encodeURIComponent.
  by rewrite (utf8_no_surrogate s 0 128%N 191%N).
Qed.

Lemma decodeURIComponent_encode s :
  is_utf8 s = true → decodeURIComponent (encode s) = Some s.
Proof. intros Hs. by apply decode_encode. Qed.

(** Encoded text holds no equals sign and no ampersand. *)
Lemma indexOf_app_None c s t :
  indexOf c s = None → indexOf c t = None → indexOf c (s +:+ t) = None.
Proof.
  intros Hs Ht. induction s as [|a s IH]; [done|].
  apply indexOf_cons_None in Hs as [Ha Hs].
  change (String a s +:+ t) with (String a (s +:+ t)). cbn [indexOf].
  apply Ascii.eqb_neq in Ha. by rewrite Ha, IH.
Qed.

Lemma encode_free c s :
  c = "="%char ∨ c = "&"%char → indexOf c (encode s) = None.
Proof.
  intros Hc. induction s as [|a s IH]; [done|]. cbn [encode].
  apply indexOf_app_None; [|done].
  destruct (is_unreserved a) eqn:Ha.
  - destruct (unreserved_plain a Ha) as (_ & _ & Heq & Hamp).
    assert (a ≠ c) as Hne by (by destruct Hc as [->| ->]).
    apply Ascii.eqb_neq in Hne. cbn [indexOf]. by rewrite Hne.
  - destruct (escape_digits a)
      as (h1 & h2 & d1 & d2 & -> & _ & _ & _ & ? & ? & ? & ?).
    assert (h1 ≠ c ∧ h2 ≠ c ∧ "%"%char ≠ c) as (N1 & N2 & N3)
      by (by destruct Hc as [->| ->]).
    apply Ascii.eqb_neq in N1, N2, N3. cbn [indexOf].
    by rewrite N1, N2, N3.
Qed.

Lemma split_whole c s : indexOf c s = None → split c s = [s].
Proof.
  induction s as [|a s IH]; [done|].
  intros [Ha Hs]%indexOf_cons_None. simpl.
  apply Ascii.eqb_neq in Ha. by rewrite Ha, IH.
Qed.

Lemma split_app c s t :
  indexOf c s = None → split c (s +:+ String c t) = s :: split c t.
Proof.
  induction s as [|a s IH].
  - intros _. change ("" +:+ String c t) with (String c t). simpl.
    by rewrite Ascii.eqb_refl.
  - intros [Ha Hs]%indexOf_cons_None.
    change (String a s +:+ String c t) with (String a (s +:+ String c t)).
    cbn [split]. apply Ascii.eqb_neq in Ha. by rewrite Ha, IH.
Qed.

Lemma split_join c parts :
  parts ≠ [] → Forall (λ piece, indexOf c piece = None) parts →
  split c (join c parts) = parts.
Proof.
  induction parts as [|piece parts IH]; [done|]. intros _ Hparts.
  apply Forall_cons in Hparts as [Hpiece Hparts].
  destruct parts as [|piece' parts]; [by apply split_whole|].
  change (join c (piece :: piece' :: parts))
    with (piece +:+ String c (join c (piece' :: parts))).
  rewrite split_app by done. by rewrite IH.
Qed.

(** What is read from the text written for one property. *)
Lemma part_read_back name text written :
  is_utf8 name = true → is_utf8 text = true →
  part name text = Some written →
  indexOf "&" written = None
  ∧ parse_pair written = Some (name, read_back text).
Proof.
  intros Hname Htext. unfold part.
  rewrite !encodeURIComponent_utf8 by done. simpl. intros [= <-].
  split.
  - apply indexOf_app_None; [apply encode_free; by right|].
    change ("=" +:+ encode text) with (String "=" (encode text)).
    cbn [indexOf]. rewrite (encode_free "&") by (by right). done.
  - unfold parse_pair.
    change (encode name +:+ "=" +:+ encode text)
      with (encode name +:+ String "=" (encode text)).
    rewrite split_app by (apply encode_free; by left).
    rewrite split_whole by (apply encode_free; by left).
    change ([encode name; encode text] !! 0) with (Some (encode name)).
    change ([encode name; encode text] !! 1) with (Some (encode text)).
    cbn [default id]. rewrite decodeURIComponent_encode by done.
    cbn [mbind option_bind].
    unfold value_of, read_back.
    destruct (is_NaN _); [|done].
    by rewrite decodeURIComponent_encode.
Qed.



End UrlsProps.

(* ===================================================================== *)
(** * Properties of the answers of the transport *)
(* ===================================================================== *)

Module TransportProps.
Import JS Transport RequestProps StepsProps.
Import SchemaProps.
Local Open Scope nat_scope.

Section Answers.
Variable JSON_parse : string → option value.

(** X23: what a request is answered with.  Each exchange is answered;
    a failure carries the status code of the response, as a number; and
    the answer is a success only for a response that arrived with status
    200 and without the mark of a failed integrated logon, with the
    parsed body as data, or, when JSON is not required and the body does
    not parse, with the body itself. *)
Theorem answer_by_status requireJSON a :
  ∃ r,
    answer_to JSON_parse requireJSON a = Some r
    ∧ match r with
      | Failed statusCode _ =>
          statusCode
          = Num (of_Z (Z.of_N (status match a with
                                       | Arrives x | Breaks x => x
                                       end)))
      | Loaded data seen =>
          ∃ x, a = Arrives x ∧ status x = 200%N
               ∧ integrated_logon_failed x = false
               ∧ seen = as_value x
               ∧ (JSON_parse (responseText x) = Some data
                  ∨ (requireJSON = false
                     ∧ JSON_parse (responseText x) = None
                     ∧ data = Str (responseText x)))
      end.
Proof.
  destruct a as [x|x]; cbn [answer_to]; unfold onload, onerror, onAjaxError,
    onAjaxSuccess; [|by eexists].
  destruct (status x =? 200)%N eqn:Hstatus; cbn [negb]; [|by eexists].
  apply N.eqb_eq in Hstatus.
  destruct (integrated_logon_failed x) eqn:Hlogon; [by eexists|].
  destruct (JSON_parse (responseText x)) as [data|] eqn:Hparse.
  - eexists. split; [done|]. exists x. by eauto 10.
  - destruct requireJSON; [by eexists|].
    eexists. split; [done|]. exists x. by eauto 10.
Qed.

Lemma error_text_message x errorText data message :
  is_empty errorText && (status x =? 0)%N = false →
  JSON_parse (responseText x) = Some data →
  get "message" data = Some message →
  truthy message = true →
  error_text JSON_parse x errorText = message.
Proof.
  intros Hconnected Hparse Hget Htruthy. unfold error_text.
  rewrite Hconnected, Hparse. simpl. rewrite Hget. simpl. by rewrite Htruthy.
Qed.

(** X24: a message of the service takes precedence.  When the body of
    the response parses to an object with a [message] that is taken for
    true, a failure is reported with that message as it is, a string or
    not: in place of the status text when the status is not 200, and in
    place of the text of the failed integrated logon when it is. *)
Theorem service_message_reported requireJSON x data message :
  JSON_parse (responseText x) = Some data →
  get "message" data = Some message →
  truthy message = true →
  (status x ≠ 200%N → status x ≠ 0%N →
   answer_to JSON_parse requireJSON (Arrives x)
   = Some (Failed (Num (of_Z (Z.of_N (status x)))) message)
   ∧ answer_to JSON_parse requireJSON (Breaks x)
     = Some (Failed (Num (of_Z (Z.of_N (status x)))) message))
  ∧ (status x = 200%N → integrated_logon_failed x = true →
     answer_to JSON_parse requireJSON (Arrives x)
     = Some (Failed (Num (of_Z 200)) message)).
Proof.
  intros Hparse Hget Htruthy. split.
  - intros H200 H0. apply N.eqb_neq in H200, H0.
    cbn [answer_to]. unfold onload, onerror, onAjaxError.
    rewrite H200. cbn [negb].
    rewrite (error_text_message x (statusText x) data message); try done.
    by rewrite H0, andb_false_r.
  - intros H200 Hlogon. cbn [answer_to]. unfold onload, onAjaxError.
    rewrite H200, Hlogon. cbn [N.eqb Pos.eqb negb].
    by rewrite (error_text_message x _ data message).
Qed.

(** X25: the texts of the failures the service gave no message for.
    A connection that fails, status 0 and no status text, is reported as
    "Connection Failed" with status code 0, whatever the response holds.
    When the body does not parse and is not the error page of the
    service: a response with another status than 200 is reported with
    its status text followed by the status code in brackets, and one
    with status 200 is, for an exchange that requires JSON, the failure
    "Invalid Response (200)" and, for one that does not, a success with
    the body as data. *)
Theorem failure_texts x :
  (status x = 0%N → statusText x = "" →
   answer_to JSON_parse true (Breaks x)
   = Some (Failed (Num (of_Z 0)) (Str "Connection Failed")))
  ∧ (JSON_parse (responseText x) = None →
     find "exceptionMessage" (responseText x) = None →
     (status x ≠ 200%N →
      status x ≠ 0%N ∨ statusText x ≠ "" →
      ∀ requireJSON,
        answer_to JSON_parse requireJSON (Arrives x)
        = Some (Failed (Num (of_Z (Z.of_N (status x))))
                       (Str (statusText x +:+ " (" +:+ pretty (status x)
                             +:+ ")"))))
     ∧ (status x = 200%N →
        integrated_logon_failed x = false →
        answer_to JSON_parse true (Arrives x)
        = Some (Failed (Num (of_Z 200)) (Str "Invalid Response (200)"))
        ∧ answer_to JSON_parse false (Arrives x)
          = Some (Loaded (Str (responseText x)) (as_value x)))).
Proof.
  split.
  - intros H0 Htext. cbn [answer_to]. unfold onerror, onAjaxError, error_text.
    by rewrite H0, Htext.
  - intros Hparse Hpage. split.
    + intros H200 Hconnected requireJSON. apply N.eqb_neq in H200.
      cbn [answer_to]. unfold onload, onAjaxError, error_text.
      rewrite H200, Hparse, Hpage. cbn [negb].
      assert (is_empty (statusText x) && (status x =? 0)%N = false) as ->;
        [|done].
      destruct Hconnected as [H0|Htext].
      * apply N.eqb_neq in H0. by rewrite H0, andb_false_r.
      * by destruct (statusText x).
    + intros H200 Hlogon.
      cbn [answer_to]. unfold onload, onAjaxError, onAjaxSuccess, error_text.
      by rewrite H200, Hlogon, Hparse, Hpage.
Qed.

Lemma go_failed p statusCode errorText replies :
  loose_eq_num statusCode (of_Z 403) = false →
  request_go p (Failed statusCode errorText :: replies)
  = call_exchange p ::
    (if onError p
     then [OnError (Obj [("statusCode", statusCode);
                         ("errorText", errorText)])]
     else []).
Proof.
  intros Hother. rewrite request_go_first.
  cbn [answer go_exchange error_callback].
  unfold m_onError. rewrite Hother.
  cbn [initial m_loginAttempted negb andb set_result m_autoLogOff].
  unfold m_returnError. cbn [fst snd]. rewrite rest_of_idle.
  by rewrite app_nil_r.
Qed.

Lemma go_loaded p x data processed replies :
  status x = 200%N →
  processed_by p data (as_value x) = Some processed →
  request_go p (Loaded data (as_value x) :: replies)
  = call_exchange p ::
    (if onLoad p
     then [OnLoad (Obj [("data", processed); ("response", as_value x);
                        ("statusCode", Num (of_Z 200));
                        ("loggedOn", Bool false); ("loggedOff", Bool false)])]
     else []).
Proof.
  intros H200 Hprocessed.
  rewrite request_go_first. cbn [answer go_exchange load_callback].
  unfold m_onLoad. unfold processed_by in Hprocessed. rewrite Hprocessed.
  assert (get "status" (as_value x) = Some (Num (of_Z 200))) as ->
    by (unfold as_value; by rewrite H200).
  cbn [initial set_success m_autoLogOff].
  unfold m_returnLoad. cbn -[of_Z rest_of as_value].
  rewrite rest_of_idle, app_nil_r.
  by destruct (onLoad p).
Qed.

(** X26: a request over HTTP.  A response with status 403 to a request
    without login on demand reaches the caller as "Not Logged In",
    whatever the service said in its body; a response with status 200
    and a body that parses reaches the caller of a new request as the
    result [{data, response, statusCode: 200, loggedOn: false,
    loggedOff: false}], [data] being what the response processor leaves
    of the parsed body. *)
Theorem over_http p x r replies :
  answer_to JSON_parse (requireJSON p) (Arrives x) = Some r →
  (status x = 403%N →
   loginOnDemand (connection p) = false →
   request_go p (r :: replies)
   = call_exchange p ::
     (if onError p
      then [OnError (Obj [("statusCode", Num (of_Z 403));
                          ("errorText", Str "Not Logged In")])]
      else []))
  ∧ (status x = 200%N →
     integrated_logon_failed x = false →
     ∀ data processed,
       JSON_parse (responseText x) = Some data →
       processed_by p data (as_value x) = Some processed →
       request_go p (r :: replies)
       = call_exchange p ::
         (if onLoad p
          then [OnLoad (Obj [("data", processed); ("response", as_value x);
                             ("statusCode", Num (of_Z 200));
                             ("loggedOn", Bool false);
                             ("loggedOff", Bool false)])]
          else [])).
Proof.
  intros Hanswer. split.
  - intros H403 Hdemand.
    cbn [answer_to] in Hanswer. unfold onload, onAjaxError in Hanswer.
    rewrite H403 in Hanswer. cbn [N.eqb Pos.eqb negb] in Hanswer.
    change (Z.of_N 403) with 403%Z in Hanswer.
    assert (r = Failed (Num (of_Z 403))
                       (error_text JSON_parse x (statusText x))) as ->
      by congruence.
    rewrite request_go_first. cbn [answer go_exchange error_callback].
    unfold m_onError. rewrite Hdemand.
    assert (loose_eq_num (Num (of_Z 403)) (of_Z 403) = true) as ->
      by (vm_compute; reflexivity).
    cbn [initial m_loginAttempted negb andb set_result m_autoLogOff].
    unfold m_returnError. cbn [fst snd]. rewrite rest_of_idle.
    by rewrite app_nil_r.
  - intros H200 Hlogon data processed Hparse Hprocessed.
    cbn [answer_to] in Hanswer. unfold onload, onAjaxSuccess in Hanswer.
    rewrite H200, Hlogon, Hparse in Hanswer.
    cbn [N.eqb Pos.eqb negb] in Hanswer.
    assert (r = Loaded data (as_value x)) as -> by congruence.
    by apply go_loaded.
Qed.

(** X30: the two actions on a body that is not JSON.  When the response
    arrives with status 200 and a body that does not parse,
    [windowlessAction] succeeds, with the body as data, and
    [attachDetachAction] fails, with "Invalid Response (200)". *)
Theorem actions_on_text
    connection className key actionName linkedClassName linkedKey
    onLoad onError x accepted refused replies :
  status x = 200%N →
  integrated_logon_failed x = false →
  JSON_parse (responseText x) = None →
  find "exceptionMessage" (responseText x) = None →
  answer_to JSON_parse false (Arrives x) = Some accepted →
  answer_to JSON_parse true (Arrives x) = Some refused →
  windowlessAction connection className key actionName onLoad onError
                   (accepted :: replies)
  = call_exchange
      (invokeFunction_request connection
         (windowless_actionData className key actionName)
         onLoad onError false) ::
    (if onLoad
     then [OnLoad (Obj [("data", Str (responseText x));
                        ("response", as_value x);
                        ("statusCode", Num (of_Z 200));
                        ("loggedOn", Bool false); ("loggedOff", Bool false)])]
     else [])
  ∧ attachDetachAction connection className key actionName linkedClassName
                       linkedKey onLoad onError (refused :: replies)
    = call_exchange
        (invokeFunction_request connection
           (attachDetach_actionData className key actionName linkedClassName
                                    linkedKey)
           onLoad onError true) ::
      (if onError
       then [OnError (Obj [("statusCode", Num (of_Z 200));
                           ("errorText", Str "Invalid Response (200)")])]
       else []).
Proof.
  intros H200 Hlogon Hparse Hpage Haccepted Hrefused.
  cbn [answer_to] in Haccepted, Hrefused.
  unfold onload, onAjaxError, onAjaxSuccess, error_text in Haccepted, Hrefused.
  rewrite H200, Hlogon, Hparse in Haccepted.
  rewrite H200, Hlogon, Hparse, Hpage in Hrefused.
  cbn [N.eqb Pos.eqb negb] in Haccepted.
  assert (accepted = Loaded (Str (responseText x)) (as_value x)) as ->
    by congruence.
  assert (refused = Failed (Num (of_Z 200)) (Str "Invalid Response (200)"))
    as -> by (vm_compute in Hrefused; vm_compute; congruence).
  unfold windowlessAction, attachDetachAction, _invokeFunction. split.
  - by rewrite (go_loaded _ x (Str (responseText x)) (Str (responseText x))).
  - rewrite go_failed; [done|]. vm_compute. reflexivity.
Qed.

End Answers.

Lemma service_message_reported_witness :
  answer_to sample_JSON_parse true (Arrives sample_refused)
  = Some (Failed (Num (of_Z 500)) (Str "No such object"))
  ∧ answer_to sample_JSON_parse true (Breaks sample_refused)
    = Some (Failed (Num (of_Z 500)) (Str "No such object")).
Proof.
  apply (service_message_reported sample_JSON_parse true sample_refused
           (Obj [("message", Str "No such object")]) (Str "No such object"));
    [vm_compute; reflexivity|reflexivity|reflexivity|discriminate|discriminate].
Defined.

Lemma failure_texts_witness :
  answer_to sample_JSON_parse true (Breaks sample_unreachable)
  = Some (Failed (Num (of_Z 0)) (Str "Connection Failed"))
  ∧ answer_to sample_JSON_parse true (Arrives sample_forbidden)
    = Some (Failed (Num (of_Z 403)) (Str "Forbidden (403)"))
  ∧ answer_to sample_JSON_parse true (Arrives sample_welcome)
    = Some (Failed (Num (of_Z 200)) (Str "Invalid Response (200)")).
Proof.
  split_and!.
  - apply (proj1 (failure_texts sample_JSON_parse sample_unreachable));
      reflexivity.
  - refine (proj1 (proj2 (failure_texts sample_JSON_parse sample_forbidden)
                     _ _) _ _ true);
      [vm_compute; reflexivity|vm_compute; reflexivity|discriminate|].
    left. discriminate.
  - refine (proj1 (proj2 (proj2 (failure_texts sample_JSON_parse
                                               sample_welcome) _ _) _ _));
      vm_compute; reflexivity.
Defined.

Lemma over_http_witness :
  request_go (sample_parameters false false)
             [Failed (Num (of_Z 403)) (Str "Forbidden (403)")]
  = call_exchange (sample_parameters false false) ::
    (if onError (sample_parameters false false)
     then [OnError (Obj [("statusCode", Num (of_Z 403));
                         ("errorText", Str "Not Logged In")])]
     else [])
  ∧ request_go (sample_parameters false false)
               [Loaded (Obj []) (as_value sample_empty_object)]
    = call_exchange (sample_parameters false false) ::
      (if onLoad (sample_parameters false false)
       then [OnLoad (Obj [("data", Obj []);
                          ("response", as_value sample_empty_object);
                          ("statusCode", Num (of_Z 200));
                          ("loggedOn", Bool false);
                          ("loggedOff", Bool false)])]
       else []).
Proof.
  split.
  - refine (proj1 (over_http sample_JSON_parse (sample_parameters false false)
                             sample_forbidden _ [] _) _ _);
      [vm_compute; reflexivity|reflexivity|reflexivity].
  - refine (proj2 (over_http sample_JSON_parse (sample_parameters false false)
                             sample_empty_object _ [] _) _ _
                  (Obj []) (Obj []) _ _);
      [vm_compute; reflexivity|reflexivity|reflexivity|reflexivity
      |reflexivity].
Defined.

Lemma actions_on_text_witness :
  windowlessAction (sample_connection false false) (Str "Incident") (Str "42")
                   (Str "Close") true true
                   [Loaded (Str "<html>Welcome</html>")
                           (as_value sample_welcome)]
  = call_exchange
      (invokeFunction_request (sample_connection false false)
         (windowless_actionData (Str "Incident") (Str "42") (Str "Close"))
         true true false) ::
    [OnLoad (Obj [("data", Str "<html>Welcome</html>");
                  ("response", as_value sample_welcome);
                  ("statusCode", Num (of_Z 200));
                  ("loggedOn", Bool false); ("loggedOff", Bool false)])]
  ∧ attachDetachAction (sample_connection false false) (Str "Incident")
                       (Str "42") (Str "Close") (Str "Note") (Str "7")
                       true true
                       [Failed (Num (of_Z 200))
                               (Str "Invalid Response (200)")]
    = call_exchange
        (invokeFunction_request (sample_connection false false)
           (attachDetach_actionData (Str "Incident") (Str "42") (Str "Close")
                                    (Str "Note") (Str "7"))
           true true true) ::
      [OnError (Obj [("statusCode", Num (of_Z 200));
                     ("errorText", Str "Invalid Response (200)")])].
Proof.
  apply (actions_on_text sample_JSON_parse (sample_connection false false)
           (Str "Incident") (Str "42") (Str "Close") (Str "Note") (Str "7")
           true true sample_welcome);
    vm_compute; reflexivity.
Defined.

(** ** The url of a query, read back *)

Lemma length_append s t :
  String.length (s +:+ t) = String.length s + String.length t.
Proof.
  induction s as [|a s IH]; [done|].
  change (String a s +:+ t) with (String a (s +:+ t)). simpl. by rewrite IH.
Qed.

Lemma split_prefix c pre s :
  indexOf c pre = None →
  split c (pre +:+ s)
  = match split c s with
    | piece :: pieces => (pre +:+ piece) :: pieces
    | [] => [pre]
    end.
Proof.
  induction pre as [|a pre IH]; intros Hpre.
  - change ("" +:+ s) with s.
    by destruct (ParserProps.split_nonempty c s) as (piece & pieces & ->).
  - apply UrlsProps.indexOf_cons_None in Hpre as [Ha Hpre].
    change (String a pre +:+ s) with (String a (pre +:+ s)). cbn [split].
    apply Ascii.eqb_neq in Ha. rewrite Ha, (IH Hpre).
    by destruct (split c s).
Qed.

Lemma split_sep c s t :
  split c (s +:+ String c t) = split c s ++ split c t.
Proof.
  induction s as [|a s IH].
  - change ("" +:+ String c t) with (String c t). simpl.
    by rewrite Ascii.eqb_refl.
  - change (String a s +:+ String c t) with (String a (s +:+ String c t)).
    cbn [split]. rewrite IH.
    destruct (Ascii.eqb a c); [done|].
    destruct (ParserProps.split_nonempty c s) as (piece & pieces & ->). done.
Qed.

Lemma join_split c s : join c (split c s) = s.
Proof.
  induction s as [|a s IH]; [done|]. cbn [split].
  destruct (Ascii.eqb a c) eqn:Ha.
  - apply Ascii.eqb_eq in Ha as ->.
    destruct (ParserProps.split_nonempty c s) as (piece & pieces & Hs).
    rewrite Hs in IH |- *.
    change (join c ("" :: piece :: pieces))
      with ("" +:+ String c (join c (piece :: pieces))).
    by rewrite IH.
  - destruct (ParserProps.split_nonempty c s) as (piece & pieces & Hs).
    rewrite Hs in IH |- *. destruct pieces as [|piece' pieces].
    + simpl in IH |- *. by rewrite IH.
    + change (join c (String a piece :: piece' :: pieces))
        with (String a (piece +:+ String c (join c (piece' :: pieces)))).
      change (join c (piece :: piece' :: pieces))
        with (piece +:+ String c (join c (piece' :: pieces))) in IH.
      by rewrite IH.
Qed.

Lemma indexOf_found c s t :
  indexOf c s = None → indexOf c (s +:+ String c t) = Some (String.length s).
Proof.
  induction s as [|a s IH]; intros Hs.
  - change ("" +:+ String c t) with (String c t). simpl.
    by rewrite Ascii.eqb_refl.
  - apply UrlsProps.indexOf_cons_None in Hs as [Ha Hs].
    change (String a s +:+ String c t) with (String a (s +:+ String c t)).
    cbn [indexOf]. apply Ascii.eqb_neq in Ha. by rewrite Ha, (IH Hs).
Qed.

Lemma drop_chars_past s a t :
  drop_chars (S (String.length s)) (s +:+ String a t) = t.
Proof.
  induction s as [|b s IH]; [done|].
  change (String b s +:+ String a t) with (String b (s +:+ String a t)).
  simpl. apply IH.
Qed.

Lemma take_chars_within n : ∀ s t,
  n ≤ String.length s → take_chars n (s +:+ t) = take_chars n s.
Proof.
  induction n as [|n IH]; intros [|a s] t Hn; simpl in Hn; try done; [lia|].
  change (String a s +:+ t) with (String a (s +:+ t)). simpl.
  rewrite IH; [done|lia].
Qed.

Lemma take_chars_length n : ∀ s,
  String.length (take_chars n s) = n → n ≤ String.length s.
Proof.
  induction n as [|n IH]; intros [|a s]; simpl; try lia.
  intros [= H]. apply IH in H. lia.
Qed.

Lemma toLowerCase_length s : String.length (toLowerCase s) = String.length s.
Proof. induction s as [|a s IH]; [done|]. simpl. by rewrite IH. Qed.

Lemma parse_pairs_parts data : ∀ parts obj,
  Forall (λ kv, Urls.is_utf8 kv.1 = true ∧ Urls.is_utf8 kv.2 = true) data →
  mapM (λ kv : string * string, Urls.part kv.1 kv.2) data = Some parts →
  Forall (λ piece, indexOf "&" piece = None) parts
  ∧ Parser.parse_pairs parts obj
    = Some (foldl (λ obj kv, Parser.store kv.1 (Urls.read_back kv.2) obj)
                  obj data).
Proof.
  induction data as [|[name text] data IH]; intros parts obj Hall Hparts.
  { injection Hparts as <-. by split; [constructor|]. }
  apply Forall_cons in Hall as [[Hname Htext] Hall].
  change (mapM (λ kv : string * string, Urls.part kv.1 kv.2)
               ((name, text) :: data))
    with (y ← Urls.part name text;
          k ← mapM (λ kv : string * string, Urls.part kv.1 kv.2) data;
          mret (y :: k)) in Hparts.
  destruct (Urls.part name text) as [written|] eqn:Hwritten; [|done].
  destruct (mapM _ data) as [rest|] eqn:Hrest; [|done].
  injection Hparts as <-.
  destruct (UrlsProps.part_read_back name text written Hname Htext Hwritten)
    as [Hamp Hpair].
  destruct (IH rest (Parser.store name (Urls.read_back text) obj) Hall eq_refl)
    as [Hfree Hread].
  split; [by constructor|].
  cbn [Parser.parse_pairs]. by rewrite Hpair.
Qed.

(** X27: [parseQueryUrl] reads the url of a GET exchange back.  For a
    Web Access url of the form [http..//host/application], a command
    path and data that hold strings, what [ajax.call] opens is parsed as
    that Web Access url and the selection of the data read back. *)
Theorem opened_url_read_back base path data url :
  String.eqb (toLowerCase (take_chars 4 base)) "http" = true →
  length (split "/" base) = 4 →
  indexOf "?" (base +:+ String "/" path) = None →
  indexOf "&" (base +:+ String "/" path) = None →
  data ≠ [] →
  Forall (λ kv, Urls.is_utf8 kv.1 = true ∧ Urls.is_utf8 kv.2 = true) data →
  opened (base +:+ String "/" path) GET data = Some (url, None) →
  Parser.parseQueryUrl url
  = match Parser.extract (read_pairs data) with
    | Some qd =>
        Parser.Result {| Parser.webAccessUrl := Some base;
                         Parser.queryData := qd |}
    | None => Parser.NoResult
    end.
Proof.
  intros Hhttp Hbase Hquestion Hamp Hdata Hall Hopened.
  unfold opened, Urls.form in Hopened.
  destruct (mapM _ data) as [parts|] eqn:Hparts; [|done].
  simpl in Hopened. injection Hopened as <-.
  destruct (parse_pairs_parts data parts ∅ Hall Hparts) as [Hfree Hread].
  destruct parts as [|first parts].
  { destruct data as [|[name text] data]; [done|].
    change (mapM (λ kv : string * string, Urls.part kv.1 kv.2)
                 ((name, text) :: data))
      with (y ← Urls.part name text;
            k ← mapM (λ kv : string * string, Urls.part kv.1 kv.2) data;
            mret (y :: k)) in Hparts.
    destruct (Urls.part name text); [|done].
    by destruct (mapM _ data). }
  set (address := base +:+ String "/" path) in *.
  assert (split "&" ((address +:+ "?") +:+ join "&" (first :: parts))
          = ((address +:+ "?") +:+ first) :: parts) as Hsplit.
  { rewrite split_prefix.
    - by rewrite UrlsProps.split_join.
    - by apply UrlsProps.indexOf_app_None. }
  assert (address +:+ "?" +:+ join "&" (first :: parts)
          = (address +:+ "?") +:+ join "&" (first :: parts)) as Hshape
    by by rewrite append_assoc.
  unfold Parser.parseQueryUrl, Parser.pairs_of.
  rewrite Hshape, Hsplit. cbn [hd tl].
  assert ((address +:+ "?") +:+ first = address +:+ String "?" first) as ->
    by by rewrite append_assoc.
  rewrite (indexOf_found "?" address first Hquestion).
  rewrite drop_chars_past.
  assert (4 ≤ String.length base) as Hlong.
  { apply take_chars_length. apply String.eqb_eq in Hhttp.
    by rewrite <- toLowerCase_length, Hhttp. }
  assert (take_chars 4 ((address +:+ "?") +:+ join "&" (first :: parts))
          = take_chars 4 base) as ->.
  { unfold address. rewrite !append_assoc. by apply take_chars_within. }
  rewrite Hhttp.
  assert (join "/" (take 4 (split "/" (address +:+ String "?" first))) = base)
    as ->.
  { unfold address. rewrite append_assoc.
    change (String "/" path +:+ String "?" first)
      with (String "/" (path +:+ String "?" first)).
    rewrite split_sep.
    rewrite take_app_le by lia. rewrite <- Hbase, firstn_all.
    apply join_split. }
  rewrite Hread. unfold read_pairs.
  by destruct (Parser.extract _).
Qed.

Lemma opened_url_read_back_witness :
  opened "https://host/ServiceDesk.WebAccess/wd/query/list.rails" GET
         [("class_name", "Incident Management"); ("page_size", "50")]
  = Some ("https://host/ServiceDesk.WebAccess/wd/query/list.rails?class_name=Incident%20Management&page_size=50",
          None)
  ∧ Parser.parseQueryUrl
      "https://host/ServiceDesk.WebAccess/wd/query/list.rails?class_name=Incident%20Management&page_size=50"
    = match Parser.extract
              (read_pairs [("class_name", "Incident Management");
                           ("page_size", "50")]) with
      | Some qd =>
          Parser.Result
            {| Parser.webAccessUrl := Some "https://host/ServiceDesk.WebAccess";
               Parser.queryData := qd |}
      | None => Parser.NoResult
      end.
Proof.
  split; [vm_compute; reflexivity|].
  apply (opened_url_read_back "https://host/ServiceDesk.WebAccess"
           "wd/query/list.rails"
           [("class_name", "Incident Management"); ("page_size", "50")]);
    [reflexivity|reflexivity|reflexivity|reflexivity|done| |
     vm_compute; reflexivity].
  repeat constructor.
Defined.


(** ** The message of an error page *)

Lemma strip_prefix_self p t : strip_prefix p (p +:+ t) = Some t.
Proof.
  induction p as [|a p IH]; [done|].
  change (String a p +:+ t) with (String a (p +:+ t)). simpl.
  by rewrite Ascii.eqb_refl.
Qed.

(** A text that does not start with [p] still does not when it is made
    longer, if it was as long as [p]. *)
Lemma strip_prefix_longer p : ∀ s t,
  String.length p ≤ String.length s →
  strip_prefix p s = None → strip_prefix p (s +:+ t) = None.
Proof.
  induction p as [|a p IH]; intros [|b s] t Hlength; simpl in *;
    try done; try lia.
  change (String b s +:+ t) with (String b (s +:+ t)). simpl.
  destruct (Ascii.eqb a b); [|done]. apply IH. lia.
Qed.

Lemma find_cons p a s :
  find p (String a s)
  = match strip_prefix p (String a s) with
    | Some _ => Some 0
    | None => S <$> find p s
    end.
Proof. done. Qed.

(** The first place where [q] and [l] stand is after [s], when they do
    not stand anywhere from within [s]. *)
Lemma find_first q l s t :
  find (q +:+ String l "") (s +:+ q) = None →
  find (q +:+ String l "") (s +:+ (q +:+ String l "") +:+ t)
  = Some (String.length s).
Proof.
  set (p := q +:+ String l "").
  induction s as [|a s IH]; intros Hnone.
  - change ("" +:+ p +:+ t) with (p +:+ t).
    destruct (p +:+ t) as [|b rest] eqn:Hshape.
    + by destruct q.
    + rewrite find_cons, <- Hshape, strip_prefix_self. done.
  - change (String a s +:+ q) with (String a (s +:+ q)) in Hnone.
    change (String a s +:+ p +:+ t) with (String a (s +:+ p +:+ t)).
    rewrite find_cons in Hnone |- *.
    destruct (strip_prefix p (String a (s +:+ q))) eqn:Hhere; [done|].
    assert (strip_prefix p (String a (s +:+ p +:+ t)) = None) as ->.
    { assert (String a (s +:+ p +:+ t)
              = String a (s +:+ q) +:+ String l t) as ->.
      { change (String a (s +:+ q) +:+ String l t)
          with (String a ((s +:+ q) +:+ String l t)).
        unfold p. by rewrite !append_assoc. }
      apply strip_prefix_longer; [|done].
      unfold p. simpl. rewrite !length_append. simpl. lia. }
    destruct (find p (s +:+ q)) eqn:Hrest; [done|].
    by rewrite IH.
Qed.

(** A stretch without the first character of the pattern is passed
    over. *)
Lemma find_skip f p s t :
  indexOf f s = None →
  find (String f p) (s +:+ t)
  = (λ k, String.length s + k) <$> find (String f p) t.
Proof.
  induction s as [|a s IH]; intros Hs.
  - change ("" +:+ t) with t. by destruct (find _ t).
  - apply UrlsProps.indexOf_cons_None in Hs as [Ha Hs].
    change (String a s +:+ t) with (String a (s +:+ t)).
    rewrite find_cons. cbn [strip_prefix].
    assert (Ascii.eqb f a = false) as -> by (apply Ascii.eqb_neq; congruence).
    rewrite (IH Hs). by destruct (find _ t).
Qed.

Lemma find_last_cons p a s :
  find_last p (String a s)
  = match find_last p s with
    | Some k => Some (S k)
    | None =>
        match strip_prefix p (String a s) with
        | Some _ => Some 0
        | None => None
        end
    end.
Proof. done. Qed.

Lemma find_last_found p s t k :
  find_last p t = Some k →
  find_last p (s +:+ t) = Some (String.length s + k).
Proof.
  intros Ht. induction s as [|a s IH]; [done|].
  change (String a s +:+ t) with (String a (s +:+ t)).
  by rewrite find_last_cons, IH.
Qed.

Lemma find_last_skip f p s t :
  indexOf f s = None →
  find_last (String f p) t = None →
  find_last (String f p) (s +:+ t) = None.
Proof.
  intros Hs Ht. induction s as [|a s IH]; [done|].
  apply UrlsProps.indexOf_cons_None in Hs as [Ha Hs].
  change (String a s +:+ t) with (String a (s +:+ t)).
  rewrite find_last_cons, (IH Hs). cbn [strip_prefix].
  by assert (Ascii.eqb f a = false) as -> by (apply Ascii.eqb_neq; congruence).
Qed.

Lemma find_last_plain f p s :
  indexOf f s = None → find_last (String f p) s = None.
Proof.
  intros Hs. induction s as [|a s IH]; [done|].
  apply UrlsProps.indexOf_cons_None in Hs as [Ha Hs].
  rewrite find_last_cons, (IH Hs). cbn [strip_prefix].
  by assert (Ascii.eqb f a = false) as -> by (apply Ascii.eqb_neq; congruence).
Qed.

Lemma take_chars_all s t : take_chars (String.length s) (s +:+ t) = s.
Proof.
  induction s as [|a s IH]; [by destruct t|].
  change (String a s +:+ t) with (String a (s +:+ t)). simpl. by rewrite IH.
Qed.

Lemma drop_chars_all s t : drop_chars (String.length s) (s +:+ t) = t.
Proof.
  induction s as [|a s IH]; [done|].
  change (String a s +:+ t) with (String a (s +:+ t)). simpl. by rewrite IH.
Qed.

Lemma length_le_append s t : String.length s ≤ String.length (s +:+ t).
Proof. rewrite length_append. lia. Qed.


Lemma append_cons a s t : String a s +:+ t = String a (s +:+ t).
Proof. done. Qed.

Lemma append_nil_l t : "" +:+ t = t.
Proof. done. Qed.

Ltac flatten :=
  repeat first [rewrite append_assoc | rewrite append_cons
               | rewrite append_nil_l].

Section Page.
Variable JSON_parse : string → option value.

(** X28: the message of an error page.  When the body does not parse
    and holds the words [exceptionMessage], then a paragraph and the end
    of a division, with no other tag in between, the failure is reported
    with the text of that paragraph. *)
Theorem error_page_message x errorText before a msg b after :
  responseText x
  = before +:+ "exceptionMessage" +:+ a +:+ "<p>" +:+ msg +:+ "</p>" +:+ b
    +:+ "</div>" +:+ after →
  find "exceptionMessage" (before +:+ "exceptionMessag") = None →
  indexOf "<" a = None → indexOf "<" msg = None → indexOf "<" b = None →
  JSON_parse (responseText x) = None →
  is_empty errorText && (status x =? 0)%N = false →
  error_text JSON_parse x errorText = Str msg.
Proof.
  intros Htext Hbefore Ha Hmsg Hb Hparse Hconnected.
  set (E := "exceptionMessage" +:+ a).
  set (P := "p>" +:+ msg).
  set (Q := "/p>" +:+ b).
  set (page := E +:+ String "<" (P +:+ String "<" Q)).
  assert (indexOf "<" E = None) as HE
    by (by apply UrlsProps.indexOf_app_None).
  assert (indexOf "<" P = None) as HP
    by (by apply UrlsProps.indexOf_app_None).
  assert (indexOf "<" Q = None) as HQ
    by (by apply UrlsProps.indexOf_app_None).
  assert (responseText x = before +:+ page +:+ "</div>" +:+ after) as Hshape.
  { rewrite Htext. unfold page, E, P, Q. by flatten. }
  assert (find "exceptionMessage" (responseText x)
          = Some (String.length before)) as Hi.
  { rewrite Htext.
    exact (find_first "exceptionMessag" "e" before _ Hbefore). }
  assert (find "</div>" (page +:+ "</div>" +:+ after) = Some (String.length page))
    as Hdiv.
  { apply (find_first "</div" ">" page after).
    unfold page. rewrite !append_assoc.
    rewrite (find_skip "<" "/div>" E) by done.
    change (String "<" (P +:+ String "<" Q) +:+ "</div")
      with (String "<" ((P +:+ String "<" Q) +:+ "</div")).
    rewrite find_cons.
    assert (strip_prefix "</div>"
              (String "<" ((P +:+ String "<" Q) +:+ "</div"))
            = None) as -> by done.
    rewrite !append_assoc.
    rewrite (find_skip "<" "/div>" P) by done.
    change (String "<" Q +:+ "</div") with (String "<" (Q +:+ "</div")).
    rewrite find_cons.
    assert (strip_prefix "</div>" (String "<" (Q +:+ "</div")) = None)
      as -> by done.
    rewrite (find_skip "<" "/div>" Q) by done.
    by assert (find "</div>" "</div" = None) as -> by done. }
  assert (slice (String.length before)
                (find_from "</div>" (String.length before) (responseText x))
                (responseText x) = page) as Hslice.
  { unfold find_from. rewrite Hshape.
    assert ((String.length before
             <=? String.length (before +:+ page +:+ "</div>" +:+ after)) = true)
      as -> by (apply Nat.leb_le, length_le_append).
    rewrite drop_chars_all, Hdiv. cbn [fmap option_fmap option_map slice].
    rewrite <- length_append, <- append_assoc, take_chars_all.
    apply drop_chars_all. }
  assert (find_last "<p>" page = Some (String.length E + 0)) as Hopen.
  { unfold page. apply find_last_found. rewrite find_last_cons.
    rewrite (find_last_skip "<" "p>" P) ; [done|done|].
    rewrite find_last_cons, (find_last_plain "<" "p>" Q) by done. done. }
  assert (find_last "</p>" page
          = Some (String.length (E +:+ String "<" P) + 0)) as Hclose.
  { unfold page.
    assert (E +:+ String "<" (P +:+ String "<" Q)
            = (E +:+ String "<" P) +:+ String "<" Q) as ->.
    { rewrite append_assoc.
      change (String "<" P +:+ String "<" Q)
        with (String "<" (P +:+ String "<" Q)). done. }
    apply find_last_found.
    rewrite find_last_cons, (find_last_plain "<" "/p>" Q) by done. done. }
  unfold error_text. rewrite Hconnected, Hparse. cbn [mbind option_bind].
  rewrite Hi. cbv zeta. rewrite Hslice, Hopen, Hclose. cbn [slice].
  f_equal.
  assert (page = (E +:+ String "<" P) +:+ String "<" Q) as ->.
  { unfold page. rewrite append_assoc.
    change (String "<" P +:+ String "<" Q)
      with (String "<" (P +:+ String "<" Q)). done. }
  rewrite !Nat.add_0_r, take_chars_all.
  assert (E +:+ String "<" P = (E +:+ "<p>") +:+ msg) as ->.
  { unfold P. rewrite append_assoc. done. }
  assert (String.length E + 3 = String.length (E +:+ "<p>")) as ->.
  { rewrite length_append. simpl. lia. }
  apply drop_chars_all.
Qed.

End Page.

Lemma error_page_message_witness :
  error_text sample_JSON_parse sample_page "Internal Server Error"
  = Str "Object not found".
Proof.
  apply (error_page_message sample_JSON_parse sample_page
           "Internal Server Error" "<html><div class='" "'>"
           "Object not found" "" "</html>");
    vm_compute; reflexivity.
Defined.

End TransportProps.
